(** * py2droid: the build and packaging script [scripts/build.py]

    A shallow embedding of the pure parts of the script, and of its effects on
    the file system and on the external tools as explicit state passing.

    Conventions of the embedding.
    - A Python [str] is a [string]; its characters are the code points
      U+0000..U+00FF.  The text of a file opened in text mode is the string
      the decoder hands to the program, before newline translation.
    - A Python [bytes] is a [list byte].  Text decoded from bytes by
      [bytes.decode()] is a list of code points ([list N]).
    - An exception is a value of [exn]; a call that can raise returns a
      [result].
    - A dictionary is a [gmap]; a directory listing is a list, in the order
      in which [iterdir] yields its entries.
    - What the script asks of the disk and of external commands is given by
      the outside, each operation with the exception that it raises when it
      fails; a command leaves an exit status, or cannot be started. *)

From Stdlib Require Import Strings.Ascii NArith Strings.Byte.
From Stdlib Require Strings.String.
From stdpp Require Import base option list gmap strings sorting.

Set Warnings "-register-all,-clear-no-such-hyp".

(** ** Exceptions and results *)

Inductive exn : Type :=
  | ValueError (msg : string)
  | UnpackError (expected got : nat)   (* the ValueError of tuple unpacking *)
  | TypeError
  | IndexError
  | KeyError (key : string)
  | UnicodeDecodeError
  | TarError
  | StopIteration
  | FileNotFoundError (path : string)
  | NotADirectoryError (path : string)
  | CalledProcessError (cmd : list string).

Inductive result (A : Type) : Type :=
  | Ok (a : A)
  | Raise (e : exn).
Arguments Ok {A} a.
Arguments Raise {A} e.

#[global] Instance result_ret : MRet result := @Ok.
#[global] Instance result_bind : MBind result := λ A B k r,
  match r with
  | Ok a => k a
  | Raise e => Raise e
  end.

(** What [subprocess.run] gives: the exit status of the command, or the
    exception that starting it raised. *)
Inductive completed : Type :=
  | Returned (returncode : Z)
  | NotStarted (e : exn).

(** ** Python string operations *)

Module PyStr.

Definition LF : ascii := ascii_of_nat 10.
Definition CR : ascii := ascii_of_nat 13.
Definition nl : string := String LF EmptyString.

(** [str.isspace] on one character, for the code points below 256:
    TAB, LF, VT, FF, CR, FS, GS, RS, US, SPACE, NEL and NBSP. *)
Definition is_space (c : ascii) : bool :=
  let n := nat_of_ascii c in
  ((9 <=? n) && (n <=? 13)) || ((28 <=? n) && (n <=? 32))
  || (n =? 133) || (n =? 160).

Fixpoint lstrip (s : string) : string :=
  match s with
  | EmptyString => EmptyString
  | String c s' => if is_space c then lstrip s' else s
  end.

Fixpoint rstrip (s : string) : string :=
  match s with
  | EmptyString => EmptyString
  | String c s' =>
      match rstrip s' with
      | EmptyString => if is_space c then EmptyString else String c EmptyString
      | r => String c r
      end
  end.

(** [s.strip()] *)
Definition strip (s : string) : string := rstrip (lstrip s).

(** [s.startswith(p)] *)
Definition startswith (p s : string) : bool := String.prefix p s.

(** [s[n:]] *)
Fixpoint slice_from (n : nat) (s : string) : string :=
  match n, s with
  | S n', String _ s' => slice_from n' s'
  | _, _ => s
  end.

(** [s.partition(sep)] when [sep] occurs in [s]: the text before the first
    occurrence and the text after it. *)
Fixpoint partition (sep s : string) : option (string * string) :=
  if String.prefix sep s then Some (EmptyString, slice_from (String.length sep) s)
  else match s with
       | EmptyString => None
       | String c s' =>
           match partition sep s' with
           | Some (a, b) => Some (String c a, b)
           | None => None
           end
       end.

(** [sub in s] *)
Definition contains (sub s : string) : bool :=
  match partition sub s with Some _ => true | None => false end.

(** [s.split(sep, 1)], for a separator that is not empty. *)
Definition split1 (sep s : string) : list string :=
  match partition sep s with
  | Some (a, b) => [a; b]
  | None => [s]
  end.

(** [sep.join(l)] *)
Definition join (sep : string) (l : list string) : string := String.concat sep l.

(** [s.upper()] on the ASCII letters; the script upper-cases architecture
    codes only, which are ASCII. *)
Definition upper_char (c : ascii) : ascii :=
  let n := nat_of_ascii c in
  if (97 <=? n) && (n <=? 122) then ascii_of_nat (n - 32) else c.

Fixpoint upper (s : string) : string :=
  match s with
  | EmptyString => EmptyString
  | String c s' => String (upper_char c) (upper s')
  end.

(** Universal newlines of a file opened in text mode: CR LF and a lone CR
    are read as LF. *)
Fixpoint universal_newlines (s : string) : string :=
  match s with
  | EmptyString => EmptyString
  | String c s' =>
      if Ascii.eqb c CR then
        match s' with
        | String c' s'' =>
            if Ascii.eqb c' LF then String LF (universal_newlines s'')
            else String LF (universal_newlines s')
        | EmptyString => String LF EmptyString
        end
      else String c (universal_newlines s')
  end.

(** The lines of a text, each with its terminating LF (the last one may
    have none). *)
Fixpoint keepends (s : string) : list string :=
  match s with
  | EmptyString => []
  | String c s' =>
      if Ascii.eqb c LF then String c EmptyString :: keepends s'
      else match keepends s' with
           | [] => [String c EmptyString]
           | l :: ls => String c l :: ls
           end
  end.

(** [for line in fin] over a file opened in text mode. *)
Definition file_lines (text : string) : list string :=
  keepends (universal_newlines text).

(** [x in keys] for a tuple of strings. *)
Definition elem (x : string) (keys : list string) : bool :=
  existsb (String.eqb x) keys.

End PyStr.

(** ** The module descriptor [module.prop] *)

Module Props.
Import PyStr.

(** One iteration of the loop of [getprops]. *)
Definition getprops_line (keys : list string) (sep : string)
    (values : list string) (line : string) : list string :=
  if negb (contains sep line) then values
  else
    let fields := split1 sep line in
    match fields with
    | [k; v] => if elem (strip k) keys then values ++ [strip v] else values
    | _ => values
    end.

(** [getprops(file, *keys, sep)] on the text of [file]; [sep] is not
    empty. *)
Definition getprops (text : string) (keys : list string) (sep : string) : list string :=
  fold_left (getprops_line keys sep) (file_lines text) [].

(** [self.module_name, self.module_ver = getprops(module.prop, "name", "version")] *)
Definition init_module (text : string) : result (string * string) :=
  match getprops text ["name"; "version"] "=" with
  | [name; ver] => Ok (name, ver)
  | values => Raise (UnpackError 2 (length values))
  end.

(** The line written for a description line. *)
Definition description_line (python_ver arch : string) : string :=
  "description=CPython " +:+ python_ver +:+ " for " +:+ upper arch.

(** One iteration of the loop of [_process_module_prop]. *)
Definition process_line (python_ver arch : string)
    (lines : list string) (line : string) : list string :=
  if startswith "description" line
  then lines ++ [description_line python_ver arch]
  else lines ++ [strip line].

(** [ModuleBuilder._process_module_prop(path, arch)] on the text of [path]. *)
Definition process_module_prop (python_ver text arch : string) : string :=
  join nl (fold_left (process_line python_ver arch) (file_lines text) []).

End Props.

(** ** Host triples and Magisk architecture codes *)

Module Arch.

(** [self.arch_mapping]: host names to Magisk [$ARCH]. *)
Definition arch_mapping : gmap string string :=
  list_to_map
    [ ("aarch64-linux-android", "arm64");
      ("armv7a-linux-androideabi", "arm");
      ("arm-linux-androideabi", "arm");
      ("x86_64-linux-android", "x64");
      ("i686-linux-android", "x86") ].

(** [self.arch_mapping.get(host, "unknown")] *)
Definition arch_of (host : string) : string :=
  default "unknown" (arch_mapping !! host).

End Arch.

(** ** Packaging: [ModuleBuilder.build] *)

Module Packaging.
Import PyStr Props Arch.

(** A member of a zip archive, by the call that wrote it. *)
Inductive member : Type :=
  | WriteBytes (arcname : string) (data : list byte)   (* writestr, bytes *)
  | WriteText (arcname : string) (text : string)       (* writestr, str *)
  | WriteFile (path arcname : string).                 (* write: a copy of the file at path *)

(** What packaging asks of the disk, each with the exception that it
    raises when it fails: the xz-compressed tar of a prefix directory
    ([_create_python_archive]), the text of a file opened for reading, the
    reading of a file by [ZipFile.write], and the creation of an archive in
    DIST_DIR by [ZipFile(output_path, "w")]. *)
Record disk : Type := {
  tar_xz : string → result (list byte);
  read_text : string → result string;
  zip_write : string → option exn;
  zip_open : string → option exn
}.

(** The fields of a [ModuleBuilder] that [build] reads. *)
Record builder : Type := {
  sources : string;
  python_ver : string;
  hosts : list string;
  include_files : list string;
  module_name : string;
  module_ver : string;
  module_files : list (string * string)   (* path, path relative to MODULE_DIR *)
}.

(** [a / b] for a relative [b]. *)
Definition path_join (a b : string) : string := a +:+ "/" +:+ b.

(** [Path(p).name] for a path without a trailing slash. *)
Fixpoint basename (p : string) : string :=
  match p with
  | EmptyString => EmptyString
  | String c p' =>
      if contains "/" p then basename p' else p
  end.

(** The name of the archive in DIST_DIR. *)
Definition zip_name (b : builder) (arch : string) : string :=
  module_name b +:+ "-" +:+ module_ver b +:+ "-" +:+ arch +:+ ".zip".

Definition tar_name (b : builder) (arch : string) : string :=
  "python-" +:+ python_ver b +:+ "-" +:+ arch +:+ ".tar.xz".

(** [_write_module_file] *)
Definition write_module_file (b : builder) (d : disk) (arch : string)
    (f : string * string) : result member :=
  let '(path, rel_path) := f in
  if String.eqb (basename path) "module.prop"
  then text ← read_text d path;
       Ok (WriteText rel_path (process_module_prop (python_ver b) text arch))
  else match zip_write d path with
       | None => Ok (WriteFile path rel_path)
       | Some e => Raise e
       end.

(** [zip_out.write(entry)] *)
Definition write_entry (d : disk) (entry : string) : result member :=
  match zip_write d entry with
  | None => Ok (WriteFile entry entry)
  | Some e => Raise e
  end.

(** The writes into an archive in order, up to the first that raises: the
    members written and the exception, if any. *)
Fixpoint write_all (writes : list (result member)) : list member * option exn :=
  match writes with
  | [] => ([], None)
  | Ok m :: rest => let '(ms, e) := write_all rest in (m :: ms, e)
  | Raise e :: _ => ([], Some e)
  end.

(** The body of [with ZipFile(...) as zip_out] for one host. *)
Definition zip_members (b : builder) (d : disk) (arch : string)
    (python_buf : list byte) : list member * option exn :=
  write_all
    (Ok (WriteBytes (tar_name b arch) python_buf)
       :: map (write_module_file b d arch) (module_files b)
       ++ map (write_entry d) (include_files b)).

(** [self.sources / "cross-build" / host / "prefix"] *)
Definition prefix_path (b : builder) (host : string) : string :=
  path_join (path_join (path_join (sources b) "cross-build") host) "prefix".

(** The loop of [build] over the hosts that are left; [dist] is DIST_DIR,
    the archives by file name.  Opening a [ZipFile] for writing replaces a
    file of the same name; leaving the [with] block closes the archive,
    also when a write raised, so the members written until then stay. *)
Fixpoint build_hosts (b : builder) (d : disk) (todo : list string)
    (dist : gmap string (list member)) : gmap string (list member) * option exn :=
  match todo with
  | [] => (dist, None)
  | host :: rest =>
      let prefix := prefix_path b host in
      let arch := arch_of host in
      match tar_xz d prefix with
      | Raise e => (dist, Some e)
      | Ok python_buf =>
          match zip_open d (zip_name b arch) with
          | Some e => (dist, Some e)
          | None =>
              let dist' := <[zip_name b arch := (zip_members b d arch python_buf).1]> dist in
              match (zip_members b d arch python_buf).2 with
              | Some e => (dist', Some e)
              | None => build_hosts b d rest dist'
              end
          end
      end
  end.

(** [ModuleBuilder.build()] *)
Definition build (b : builder) (d : disk) (dist : gmap string (list member))
    : gmap string (list member) * option exn :=
  build_hosts b d (hosts b) dist.

End Packaging.

(** ** Shebang rewriting *)

Module Shebang.

(** The set given to [bytearray] in [is_binary]; set difference binds
    tighter than union. *)
Definition textchars : gset N :=
  list_to_set [7; 8; 9; 10; 12; 13; 27]%N
    ∪ (list_to_set (N.of_nat <$> seq 32 (256 - 32)) ∖ {[127%N]}).

(** [b.translate(None, delete)]: the bytes of [b] that are not in [delete]. *)
Definition translate_delete (delete : gset N) (b : list byte) : list byte :=
  filter (λ x, Byte.to_N x ∉ delete) b.

(** [is_binary(b)] *)
Definition is_binary (b : list byte) : bool :=
  match translate_delete textchars b with
  | [] => false
  | _ :: _ => true
  end.

Definition between (lo hi n : N) : bool := ((lo <=? n) && (n <=? hi))%N.
Definition continuation (n : N) : bool := between 128 191 n.

(** [b.decode()]: strict UTF-8; [None] is a UnicodeDecodeError. *)
Fixpoint utf8_decode (bs : list byte) : option (list N) :=
  match bs with
  | [] => Some []
  | b0 :: r0 =>
      let n0 := Byte.to_N b0 in
      if (n0 <? 128)%N then cons n0 <$> utf8_decode r0
      else if between 194 223 n0 then
        match r0 with
        | b1 :: r1 =>
            let n1 := Byte.to_N b1 in
            if continuation n1
            then cons ((n0 - 192) * 64 + (n1 - 128))%N <$> utf8_decode r1
            else None
        | _ => None
        end
      else if between 224 239 n0 then
        match r0 with
        | b1 :: b2 :: r2 =>
            let n1 := Byte.to_N b1 in
            let n2 := Byte.to_N b2 in
            let lo := if (n0 =? 224)%N then 160%N else 128%N in
            let hi := if (n0 =? 237)%N then 159%N else 191%N in
            if between lo hi n1 && continuation n2
            then cons ((n0 - 224) * 4096 + (n1 - 128) * 64 + (n2 - 128))%N
                   <$> utf8_decode r2
            else None
        | _ => None
        end
      else if between 240 244 n0 then
        match r0 with
        | b1 :: b2 :: b3 :: r3 =>
            let n1 := Byte.to_N b1 in
            let n2 := Byte.to_N b2 in
            let n3 := Byte.to_N b3 in
            let lo := if (n0 =? 240)%N then 144%N else 128%N in
            let hi := if (n0 =? 244)%N then 143%N else 191%N in
            if between lo hi n1 && continuation n2 && continuation n3
            then cons ((n0 - 240) * 262144 + (n1 - 128) * 4096
                       + (n2 - 128) * 64 + (n3 - 128))%N
                   <$> utf8_decode r3
            else None
        | _ => None
        end
      else None
  end.

Definition byte_of (n : N) : byte := default x00 (Byte.of_N n).

(** The UTF-8 encoding of one code point. *)
Definition utf8_encode_char (c : N) : list byte :=
  if (c <? 128)%N then [byte_of c]
  else if (c <? 2048)%N then [byte_of (192 + c / 64); byte_of (128 + c mod 64)]%N
  else if (c <? 65536)%N then
    [byte_of (224 + c / 4096); byte_of (128 + (c / 64) mod 64);
     byte_of (128 + c mod 64)]%N
  else
    [byte_of (240 + c / 262144); byte_of (128 + (c / 4096) mod 64);
     byte_of (128 + (c / 64) mod 64); byte_of (128 + c mod 64)]%N.

(** Writing text to a file opened with mode "w", in a UTF-8 locale where
    the line separator is LF. *)
Definition utf8_encode (s : list N) : list byte :=
  concat (map utf8_encode_char s).

(** The code points of a string literal of the script. *)
Definition codepoints (s : string) : list N :=
  map N_of_ascii (String.list_ascii_of_string s).

(** A compiled regular expression, by what [pattern.match(content)] gives:
    the end of the match at the start of [content], if there is one. *)
Record pattern : Type := { re_match : list N → option nat }.

(** A regular file: its bytes, and whether the process may open it for
    reading and for writing. *)
Record file : Type := {
  bytes : list byte;
  readable : bool;
  writable : bool
}.

(** [replace_shebang(file, pattern, replacement)].  [names] tells which
    regular file a path leads to, symbolic links followed, and [store] holds
    the regular files: two paths lead to the same file when one is a link
    to the other.  Opening a path that leads to no regular file, or a file
    that the process may not open, raises OSError, which is caught; opening
    for writing follows links as opening for reading does, so the file
    written is the file read.  [pattern.sub(replacement, content, 1)] runs
    after [pattern.match(content)] succeeded, so the leftmost match is the
    one at the start. *)
Definition replace_shebang (names : gmap string N) (store : gmap N file)
    (path : string) (p : pattern) (replacement : string) : gmap N file * bool :=
  match names !! path with
  | None => (store, false)
  | Some i =>
      match store !! i with
      | None => (store, false)
      | Some f =>
          if negb (readable f) then (store, false)
          else if is_binary (take 1024 (bytes f)) then (store, false)
          else
            match utf8_decode (bytes f) with
            | None => (store, false)
            | Some content =>
                match re_match p content with
                | None => (store, false)
                | Some e =>
                    if negb (writable f) then (store, false)
                    else
                      let new_content := codepoints replacement ++ drop e content in
                      (<[i := {| bytes := utf8_encode new_content;
                                 readable := readable f;
                                 writable := writable f |}]> store, true)
                end
            end
      end
  end.

(** The inner loop of [replace_shebangs]: the patterns in order, until one
    replaces. *)
Fixpoint rewrite_file (patterns : list (pattern * string))
    (names : gmap string N) (store : gmap N file) (path : string) : gmap N file :=
  match patterns with
  | [] => store
  | (p, replacement) :: rest =>
      let '(store', replaced) := replace_shebang names store path p replacement in
      if replaced then store' else rewrite_file rest names store' path
  end.

(** The part of the disk the pass works on: the paths that lead to a
    regular file, the regular files, and for each directory the names of
    its entries in iteration order, or the exception that listing it
    raises.  The pass changes the bytes of files, and neither [names] nor
    [dirs]. *)
Record disk : Type := {
  names : gmap string N;
  store : gmap N file;
  dirs : string → result (list string)
}.

Definition bindir (sources host : string) : string :=
  sources +:+ "/cross-build/" +:+ host +:+ "/prefix/bin".

(** [f for f in bindir.iterdir() if f.is_file()], given the entries;
    [is_file] follows links. *)
Definition bin_files (nm : gmap string N) (dir : string)
    (entries : list string) : list string :=
  filter (λ f, is_Some (nm !! f)) (map (λ name, dir +:+ "/" +:+ name) entries).

(** [replace_shebangs(sources, python_conf, module_conf)], with the two
    patterns of [module_conf.shebang_mapping] compiled. *)
Definition patterns (python shell : pattern) : list (pattern * string) :=
  [(python, "#!/system/bin/python3"); (shell, "#!/system/bin/sh")].

Fixpoint replace_shebangs_hosts (pats : list (pattern * string))
    (nm : gmap string N) (ds : string → result (list string))
    (sources : string) (hosts : list string)
    (st : gmap N file) : gmap N file * option exn :=
  match hosts with
  | [] => (st, None)
  | host :: rest =>
      let dir := bindir sources host in
      match ds dir with
      | Raise e => (st, Some e)
      | Ok entries =>
          replace_shebangs_hosts pats nm ds sources rest
            (foldl (rewrite_file pats nm) st (bin_files nm dir entries))
      end
  end.

Definition replace_shebangs (python shell : pattern) (sources : string)
    (hosts : list string) (d : disk) : disk * option exn :=
  let '(st, e) := replace_shebangs_hosts (patterns python shell) (names d) (dirs d)
                    sources hosts (store d) in
  ({| names := names d; store := st; dirs := dirs d |}, e).

(** The regular expression that is a literal text: it matches at the start
    of the texts that begin with it. *)
Definition literal (lit : string) : pattern :=
  {| re_match := λ content,
       if bool_decide (take (length (codepoints lit)) content = codepoints lit)
       then Some (length (codepoints lit)) else None |}.

(** The regular expression that is a literal text followed by [.*]: the
    match runs from the literal to the end of the line. *)
Fixpoint line_length (content : list N) : nat :=
  match content with
  | [] => 0
  | c :: rest => if (c =? 10)%N then 0 else S (line_length rest)
  end.

Definition literal_line (lit : string) : pattern :=
  {| re_match := λ content,
       let n := length (codepoints lit) in
       if bool_decide (take n content = codepoints lit)
       then Some (n + line_length (drop n content)) else None |}.

(** The first line of a file: its bytes before the first LF. *)
Fixpoint first_line (bs : list byte) : list byte :=
  match bs with
  | [] => []
  | b :: bs' => if Byte.eqb b x0a then [] else b :: first_line bs'
  end.

End Shebang.

(** ** Source acquisition: [get_cpython] *)

Module Sources.
Import PyStr.

(** [\d] on the code points below 256: the ASCII digits. *)
Definition is_digit (c : ascii) : bool :=
  let n := nat_of_ascii c in (48 <=? n) && (n <=? 57).

(** [\d+] followed by the rest [k] of the pattern, as the backtracking
    matcher runs it: the longest run of digits first, then shorter ones.
    The result is the text left after the whole match. *)
Fixpoint digits_then (k : string → option string) (s : string) : option string :=
  match s with
  | EmptyString => None
  | String c s' =>
      if is_digit c then
        match digits_then k s' with
        | Some rest => Some rest
        | None => k s'
        end
      else None
  end.

(** [\.] followed by the rest [k] of the pattern. *)
Definition dot_then (k : string → option string) (s : string) : option string :=
  match s with
  | String c s' => if Ascii.eqb c "." then k s' else None
  | EmptyString => None
  end.

(** A match of [(\d+\.\d+\.\d+)] at the start of [s]: the text after it. *)
Definition match_version (s : string) : option string :=
  digits_then (dot_then (digits_then (dot_then (digits_then Some)))) s.

(** [s[:n]] *)
Fixpoint slice_to (n : nat) (s : string) : string :=
  match n, s with
  | S n', String c s' => String c (slice_to n' s')
  | _, _ => EmptyString
  end.

(** [re.findall(r"(\d+\.\d+\.\d+)", s)]: the matches from left to right,
    each search resuming where the previous match ended.  A match is never
    empty, so [S (length s)] steps are enough. *)
Fixpoint findall_from (fuel : nat) (s : string) : list string :=
  match fuel with
  | 0 => []
  | S fuel' =>
      match match_version s with
      | Some rest =>
          slice_to (String.length s - String.length rest) s :: findall_from fuel' rest
      | None =>
          match s with
          | EmptyString => []
          | String _ s' => findall_from fuel' s'
          end
      end
  end.

Definition findall (s : string) : list string :=
  findall_from (S (String.length s)) s.

(** [l[0]] *)
Definition item0 (l : list string) : result string :=
  match l with
  | v :: _ => Ok v
  | [] => Raise IndexError
  end.

(** The [try] block of [get_cpython] on the file name. *)
Definition resolve_version (filename : string) : string :=
  match item0 (findall filename) with
  | Ok version => version
  | Raise _ => "unknown"
  end.

(** The components of a path: the texts between slashes. *)
Fixpoint components (p : string) : list string :=
  match p with
  | EmptyString => [EmptyString]
  | String c p' =>
      if Ascii.eqb c "/" then EmptyString :: components p'
      else match components p' with
           | h :: t => String c h :: t
           | [] => [String c EmptyString]
           end
  end.

(** [Path(p).name]: the last component that is neither empty nor a dot. *)
Definition path_name (p : string) : string :=
  List.last (filter (λ c, c ≠ "" ∧ c ≠ ".") (components p)) "".

(** An entry of BUILD_DIR. *)
Record entry : Type := { name : string; is_dir : bool }.

(** What [get_cpython] does to the outside. *)
Inductive action : Type :=
  | Download (url output : string)
  | Extract (archive : string)
  | Unlink (path : string).

(** What [get_cpython] finds outside: the entries of BUILD_DIR in
    iteration order, whether curl exits with status zero, and the entries
    of BUILD_DIR after the archive is extracted and removed ([None] when
    the extraction fails). *)
Record outside : Type := {
  build_dir : list entry;
  curl_ok : bool;
  after_extract : option (list entry)
}.

(** The loop over [BUILD_DIR.iterdir()]. *)
Fixpoint existing_sources (version : string) (entries : list entry) : option entry :=
  match entries with
  | [] => None
  | e :: rest =>
      if is_dir e && contains version (name e) then Some e
      else existing_sources version rest
  end.

Definition curl (url output : string) : list string :=
  ["curl"; "-Lf"; "--retry"; "5"; "--retry-all-errors"; "-o"; output; url].

(** [get_cpython(python_conf)]: what it does and what it returns. *)
Definition get_cpython (o : outside) (sources_url : string)
    : list action * result (entry * string) :=
  let filename := path_name sources_url in
  let version := resolve_version filename in
  match existing_sources version (build_dir o) with
  | Some e => ([], Ok (e, version))
  | None =>
      let output := filename in
      if negb (curl_ok o)
      then ([Download sources_url output],
            Raise (CalledProcessError (curl sources_url output)))
      else
        match after_extract o with
        | None => ([Download sources_url output; Extract output], Raise TarError)
        | Some entries =>
            ([Download sources_url output; Extract output; Unlink output],
             match entries with
             | e :: _ => Ok (e, version)
             | [] => Raise StopIteration
             end)
        end
  end.

End Sources.

(** ** Configuration: [load_config] *)

Module Config.

(** A value of a parsed TOML document. *)
Inductive toml : Type :=
  | TString (s : string)
  | TInteger (z : Z)
  | TBool (b : bool)
  | TArray (l : list toml)
  | TTable (t : gmap string toml).

(** The dataclasses; a dataclass does not check the types of its fields. *)
Record PythonConfig : Type := {
  sources_url : toml;
  apply_patches : toml;
  hosts : toml;
  configure_args : toml;
  configure_env : toml;
  package : toml
}.

Record ModuleConfig : Type := {
  include_files : toml;
  debloat : toml;
  debloat_patterns : toml;
  replace_shebangs : toml;
  shebang_mapping : toml;
  strip : toml;
  strip_args : toml
}.

(** [PythonConfig] called with the entries of [v] as keyword arguments:
    [v] has to be a mapping; a field without an entry is a missing
    argument, an entry that is no field an unexpected one. *)
Definition PythonConfig_init (v : toml) : result PythonConfig :=
  match v with
  | TTable t =>
      match t !! "sources_url", t !! "apply_patches", t !! "hosts",
            t !! "configure_args", t !! "configure_env", t !! "package" with
      | Some a, Some b, Some c, Some d, Some e, Some f =>
          if bool_decide (size t = 6)
          then Ok {| sources_url := a; apply_patches := b; hosts := c;
                     configure_args := d; configure_env := e; package := f |}
          else Raise TypeError
      | _, _, _, _, _, _ => Raise TypeError
      end
  | _ => Raise TypeError
  end.

Definition ModuleConfig_init (v : toml) : result ModuleConfig :=
  match v with
  | TTable t =>
      match t !! "include_files", t !! "debloat", t !! "debloat_patterns",
            t !! "replace_shebangs", t !! "shebang_mapping", t !! "strip",
            t !! "strip_args" with
      | Some a, Some b, Some c, Some d, Some e, Some f, Some g =>
          if bool_decide (size t = 7)
          then Ok {| include_files := a; debloat := b; debloat_patterns := c;
                     replace_shebangs := d; shebang_mapping := e; strip := f;
                     strip_args := g |}
          else Raise TypeError
      | _, _, _, _, _, _, _ => Raise TypeError
      end
  | _ => Raise TypeError
  end.

(** What opening the file and [tomllib.load(fin)] do: opening raises an
    exception; the bytes are no UTF-8 and the parser raises
    UnicodeDecodeError, which is no TOMLDecodeError; the parser raises
    TOMLDecodeError, whose text is [msg]; or it returns the document. *)
Inductive loaded : Type :=
  | CannotOpen (e : exn)
  | NotUtf8
  | TOMLDecodeError (msg : string)
  | Document (config : gmap string toml).

(** [load_config(file)], given what opening and parsing the file do. *)
Definition load_config (file : string) (l : loaded)
    : result (PythonConfig * ModuleConfig) :=
  match l with
  | CannotOpen e => Raise e
  | NotUtf8 => Raise UnicodeDecodeError
  | TOMLDecodeError e =>
      Raise (ValueError ("Failed to parse '" +:+ file +:+ "': " +:+ e))
  | Document config =>
      match config !! "python", config !! "module" with
      | Some py, Some md =>
          python_config ← PythonConfig_init py;
          module_config ← ModuleConfig_init md;
          Ok (python_config, module_config)
      | _, _ =>
          Raise (ValueError ("Configuration file '" +:+ file
                   +:+ "' must contain 'python' and 'module' sections"))
      end
  end.

End Config.

(** ** The build driver: [build_cpython] *)

Module Driver.

(** A call of [run]: the command and the environment given to it. *)
Record call : Type := { argv : list string; env : gmap string string }.

(** The outside of the driver, over a type [W] of states of the disk:
    running a command, which leaves a disk and an exit status or the
    exception of starting it; testing whether a path exists; and, for the
    loop that moves the packages of a host, the names of the entries of a
    directory, the removal of a file and the renaming of one, each with the
    exception that it raises when it fails. *)
Class Outside (W : Type) : Type := {
  exec : call → W → W * completed;
  path_exists : string → W → bool;
  iterdir : string → W → result (list string);
  unlink : string → W → result W;
  rename : string → string → W → result W
}.

(** The fields of [PythonConfig] that the driver reads. *)
Record python_conf : Type := {
  hosts : list string;
  configure_args : list string;
  configure_env : gmap string string;
  package : bool
}.

Section driver.
Context {W : Type} `{!Outside W}.

(** A step of the driver: from a state of the disk and the calls made so
    far to the new ones, and a value or the exception raised. *)
Definition M (A : Type) : Type := W * list call → (W * list call) * result A.

Definition ret {A} (a : A) : M A := λ st, (st, Ok a).

Definition and_then {A B} (m : M A) (k : A → M B) : M B := λ st,
  match m st with
  | (st', Ok a) => k a st'
  | (st', Raise e) => (st', Raise e)
  end.

(** [run(cmd, env=env)] with [check=True]: CalledProcessError when the exit
    status is not zero. *)
Definition run (cmd : list string) (e : gmap string string) : M unit := λ '(w, log),
  let c := {| argv := cmd; env := e |} in
  let st' := ((exec c w).1, log ++ [c]) in
  match (exec c w).2 with
  | Returned returncode =>
      if (returncode =? 0)%Z then (st', Ok tt)
      else (st', Raise (CalledProcessError cmd))
  | NotStarted err => (st', Raise err)
  end.

Definition exists_ (path : string) : M bool := λ '(w, log),
  ((w, log), Ok (path_exists path w)).

(** The body of the loop over [dist.iterdir()], for the names that are
    left. *)
Fixpoint move_entries (dist_dir host_dist : string) (names : list string) (w : W)
    : W * option exn :=
  match names with
  | [] => (w, None)
  | name :: rest =>
      let target := dist_dir +:+ "/" +:+ name in
      match (if path_exists target w then unlink target w else Ok w) with
      | Raise e => (w, Some e)
      | Ok w1 =>
          match rename (host_dist +:+ "/" +:+ name) target w1 with
          | Raise e => (w1, Some e)
          | Ok w2 => move_entries dist_dir host_dist rest w2
          end
      end
  end.

(** The loop that moves the packages of a host into DIST_DIR; the listing
    is taken when the loop starts. *)
Definition move_dist (dist_dir host_build : string) (w : W) : W * option exn :=
  match iterdir (host_build +:+ "/dist") w with
  | Raise e => (w, Some e)
  | Ok names => move_entries dist_dir (host_build +:+ "/dist") names w
  end.

Definition collect_dist (dist_dir host_build : string) : M unit := λ '(w, log),
  match move_dist dist_dir host_build w with
  | (w', None) => ((w', log), Ok tt)
  | (w', Some e) => ((w', log), Raise e)
  end.

(** [for x in l: body(x)] *)
Fixpoint for_each {A} (l : list A) (body : A → M unit) : M unit :=
  match l with
  | [] => ret tt
  | x :: rest => and_then (body x) (λ _, for_each rest body)
  end.

Definition configure_host (android_py host : string) (conf : python_conf) : list string :=
  [android_py; "configure-host"; host; "--"] ++ configure_args conf.
Definition make_host (android_py host : string) : list string :=
  [android_py; "make-host"; host].
Definition package_host (android_py host : string) : list string :=
  [android_py; "package"; host].

(** The body of the loop over the hosts. *)
Definition build_host (dist_dir sources : string) (conf : python_conf)
    (environ configure_env' : gmap string string) (host : string) : M unit :=
  let android_py := sources +:+ "/Android/android.py" in
  let host_build := sources +:+ "/cross-build/" +:+ host in
  and_then (exists_ host_build) (λ present,
    if present then ret tt
    else
      and_then (run (configure_host android_py host conf) configure_env') (λ _,
      and_then (run (make_host android_py host) environ) (λ _,
        if package conf
        then and_then (run (package_host android_py host) environ) (λ _,
               collect_dist dist_dir host_build)
        else ret tt))).

(** [build_cpython(sources, python_conf)]; [environ] is [os.environ] and
    [dist_dir] is DIST_DIR. *)
Definition build_cpython (dist_dir sources : string) (conf : python_conf)
    (environ : gmap string string) : M unit :=
  let android_py := sources +:+ "/Android/android.py" in
  let configure_env' := configure_env conf ∪ environ in
  and_then (exists_ (sources +:+ "/cross-build/build")) (λ present,
  and_then (if present then ret tt
       else
         and_then (run ([android_py; "configure-build"; "--"] ++ configure_args conf)
                configure_env') (λ _,
         run [android_py; "make-build"] environ)) (λ _,
  for_each (hosts conf) (build_host dist_dir sources conf environ configure_env'))).

End driver.

End Driver.

(** ** Patches: [apply_patches] *)

Module Patches.

(** A call of [run]: the working directory it runs in, the command and the
    environment. *)
Record call : Type := {
  cwd : string;
  argv : list string;
  env : gmap string string
}.

(** The outside of [apply_patches]: running a command, which leaves a disk
    and an exit status or the exception of starting it; [PATCHES_DIR.exists()];
    the entries of PATCHES_DIR as full paths in iteration order, or the
    exception of listing it; and the exception of [os.chdir(path)], if
    any. *)
Class Outside (W : Type) : Type := {
  exec : call → W → W * completed;
  patches_exist : W → bool;
  patches_iterdir : W → result (list string);
  change_dir : string → W → option exn
}.

(** The state of the process: the disk, the calls made so far and the
    working directory. *)
Record state (W : Type) : Type := {
  world : W;
  log : list call;
  dir : string
}.
Arguments world {W} s.
Arguments log {W} s.
Arguments dir {W} s.

Section patches.
Context {W : Type} `{!Outside W}.

Definition patch (entry : string) : list string := ["patch"; "-p1"; "-i"; entry].

(** [run(cmd)] with [check=True], in the current working directory. *)
Definition run (environ : gmap string string) (cmd : list string) (st : state W)
    : state W * result unit :=
  let c := {| cwd := dir st; argv := cmd; env := environ |} in
  let st' := {| world := (exec c (world st)).1; log := log st ++ [c]; dir := dir st |} in
  match (exec c (world st)).2 with
  | Returned returncode =>
      if (returncode =? 0)%Z then (st', Ok tt)
      else (st', Raise (CalledProcessError cmd))
  | NotStarted e => (st', Raise e)
  end.

(** [os.chdir(path)] *)
Definition chdir (path : string) (st : state W) : state W * result unit :=
  match change_dir path (world st) with
  | None => ({| world := world st; log := log st; dir := path |}, Ok tt)
  | Some e => (st, Raise e)
  end.

(** The loop over the entries of PATCHES_DIR. *)
Fixpoint apply_entries (environ : gmap string string) (entries : list string)
    (st : state W) : state W * result unit :=
  match entries with
  | [] => (st, Ok tt)
  | entry :: rest =>
      match run environ (patch entry) st with
      | (st', Ok _) => apply_entries environ rest st'
      | (st', Raise e) => (st', Raise e)
      end
  end.

(** [apply_patches(sources)]; [environ] is [os.environ].  The listing is
    taken when the loop starts, after the change of directory. *)
Definition apply_patches (environ : gmap string string) (sources : string)
    (st : state W) : state W * result unit :=
  if negb (patches_exist (world st)) then (st, Ok tt)
  else
    let cwd0 := dir st in
    match chdir sources st with
    | (st1, Raise e) => (st1, Raise e)
    | (st1, Ok _) =>
        match patches_iterdir (world st1) with
        | Raise e => (st1, Raise e)
        | Ok entries =>
            match apply_entries environ entries st1 with
            | (st2, Raise e) => (st2, Raise e)
            | (st2, Ok _) => chdir cwd0 st2
            end
        end
    end.

End patches.

End Patches.

(** ** Stripping: the choice of the tool in [strip] *)

Module Strip.

(** [installed_ndks.sort()] and [installed_ndks[-1]], on the names of the
    entries of the [ndk] directory: paths of one directory are ordered as
    their names, and strings by their code points. *)
Definition latest_ndk (installed_ndks : list string) : result string :=
  match last (merge_sort String.le installed_ndks) with
  | Some ndk => Ok ndk
  | None => Raise IndexError
  end.

Definition ndk_dir (android_home : string) : string := android_home +:+ "/ndk".

Definition strip_bin (android_home ndk : string) : string :=
  ndk_dir android_home +:+ "/" +:+ ndk
    +:+ "/toolchains/llvm/prebuilt/linux-x86_64/bin/llvm-strip".

(** What the start of [strip] asks of the outside: ANDROID_HOME as
    [Path(os.environ["ANDROID_HOME"])] spells it ([None]: the variable is
    not set), the names of the entries of a directory or the exception that
    listing it raises, and the test for a regular file. *)
Record outside : Type := {
  android_home : option string;
  iterdir : string → result (list string);
  is_file : string → bool
}.

(** The start of [strip], up to the test of the tool: the path of
    [llvm-strip] to run, or [None] when the pass returns after logging that
    the tool is missing. *)
Definition strip_tool (o : outside) : result (option string) :=
  match android_home o with
  | None => Raise (KeyError "ANDROID_HOME")
  | Some home =>
      installed_ndks ← iterdir o (ndk_dir home);
      ndk ← latest_ndk installed_ndks;
      if is_file o (strip_bin home ndk)
      then Ok (Some (strip_bin home ndk))
      else Ok None
  end.

End Strip.

(** ** The module resources: [ModuleBuilder._collect_module_files] *)

Module ModuleFiles.
Import PyStr.

(** A directory: the names of its entries that are no directories, and its
    directories, each in iteration order. *)
Inductive tree : Type :=
  | Dir (filenames : list string) (subdirs : list (string * tree)).

(** [top.walk(follow_symlinks=False)]: top-down, each directory before its
    subdirectories; symlinks to directories count as files. *)
Fixpoint walk (path : string) (t : tree) : list (string * list string * list string) :=
  match t with
  | Dir filenames subdirs =>
      (path, map fst subdirs, filenames)
        :: (fix walk_all (l : list (string * tree)) :=
              match l with
              | [] => []
              | (name, sub) :: rest => walk (path +:+ "/" +:+ name) sub ++ walk_all rest
              end) subdirs
  end.

(** [path.relative_to(base)] for paths in normal form. *)
Definition relative_to (base path : string) : result string :=
  if String.eqb path base then Ok "."
  else if startswith (base +:+ "/") path
  then Ok (slice_from (String.length (base +:+ "/")) path)
  else Raise (ValueError "is not in the subpath of").

(** [d[k] = v] on a dictionary as the list of its items in insertion
    order. *)
Fixpoint dict_set (d : list (string * string)) (k v : string) : list (string * string) :=
  match d with
  | [] => [(k, v)]
  | (k', v') :: rest =>
      if String.eqb k' k then (k', v) :: rest else (k', v') :: dict_set rest k v
  end.

(** The inner loop of [_collect_module_files]. *)
Fixpoint collect_dir (module_dir path : string) (filenames : list string)
    (files : list (string * string)) : result (list (string * string)) :=
  match filenames with
  | [] => Ok files
  | file :: rest =>
      let filepath := path +:+ "/" +:+ file in
      rel ← relative_to module_dir filepath;
      collect_dir module_dir path rest (dict_set files filepath rel)
  end.

(** The outer loop. *)
Fixpoint collect_walk (module_dir : string)
    (dirs : list (string * list string * list string))
    (files : list (string * string)) : result (list (string * string)) :=
  match dirs with
  | [] => Ok files
  | (path, _, filenames) :: rest =>
      files' ← collect_dir module_dir path filenames files;
      collect_walk module_dir rest files'
  end.

(** [self._collect_module_files()], given MODULE_DIR and its tree. *)
Definition collect_module_files (module_dir : string) (t : tree)
    : result (list (string * string)) :=
  collect_walk module_dir (walk module_dir t) [].

End ModuleFiles.

(** ** The build environment: [remove_entry] and [init]

    The disk is modelled where [init] looks at it: the build and the dist
    directory, taken as two places that do not reach each other through
    links, each holding regular files, directories and symbolic links, on
    which the process may create and remove entries. *)

Module Init.

Inductive error : Type :=
  | OSError (msg : string)
  | FileNotFoundError (msg : string)
  | FileExistsError (path : string)
  | NotADirectoryError (path : string).

(** What a path names once links are followed. *)
Inductive node : Type := RegularFile | Directory.

(** A directory entry: a file or directory, or a symbolic link.  What a
    link resolves to, if anything, may depend on the entries that its
    directory still holds (a link to one of them, or into one of them), so
    it is given as a function of their names. *)
Inductive kind : Type :=
  | Node (n : node)
  | Symlink (resolve : list string → option node).

(** The entries of a directory, in the order of its listing. *)
Definition directory : Type := list (string * kind).

Definition names (d : directory) : list string := d.*1.

Fixpoint entry (name : string) (d : directory) : option kind :=
  match d with
  | [] => None
  | (name', k) :: rest => if String.eqb name' name then Some k else entry name rest
  end.

(** [path.exists()], [path.is_symlink()] and [path.is_file()] for an entry
    of [d]; the first and the last follow links. *)
Definition exists_ (d : directory) (k : kind) : bool :=
  match k with
  | Node _ => true
  | Symlink resolve => bool_decide (is_Some (resolve (names d)))
  end.

Definition is_symlink (k : kind) : bool :=
  match k with
  | Symlink _ => true
  | Node _ => false
  end.

Definition is_file (d : directory) (k : kind) : bool :=
  match k with
  | Node RegularFile => true
  | Node Directory => false
  | Symlink resolve =>
      match resolve (names d) with
      | Some RegularFile => true
      | _ => false
      end
  end.

(** [path.unlink()] and [rmtree(path)] on the directory that holds the
    entry. *)
Definition unlink (name : string) (d : directory) : directory :=
  filter (λ e, e.1 ≠ name) d.

Definition rmtree (name : string) (d : directory) : directory :=
  filter (λ e, e.1 ≠ name) d.

(** [remove_entry(path)], for the entry [name] of the directory [d]. *)
Definition remove_entry (name : string) (d : directory) : directory :=
  match entry name d with
  | None => d
  | Some k =>
      if negb (exists_ d k) then d
      else if is_symlink k || is_file d k then unlink name d
      else rmtree name d
  end.

(** [entry.iterdir()]: the listing is taken when the loop starts. *)
Definition iterdir (d : directory) : list string := names d.

(** [for e in entry.iterdir(): remove_entry(e)] *)
Definition clear_dir (d : directory) : directory :=
  foldl (λ acc name, remove_entry name acc) d (iterdir d).

(** What is at the path of the build or of the dist directory: nothing, a
    link whose target is missing, something that is no directory, or a
    directory (or a link to one) with its entries. *)
Inductive place : Type :=
  | Missing
  | DanglingLink
  | NotDirectory
  | Dir (entries : directory).

Definition place_exists (p : place) : bool :=
  match p with
  | Missing | DanglingLink => false
  | NotDirectory | Dir _ => true
  end.

(** [entry.mkdir(parents=True)]; the parent, the project root, exists. *)
Definition mkdir (path : string) (p : place) : place + error :=
  match p with
  | Missing => inl (Dir [])
  | _ => inr (FileExistsError path)
  end.

(** One round of the loop over [(BUILD_DIR, DIST_DIR)]. *)
Definition init_entry (clear : bool) (path : string) (p : place) : place + error :=
  if negb (place_exists p) then mkdir path p
  else if clear then
    match p with
    | Dir d => inl (Dir (clear_dir d))
    | _ => inr (NotADirectoryError path)
    end
  else inl p.

Record world : Type := {
  android_home : option string;   (* os.environ.get("ANDROID_HOME") *)
  module_dir : bool;              (* MODULE_DIR.exists() *)
  build_config_file : bool;       (* BUILD_CONFIG_FILE.exists() *)
  build_dir : place;
  dist_dir : place
}.

Definition set_build_dir (p : place) (w : world) : world :=
  {| android_home := android_home w; module_dir := module_dir w;
     build_config_file := build_config_file w;
     build_dir := p; dist_dir := dist_dir w |}.

Definition set_dist_dir (p : place) (w : world) : world :=
  {| android_home := android_home w; module_dir := module_dir w;
     build_config_file := build_config_file w;
     build_dir := build_dir w; dist_dir := p |}.

(** [init(clear=clear)], given the project root: the disk it leaves, and
    the exception it raises, if any. *)
Definition init (project_root : string) (clear : bool) (w : world)
    : world * option error :=
  match android_home w with
  | None => (w, Some (OSError "The ANDROID_HOME environment variable is required."))
  | Some _ =>
      if negb (module_dir w)
      then (w, Some (FileNotFoundError
                       ("Module directory does not exist: "
                          +:+ project_root +:+ "/module")))
      else if negb (build_config_file w)
      then (w, Some (FileNotFoundError
                       ("Build configuration file does not exist: "
                          +:+ project_root +:+ "/build.toml")))
      else
        match init_entry clear (project_root +:+ "/build") (build_dir w) with
        | inr e => (w, Some e)
        | inl b =>
            match init_entry clear (project_root +:+ "/dist") (dist_dir w) with
            | inr e => (set_build_dir b w, Some e)
            | inl d => (set_dist_dir d (set_build_dir b w), None)
            end
        end
  end.

End Init.

(** * Specifications and examples *)

(** ** Packaging *)

Section packaging_spec.
Import Arch Packaging.

(** The names of the archives of a list of hosts. *)
Definition archive_names (b : builder) (todo : list string) : list string :=
  (λ host, zip_name b (arch_of host)) <$> todo.

(** A module resource can be written: the descriptor can be read as text,
    any other file can be read by [ZipFile.write]. *)
Definition module_file_ok (d : disk) (f : string * string) : Prop :=
  if String.eqb (basename f.1) "module.prop"
  then ∃ text, read_text d f.1 = Ok text
  else zip_write d f.1 = None.

(** Every module resource and every extra file can be written, and the
    archive of every configured host can be created. *)
Definition packable (b : builder) (d : disk) : Prop :=
  Forall (module_file_ok d) (module_files b)
  ∧ Forall (λ entry, zip_write d entry = None) (include_files b)
  ∧ Forall (λ host, zip_open d (zip_name b (arch_of host)) = None) (hosts b).

(** The member written for a module resource: the rewritten descriptor
    under its relative path, or a copy of the file under its relative
    path. *)
Definition module_member (b : builder) (d : disk) (arch : string)
    (f : string * string) (m : member) : Prop :=
  if String.eqb (basename f.1) "module.prop"
  then ∃ text, read_text d f.1 = Ok text
         ∧ m = WriteText f.2 (Props.process_module_prop (python_ver b) text arch)
  else m = WriteFile f.1 f.2.

(** The members of a complete archive: the tarball of the prefix, the
    module resources, the extra files. *)
Definition complete_archive (b : builder) (d : disk) (arch : string)
    (python_buf : list byte) (members : list member) : Prop :=
  ∃ module_members,
    Forall2 (module_member b d arch) (module_files b) module_members
    ∧ members
      = WriteBytes ("python-" +:+ python_ver b +:+ "-" +:+ arch +:+ ".tar.xz") python_buf
          :: module_members ++ map (λ entry, WriteFile entry entry) (include_files b).

(** A builder with the two 32-bit ARM hosts, and a disk on which every
    prefix exists. *)
Definition arm_builder : builder :=
  {| sources := "build/Python-3.13.0"; python_ver := "3.13.0";
     hosts := ["armv7a-linux-androideabi"; "arm-linux-androideabi"];
     include_files := ["LICENSE"]; module_name := "py2droid"; module_ver := "1.0";
     module_files := [("module/module.prop", "module.prop");
                      ("module/customize.sh", "customize.sh")] |}.

Definition arm64_builder : builder :=
  {| sources := "build/Python-3.13.0"; python_ver := "3.13.0";
     hosts := ["aarch64-linux-android"; "x86_64-linux-android"];
     include_files := ["LICENSE"]; module_name := "py2droid"; module_ver := "1.0";
     module_files := [("module/module.prop", "module.prop");
                      ("module/customize.sh", "customize.sh")] |}.

Definition full_disk : disk :=
  {| tar_xz := λ _, Ok [];
     read_text := λ _, Ok ("name=py2droid" +:+ PyStr.nl +:+ "version=1.0");
     zip_write := λ _, None;
     zip_open := λ _, None |}.

End packaging_spec.

(** ** The module descriptor *)

Section props_spec.
Import PyStr Props.

(** The text before the first separator of a line and the text after it,
    both stripped: the key and the value of the line. *)
Definition key_value (sep line : string) : option (string * string) :=
  match partition sep line with
  | Some (k, v) => Some (strip k, strip v)
  | None => None
  end.

(** The lines of a property file whose key is one of [keys], as pairs of key
    and value, in the order of the file. *)
Definition matching_lines (keys : list string) (sep text : string) : list (string * string) :=
  filter (λ kv, kv.1 ∈ keys) (omap (key_value sep) (file_lines text)).

(** The line that [_process_module_prop] writes for a line of the
    descriptor. *)
Definition rewrite_line (python_ver arch line : string) : string :=
  if startswith "description" line then description_line python_ver arch
  else strip line.

(** A line without its terminating LF. *)
Fixpoint chomp (line : string) : string :=
  match line with
  | EmptyString => EmptyString
  | String c rest =>
      match rest with
      | EmptyString => if Ascii.eqb c LF then EmptyString else line
      | String _ _ => String c (chomp rest)
      end
  end.

(** A line passed through verbatim, as the specification words it. *)
Definition verbatim_line (python_ver arch line : string) : string :=
  if startswith "description" line then description_line python_ver arch
  else chomp line.

Fixpoint all_space (s : string) : bool :=
  match s with
  | EmptyString => true
  | String c s' => is_space c && all_space s'
  end.

Definition starts_with_space (s : string) : bool :=
  match s with
  | EmptyString => false
  | String c _ => is_space c
  end.

Fixpoint ends_with_space (s : string) : bool :=
  match s with
  | EmptyString => false
  | String c EmptyString => is_space c
  | String _ s' => ends_with_space s'
  end.

(** The descriptor of the example of the specification. *)
Definition example_descriptor : string :=
  "name=foo" +:+ nl +:+ "version=1.0" +:+ nl +:+ "description=old" +:+ nl.

(** A descriptor whose first line is indented. *)
Definition indented_descriptor : string :=
  "  name=foo" +:+ nl +:+ "description=old" +:+ nl.

End props_spec.

(** ** Shebang rewriting *)

Section shebang_spec.
Import Shebang.

(** The bytes the specification allows in a text file: tab, newline,
    form feed, carriage return, escape, and 0x20 to 0xFF without 0x7F. *)
Definition spec_text_byte (n : N) : Prop :=
  n ∈ [9; 10; 12; 13; 27]%N ∨ (32 ≤ n ≤ 255 ∧ n ≠ 127)%N.

(** The bytes [is_binary] allows: bell and backspace besides. *)
Definition text_byte (n : N) : Prop :=
  n ∈ [7; 8]%N ∨ spec_text_byte n.

(** What the inner loop of [replace_shebangs] leaves in a file that held
    [bytes] and that the process may read and write. *)
Fixpoint rewrite_bytes (pats : list (pattern * string)) (data : list byte) : list byte :=
  match pats with
  | [] => data
  | (p, replacement) :: rest =>
      if is_binary (take 1024 data) then data
      else
        match utf8_decode data with
        | None => data
        | Some content =>
            match re_match p content with
            | None => rewrite_bytes rest data
            | Some e => utf8_encode (codepoints replacement ++ drop e content)
            end
        end
  end.

(** What one visit of the inner loop leaves of a file. *)
Definition visit (pats : list (pattern * string)) (f : file) : file :=
  if readable f && writable f
  then {| bytes := rewrite_bytes pats (bytes f);
          readable := readable f; writable := writable f |}
  else f.

Definition visit_file (pats : list (pattern * string)) (i : N) (st : gmap N file)
    : gmap N file :=
  match st !! i with
  | Some f => <[i := visit pats f]> st
  | None => st
  end.

(** The paths the pass works on, host after host. *)
Definition all_bin_files (nm : gmap string N) (ds : string → result (list string))
    (sources : string) (hosts : list string) : list string :=
  hosts ≫= λ host,
    match ds (sources +:+ "/cross-build/" +:+ host +:+ "/prefix/bin") with
    | Ok entries =>
        filter (λ path, is_Some (nm !! path))
          (map (λ name, (sources +:+ "/cross-build/" +:+ host +:+ "/prefix/bin")
                          +:+ "/" +:+ name) entries)
    | Raise _ => []
    end.

(** The hosts that the pass comes to: those before the first whose [bin]
    directory cannot be listed. *)
Fixpoint reached (ds : string → result (list string)) (sources : string)
    (hosts : list string) : list string :=
  match hosts with
  | [] => []
  | host :: rest =>
      match ds (sources +:+ "/cross-build/" +:+ host +:+ "/prefix/bin") with
      | Ok _ => host :: reached ds sources rest
      | Raise _ => []
      end
  end.

(** How many times the pass comes to the file [i]: once for each listed
    path that leads to it. *)
Definition times_visited (nm : gmap string N) (ds : string → result (list string))
    (sources : string) (hosts : list string) (i : N) : nat :=
  length (filter (λ path, nm !! path = Some i) (all_bin_files nm ds sources hosts)).

(** What reading a path gives. *)
Definition read (d : disk) (path : string) : option (list byte) :=
  i ← names d !! path; bytes <$> store d !! i.

(** A script installed by the build, in the [bin] directory of one host. *)
Definition example_sources : string := "build/Python-3.13.0".

Definition pip_path : string :=
  bindir example_sources "aarch64-linux-android" +:+ "/pip3".

Definition pip_script : list byte :=
  String.list_byte_of_string
    ("#!/usr/bin/python3.13" +:+ PyStr.nl +:+ "import sys" +:+ PyStr.nl).

Definition script (data : list byte) : file :=
  {| bytes := data; readable := true; writable := true |}.

Definition example_disk : disk :=
  {| names := {[ pip_path := 1%N ]};
     store := {[ 1%N := script pip_script ]};
     dirs := λ dir,
       if String.eqb dir (bindir example_sources "aarch64-linux-android")
       then Ok ["pip3"] else Raise (FileNotFoundError dir) |}.

End shebang_spec.

(** ** Source acquisition *)

Section sources_spec.
Import PyStr Sources.

Fixpoint all_digits (s : string) : bool :=
  match s with
  | EmptyString => true
  | String c s' => is_digit c && all_digits s'
  end.

(** A run of one or more digits. *)
Definition digits (s : string) : Prop := s ≠ "" ∧ all_digits s = true.

(** A text of the shape digits, dot, digits, dot, digits. *)
Definition version_shaped (v : string) : Prop :=
  ∃ a b c, v = a +:+ "." +:+ b +:+ "." +:+ c ∧ digits a ∧ digits b ∧ digits c.

Definition starts_with_digit (s : string) : bool :=
  match s with
  | EmptyString => false
  | String c _ => is_digit c
  end.

(** The first match of the pattern in [s], searching from the left. *)
Fixpoint first_match (s : string) : option string :=
  match match_version s with
  | Some rest => Some (slice_to (String.length s - String.length rest) s)
  | None =>
      match s with
      | EmptyString => None
      | String _ s' => first_match s'
      end
  end.

Definition cached_outside : outside :=
  {| build_dir := [ {| name := "Python-3.12.1.tgz.part"; is_dir := false |};
                    {| name := "Python-3.12.1"; is_dir := true |} ];
     curl_ok := true;
     after_extract := None |}.

Definition cached_url : string :=
  "https://www.python.org/ftp/python/3.12.1/Python-3.12.1.tgz".

End sources_spec.

(** ** The build driver *)

Section driver_spec.
Import Driver.
Context {W : Type} `{!Outside W}.
Context (dist_dir sources : string) (conf : python_conf) (environ : gmap string string).

Definition host_build (host : string) : string := sources +:+ "/cross-build/" +:+ host.

(** The calls of the driver, with the environment each is given. *)
Definition configure_build_call : call :=
  {| argv := [sources +:+ "/Android/android.py"; "configure-build"; "--"]
             ++ configure_args conf;
     env := configure_env conf ∪ environ |}.
Definition make_build_call : call :=
  {| argv := [sources +:+ "/Android/android.py"; "make-build"]; env := environ |}.
Definition configure_host_call (host : string) : call :=
  {| argv := [sources +:+ "/Android/android.py"; "configure-host"; host; "--"]
             ++ configure_args conf;
     env := configure_env conf ∪ environ |}.
Definition make_host_call (host : string) : call :=
  {| argv := [sources +:+ "/Android/android.py"; "make-host"; host]; env := environ |}.
Definition package_call (host : string) : call :=
  {| argv := [sources +:+ "/Android/android.py"; "package"; host]; env := environ |}.

(** A command exits with status zero and leaves the disk [w']. *)
Definition succeeds (c : call) (w w' : W) : Prop := exec c w = (w', Returned 0%Z).

(** A command fails and leaves the disk [w']: it exits with another status,
    which [run] turns into CalledProcessError, or it cannot be started. *)
Definition fails (c : call) (w w' : W) (e : exn) : Prop :=
  (∃ returncode, exec c w = (w', Returned returncode) ∧ returncode ≠ 0%Z
     ∧ e = CalledProcessError (argv c))
  ∨ exec c w = (w', NotStarted e).

(** The stage of one host as the specification words it: the disk before,
    the calls made, the disk after and the outcome. *)
Inductive host_stage (host : string) : W → list call → W → result unit → Prop :=
  | host_skip w :
      path_exists (host_build host) w = true →
      host_stage host w [] w (Ok tt)
  | host_configure_fails w w1 e :
      path_exists (host_build host) w = false →
      fails (configure_host_call host) w w1 e →
      host_stage host w [configure_host_call host] w1 (Raise e)
  | host_make_fails w w1 w2 e :
      path_exists (host_build host) w = false →
      succeeds (configure_host_call host) w w1 →
      fails (make_host_call host) w1 w2 e →
      host_stage host w [configure_host_call host; make_host_call host] w2 (Raise e)
  | host_built w w1 w2 :
      path_exists (host_build host) w = false →
      package conf = false →
      succeeds (configure_host_call host) w w1 →
      succeeds (make_host_call host) w1 w2 →
      host_stage host w [configure_host_call host; make_host_call host] w2 (Ok tt)
  | host_package_fails w w1 w2 w3 e :
      path_exists (host_build host) w = false →
      package conf = true →
      succeeds (configure_host_call host) w w1 →
      succeeds (make_host_call host) w1 w2 →
      fails (package_call host) w2 w3 e →
      host_stage host w
        [configure_host_call host; make_host_call host; package_call host] w3 (Raise e)
  | host_packaged w w1 w2 w3 w4 :
      path_exists (host_build host) w = false →
      package conf = true →
      succeeds (configure_host_call host) w w1 →
      succeeds (make_host_call host) w1 w2 →
      succeeds (package_call host) w2 w3 →
      move_dist dist_dir (host_build host) w3 = (w4, None) →
      host_stage host w
        [configure_host_call host; make_host_call host; package_call host] w4 (Ok tt)
  | host_move_fails w w1 w2 w3 w4 e :
      path_exists (host_build host) w = false →
      package conf = true →
      succeeds (configure_host_call host) w w1 →
      succeeds (make_host_call host) w1 w2 →
      succeeds (package_call host) w2 w3 →
      move_dist dist_dir (host_build host) w3 = (w4, Some e) →
      host_stage host w
        [configure_host_call host; make_host_call host; package_call host] w4 (Raise e).

(** The per-host stage: the hosts in order, each on the disk that the one
    before left, up to the first whose stage raises. *)
Inductive per_host : list string → W → list call → W → result unit → Prop :=
  | per_host_done w :
      per_host [] w [] w (Ok tt)
  | per_host_next host rest w calls1 w1 calls w' r :
      host_stage host w calls1 w1 (Ok tt) →
      per_host rest w1 calls w' r →
      per_host (host :: rest) w (calls1 ++ calls) w' r
  | per_host_stop host rest w calls1 w1 e :
      host_stage host w calls1 w1 (Raise e) →
      per_host (host :: rest) w calls1 w1 (Raise e).

(** The stage before the hosts: configure-build and make-build, unless
    cross-build/build exists. *)
Inductive shared_stage : W → list call → W → result unit → Prop :=
  | shared_present w :
      path_exists (sources +:+ "/cross-build/build") w = true →
      shared_stage w [] w (Ok tt)
  | shared_configure_fails w w1 e :
      path_exists (sources +:+ "/cross-build/build") w = false →
      fails configure_build_call w w1 e →
      shared_stage w [configure_build_call] w1 (Raise e)
  | shared_make_fails w w1 w2 e :
      path_exists (sources +:+ "/cross-build/build") w = false →
      succeeds configure_build_call w w1 →
      fails make_build_call w1 w2 e →
      shared_stage w [configure_build_call; make_build_call] w2 (Raise e)
  | shared_built w w1 w2 :
      path_exists (sources +:+ "/cross-build/build") w = false →
      succeeds configure_build_call w w1 →
      succeeds make_build_call w1 w2 →
      shared_stage w [configure_build_call; make_build_call] w2 (Ok tt).

(** The calls of the driver: the two of the shared stage, and for a
    configured host configure-host, make-host and, when packaging is
    enabled, package. *)
Definition driver_call (c : call) : Prop :=
  c = configure_build_call
  ∨ c = make_build_call
  ∨ ∃ host, host ∈ hosts conf
      ∧ (c = configure_host_call host
         ∨ c = make_host_call host
         ∨ (package conf = true ∧ c = package_call host)).

(** How a run of the driver that raises [e] ended, [c] being the last call
    and [w'] the disk left: the call exited with a status that is not zero,
    or could not be started, or it was the package command of a host, it
    exited with status zero, and moving the packages raised. *)
Definition ended_by (c : call) (w' : W) (e : exn) : Prop :=
  (∃ w, fails c w w' e)
  ∨ ∃ host w w3, host ∈ hosts conf ∧ package conf = true
      ∧ c = package_call host
      ∧ succeeds c w w3
      ∧ move_dist dist_dir (host_build host) w3 = (w', Some e).

End driver_spec.

(** A disk as the set of the paths that exist, on which every command
    succeeds; configure-build and configure-host create the directory of
    their build, and no host has packages to move. *)
Definition sample_exec (c : Driver.call) (w : gset string) : gset string * completed :=
  match Driver.argv c with
  | _ :: "configure-build" :: _ => ({["src/cross-build/build"]} ∪ w, Returned 0)
  | _ :: "configure-host" :: host :: _ =>
      ({["src/cross-build/" +:+ host]} ∪ w, Returned 0)
  | _ => (w, Returned 0)
  end.

Definition sample_outside : Driver.Outside (gset string) :=
  {| Driver.exec := sample_exec;
     Driver.path_exists := λ path w, bool_decide (path ∈ w);
     Driver.iterdir := λ _ _, Ok [];
     Driver.unlink := λ _ w, Ok w;
     Driver.rename := λ _ _ w, Ok w |}.

Definition sample_conf : Driver.python_conf :=
  {| Driver.hosts := ["aarch64-linux-android"; "x86_64-linux-android"];
     Driver.configure_args := ["--with-pydebug"];
     Driver.configure_env := ∅;
     Driver.package := true |}.

Definition sample_disk : gset string :=
  {["src/cross-build/build"; "src/cross-build/aarch64-linux-android"]}.

(** A disk on which everything is built. *)
Definition built_disk : gset string :=
  {["src/cross-build/build"; "src/cross-build/aarch64-linux-android";
    "src/cross-build/x86_64-linux-android"]}.

(** An outside on which make-host exits with status 2. *)
Definition failing_exec (c : Driver.call) (w : gset string) : gset string * completed :=
  match Driver.argv c with
  | _ :: "make-host" :: _ => (w, Returned 2)
  | _ => sample_exec c w
  end.

Definition failing_outside : Driver.Outside (gset string) :=
  {| Driver.exec := failing_exec;
     Driver.path_exists := λ path w, bool_decide (path ∈ w);
     Driver.iterdir := λ _ _, Ok [];
     Driver.unlink := λ _ w, Ok w;
     Driver.rename := λ _ _ w, Ok w |}.

(** An outside on which the package command exits with status zero and
    leaves no dist directory. *)
Definition unpackaged_outside : Driver.Outside (gset string) :=
  {| Driver.exec := sample_exec;
     Driver.path_exists := λ path w, bool_decide (path ∈ w);
     Driver.iterdir := λ path _, Raise (FileNotFoundError path);
     Driver.unlink := λ _ w, Ok w;
     Driver.rename := λ _ _ w, Ok w |}.

(** ** Shebang rewriting, further *)

Section shebang_spec_more.
Import Shebang.

(** A Unicode scalar value: a code point that is no surrogate. *)
Definition scalar (c : N) : Prop := (c < 55296 ∨ 57344 ≤ c ≤ 1114111)%N.

(** A shell script installed by the build beside [pip3]. *)
Definition config_path : string :=
  bindir example_sources "aarch64-linux-android" +:+ "/python3-config".

Definition config_script : list byte :=
  String.list_byte_of_string ("#!/bin/sh" +:+ PyStr.nl +:+ "exit 0" +:+ PyStr.nl).

Definition scripts_disk : disk :=
  {| names := {[ pip_path := 1%N; config_path := 2%N ]};
     store := {[ 1%N := script pip_script; 2%N := script config_script ]};
     dirs := λ dir,
       if String.eqb dir (bindir example_sources "aarch64-linux-android")
       then Ok ["pip3"; "python3-config"] else Raise (FileNotFoundError dir) |}.

(** A [bin] directory in which [pip] is a link to [pip3], and [tool] a link
    to a script of the [lib] directory. *)
Definition pip_link : string :=
  bindir example_sources "aarch64-linux-android" +:+ "/pip".

Definition tool_link : string :=
  bindir example_sources "aarch64-linux-android" +:+ "/tool".

Definition tool_path : string :=
  example_sources +:+ "/cross-build/aarch64-linux-android/prefix/lib/tool.sh".

Definition links_disk : disk :=
  {| names := {[ pip_path := 1%N; pip_link := 1%N; tool_link := 2%N; tool_path := 2%N ]};
     store := {[ 1%N := script pip_script; 2%N := script config_script ]};
     dirs := λ dir,
       if String.eqb dir (bindir example_sources "aarch64-linux-android")
       then Ok ["pip"; "pip3"; "tool"] else Raise (FileNotFoundError dir) |}.

End shebang_spec_more.

(** ** Packaging, further *)

Section packaging_spec_more.
Import Arch Packaging.

(** A disk on which the prefix of x86_64-linux-android is missing. *)
Definition partial_disk : disk :=
  {| tar_xz := λ prefix,
       if String.eqb prefix (prefix_path arm64_builder "x86_64-linux-android")
       then Raise (FileNotFoundError prefix) else Ok [];
     read_text := λ _, Ok ("name=py2droid" +:+ PyStr.nl +:+ "version=1.0");
     zip_write := λ _, None;
     zip_open := λ _, None |}.

(** A disk on which the archive of a prefix holds the path of the prefix. *)
Definition labelled_disk : disk :=
  {| tar_xz := λ prefix, Ok (String.list_byte_of_string prefix);
     read_text := λ _, Ok ("name=py2droid" +:+ PyStr.nl +:+ "version=1.0");
     zip_write := λ _, None;
     zip_open := λ _, None |}.

(** A disk on which the extra file LICENSE is missing. *)
Definition unlicensed_disk : disk :=
  {| tar_xz := λ _, Ok [];
     read_text := λ _, Ok ("name=py2droid" +:+ PyStr.nl +:+ "version=1.0");
     zip_write := λ path,
       if String.eqb path "LICENSE" then Some (FileNotFoundError path) else None;
     zip_open := λ _, None |}.

End packaging_spec_more.

(** ** Configuration, further *)

Section config_spec.
Import Config.

(** The fields of the two dataclasses. *)
Definition python_fields : gset string :=
  list_to_set
    [ "sources_url"; "apply_patches"; "hosts"; "configure_args"; "configure_env";
      "package" ].

Definition module_fields : gset string :=
  list_to_set
    [ "include_files"; "debloat"; "debloat_patterns"; "replace_shebangs";
      "shebang_mapping"; "strip"; "strip_args" ].

(** A document with the two tables and dummy values. *)
Definition sample_python : gmap string toml :=
  list_to_map
    [ ("sources_url", TString "https://www.python.org/ftp/python/3.13.0/Python-3.13.0.tgz");
      ("apply_patches", TBool true);
      ("hosts", TArray [TString "aarch64-linux-android"]);
      ("configure_args", TArray []);
      ("configure_env", TTable ∅);
      ("package", TBool false) ].



End config_spec.

(** ** The build driver, further *)



(** ** Patches, stripping and module resources *)

Section patches_spec.
Import Patches.
Context {W : Type} `{!Outside W}.

(** The call that applies one patch from the source directory. *)
Definition patch_call (environ : gmap string string) (sources entry : string) : call :=
  {| cwd := sources; argv := ["patch"; "-p1"; "-i"; entry]; env := environ |}.

(** The disk after the calls, each made on the disk that the one before
    left, when every one of them exits with status zero. *)
Fixpoint after_all (calls : list call) (w : W) : option W :=
  match calls with
  | [] => Some w
  | c :: rest =>
      match exec c w with
      | (w', Returned 0%Z) => after_all rest w'
      | _ => None
      end
  end.

End patches_spec.

(** Two patches, the second of which does not apply. *)
Definition sample_patches : Patches.Outside (list string) :=
  {| Patches.exec := λ c applied,
       match Patches.argv c with
       | [_; _; _; "/repo/patches/0002-fix.patch"] => (applied, Returned 1)
       | [_; _; _; entry] => (applied ++ [entry], Returned 0)
       | _ => (applied, NotStarted (FileNotFoundError "patch"))
       end;
     Patches.patches_exist := λ _, true;
     Patches.patches_iterdir := λ _,
       Ok ["/repo/patches/0001-add.patch"; "/repo/patches/0002-fix.patch";
           "/repo/patches/0003-more.patch"];
     Patches.change_dir := λ _ _, None |}.

Section module_files_spec.
Import ModuleFiles.

(** A path at or below [base]: [base] itself, or [base], a slash and more. *)
Definition below (base path : string) : Prop :=
  path = base ∨ ∃ s, path = base +:+ "/" +:+ s.

(** Every item of a dictionary of module files maps a path to the path
    relative to [base]. *)
Definition relative_items (base : string) (files : list (string * string)) : Prop :=
  ∀ path rel, (path, rel) ∈ files → path = base +:+ "/" +:+ rel.

(** The module directory of the repository, in small. *)
Definition sample_tree : tree :=
  Dir ["module.prop"; "customize.sh"]
    [ ("META-INF", Dir [] [("com", Dir ["update-binary"] [])]);
      ("system", Dir ["placeholder"] []) ].

End module_files_spec.

Section init_spec.
Import Init.

(** What [init] leaves at a place that it accepts. *)
Definition prepared (clear : bool) (p : place) : place :=
  match p with
  | Dir d => if clear then Dir (clear_dir d) else Dir d
  | Missing => Dir []
  | _ => p
  end.

(** The places at which [init] raises: a dangling link; with [clear],
    anything there that is no directory. *)
Definition refused (clear : bool) (p : place) : bool :=
  match p with
  | DanglingLink => true
  | NotDirectory => clear
  | _ => false
  end.

(** A link to something outside the directory, and a link to the entry
    [name] of its own directory. *)
Definition outside_link (target : option node) : kind := Symlink (λ _, target).

Definition sibling_link (name : string) (target : node) : kind :=
  Symlink (λ present, if bool_decide (name ∈ present) then Some target else None).

(** A build directory: the tarball, the sources, a link to the sources, a
    link to the tarball, and a link whose target is gone. *)
Definition sample_build_dir : directory :=
  [ ("latest.tar.xz", sibling_link "Python-3.13.1.tar.xz" RegularFile);
    ("Python-3.13.1.tar.xz", Node RegularFile);
    ("Python-3.13.1", Node Directory);
    ("current", sibling_link "Python-3.13.1" Directory);
    ("old", outside_link None) ].

Definition sample_world : world :=
  {| android_home := Some "/opt/android-sdk";
     module_dir := true;
     build_config_file := true;
     build_dir := Dir sample_build_dir;
     dist_dir := Missing |}.

End init_spec.

(** * Properties *)

(** ** Facts about strings *)

Section string_facts.

Lemma str_app_cons (c : ascii) (s t : string) : String c s +:+ t = String c (s +:+ t).
Proof. reflexivity. Qed.

Lemma str_app_empty_l (t : string) : "" +:+ t = t.
Proof. reflexivity. Qed.

Lemma str_app_length (s t : string) :
  String.length (s +:+ t) = String.length s + String.length t.
Proof. induction s as [|c s IH]; simpl; [done | by rewrite IH]. Qed.

Lemma str_app_assoc (s t u : string) : (s +:+ t) +:+ u = s +:+ t +:+ u.
Proof. induction s as [|c s IH]; [done | by rewrite !str_app_cons, IH]. Qed.

Lemma str_app_empty_r (s : string) : s +:+ "" = s.
Proof. induction s as [|c s IH]; [done | by rewrite str_app_cons, IH]. Qed.

Lemma str_app_inj_r (t s1 s2 : string) : s1 +:+ t = s2 +:+ t → s1 = s2.
Proof.
  revert s2. induction s1 as [|c s1 IH]; intros [|c' s2] H.
  - done.
  - apply (f_equal String.length) in H. rewrite !str_app_length in H. simpl in H. lia.
  - apply (f_equal String.length) in H. rewrite !str_app_length in H. simpl in H. lia.
  - rewrite !str_app_cons in H. injection H as -> H. f_equal. by apply IH.
Qed.

End string_facts.

(** ** Architecture codes *)

Section arch.
Import Arch.

(** C9: the mapping from host triples to architecture codes has exactly the
    five entries aarch64-linux-android to arm64, armv7a-linux-androideabi to
    arm, arm-linux-androideabi to arm, x86_64-linux-android to x64 and
    i686-linux-android to x86; the code computed for a host is its entry,
    and the literal string unknown for every host that has none. *)
Theorem arch_mapping_five_entries (host : string) :
  size arch_mapping = 5
  ∧ arch_mapping !! "aarch64-linux-android" = Some "arm64"
  ∧ arch_mapping !! "armv7a-linux-androideabi" = Some "arm"
  ∧ arch_mapping !! "arm-linux-androideabi" = Some "arm"
  ∧ arch_mapping !! "x86_64-linux-android" = Some "x64"
  ∧ arch_mapping !! "i686-linux-android" = Some "x86"
  ∧ (host ∉ [ "aarch64-linux-android"; "armv7a-linux-androideabi";
              "arm-linux-androideabi"; "x86_64-linux-android";
              "i686-linux-android" ]
     ↔ arch_mapping !! host = None)
  ∧ (arch_mapping !! host = None → arch_of host = "unknown")
  ∧ (∀ arch, arch_mapping !! host = Some arch → arch_of host = arch).
Proof.
  split_and!; try (vm_compute; reflexivity).
  - unfold arch_mapping. simpl. rewrite !lookup_insert_None, lookup_empty.
    rewrite !not_elem_of_cons.
    split; intros; destruct_and?; split_and?; (done || apply not_elem_of_nil).
  - unfold arch_of. by intros ->.
  - unfold arch_of. by intros arch ->.
Qed.

End arch.

(** ** Packaging *)

Section packaging.
Import Arch Packaging.

Lemma zip_name_inj (b : builder) : Inj (=) (=) (zip_name b).
Proof.
  intros a1 a2 H. unfold zip_name in H.
  do 4 apply (inj (String.app _)) in H.
  by apply str_app_inj_r in H.
Qed.

Lemma write_module_file_ok (b : builder) (d : disk) (arch : string)
    (f : string * string) :
  module_file_ok d f →
  ∃ m, write_module_file b d arch f = Ok m ∧ module_member b d arch f m.
Proof.
  unfold module_file_ok, module_member, write_module_file. destruct f as [path rel].
  simpl. destruct (String.eqb (basename path) "module.prop").
  - intros [text Htext]. rewrite Htext. simpl. eexists. split; [done |]. by exists text.
  - intros ->. by eexists.
Qed.

Lemma write_module_file_member (b : builder) (d : disk) (arch : string)
    (f : string * string) (m : member) :
  write_module_file b d arch f = Ok m → module_member b d arch f m.
Proof.
  unfold module_member, write_module_file. destruct f as [path rel]. simpl.
  destruct (String.eqb (basename path) "module.prop").
  - destruct (read_text d path) as [text|e]; simpl; [|done].
    intros [= <-]. by exists text.
  - destruct (zip_write d path); [done |]. by intros [= <-].
Qed.

Lemma write_all_Ok (ms : list member) (rest : list (result member)) :
  write_all (map Ok ms ++ rest) = (ms ++ (write_all rest).1, (write_all rest).2).
Proof.
  induction ms as [|m ms IH]; simpl; [by destruct (write_all rest) |].
  rewrite IH. done.
Qed.

Lemma write_all_None (writes : list (result member)) (ms : list member) :
  write_all writes = (ms, None) → writes = map Ok ms.
Proof.
  revert ms. induction writes as [|[m|e] writes IH]; intros ms; simpl.
  - by intros [= <-].
  - destruct (write_all writes) as [ms' e'] eqn:Hrest. intros [= <- ->].
    by rewrite (IH ms' eq_refl).
  - done.
Qed.

Lemma module_files_written (b : builder) (d : disk) (arch : string)
    (files : list (string * string)) :
  Forall (module_file_ok d) files →
  ∃ module_members,
    Forall2 (module_member b d arch) files module_members
    ∧ map (write_module_file b d arch) files = map Ok module_members.
Proof.
  induction 1 as [|f files Hf _ (mm & Hmm & Heq)]; [by exists [] |].
  destruct (write_module_file_ok b d arch f Hf) as (m & Hm & Hmember).
  exists (m :: mm). split; [by constructor |]. simpl. by rewrite Hm, Heq.
Qed.

Lemma entries_written (d : disk) (entries : list string) :
  Forall (λ entry, zip_write d entry = None) entries →
  map (write_entry d) entries = map Ok (map (λ entry, WriteFile entry entry) entries).
Proof.
  induction 1 as [|entry entries Hentry _ IH]; [done |].
  rewrite !map_cons, <- IH. unfold write_entry at 1. by rewrite Hentry.
Qed.

Lemma zip_members_packable (b : builder) (d : disk) (arch : string)
    (python_buf : list byte) :
  Forall (module_file_ok d) (module_files b) →
  Forall (λ entry, zip_write d entry = None) (include_files b) →
  ∃ members, complete_archive b d arch python_buf members
    ∧ zip_members b d arch python_buf = (members, None).
Proof.
  intros Hfiles Hentries.
  destruct (module_files_written b d arch _ Hfiles) as (mm & Hmm & Heq).
  eexists. split; [by exists mm |].
  unfold zip_members. rewrite Heq, (entries_written d _ Hentries), <- map_app.
  change (Ok (WriteBytes (tar_name b arch) python_buf) :: map Ok ?l)
    with (map (@Ok member) (WriteBytes (tar_name b arch) python_buf :: l)).
  rewrite <- (app_nil_r (map Ok _)), write_all_Ok. simpl. by rewrite app_nil_r.
Qed.

Lemma zip_members_complete (b : builder) (d : disk) (arch : string)
    (python_buf : list byte) (members : list member) :
  zip_members b d arch python_buf = (members, None) →
  complete_archive b d arch python_buf members.
Proof.
  unfold zip_members. intros Hall. apply write_all_None in Hall.
  destruct members as [|m members]; [done |]. simpl in Hall.
  injection Hall as <- Hall.
  assert (Hsplit : ∃ mm ee, members = mm ++ ee
            ∧ map (write_module_file b d arch) (module_files b) = map Ok mm
            ∧ map (write_entry d) (include_files b) = map Ok ee).
  { exists (take (length (module_files b)) members),
      (drop (length (module_files b)) members).
    split; [by rewrite take_drop |].
    rewrite <- (take_drop (length (module_files b)) members), map_app in Hall.
    apply app_inj_1 in Hall; [done |].
    rewrite !length_map, length_take.
    apply (f_equal length) in Hall.
    rewrite !length_app, !length_map, length_take, length_drop in Hall. lia. }
  destruct Hsplit as (mm & ee & -> & Hmm & Hee).
  exists mm. split.
  - clear Hee Hall. revert mm Hmm.
    induction (module_files b) as [|f files IH]; intros [|m mm] Hmm; try done.
    simpl in Hmm. injection Hmm as Hm Hmm. constructor; [|by apply IH].
    by apply write_module_file_member.
  - f_equal. f_equal. clear Hmm Hall. revert ee Hee.
    induction (include_files b) as [|entry entries IH]; intros [|m ee] Hee; try done.
    simpl in Hee. injection Hee as Hm Hee. rewrite map_cons, <- (IH ee Hee). f_equal.
    unfold write_entry in Hm. destruct (zip_write d entry); [done |].
    by injection Hm as <-.
Qed.

Lemma build_hosts_dom (b : builder) (d : disk) (todo : list string)
    (dist : gmap string (list member)) :
  (∀ host, host ∈ todo → ∃ python_buf, tar_xz d (prefix_path b host) = Ok python_buf) →
  Forall (module_file_ok d) (module_files b) →
  Forall (λ entry, zip_write d entry = None) (include_files b) →
  Forall (λ host, zip_open d (zip_name b (arch_of host)) = None) todo →
  ∃ dist', build_hosts b d todo dist = (dist', None)
    ∧ dom dist' = dom dist ∪ list_to_set (archive_names b todo)
    ∧ (∀ name, name ∉ archive_names b todo → dist' !! name = dist !! name).
Proof.
  intros Hall Hfiles Hentries Hopen. revert dist Hall.
  induction Hopen as [|host rest Hhost _ IH]; intros dist Hall; simpl.
  - exists dist. split_and!; [done | set_solver | done].
  - destruct (Hall host) as [buf Hbuf]; [set_solver |]. rewrite Hbuf, Hhost.
    destruct (zip_members_packable b d (arch_of host) buf Hfiles Hentries)
      as (members & _ & ->). simpl.
    destruct (IH (<[zip_name b (arch_of host) := members]> dist))
      as (dist' & Hrun & Hdom & Hframe); [set_solver |].
    exists dist'. split_and!; [done | |].
    + rewrite Hdom, dom_insert_L. set_solver.
    + intros name Hname. apply not_elem_of_cons in Hname as [Hne Hname].
      rewrite Hframe by done. by rewrite lookup_insert_ne.
Qed.

Lemma archive_name_fresh (b : builder) (host : string) (rest : list string) :
  arch_of host ∉ arch_of <$> rest →
  zip_name b (arch_of host) ∉ archive_names b rest.
Proof.
  intros Hfresh Hin. apply Hfresh. unfold archive_names in Hin.
  apply list_elem_of_fmap in Hin as (h & Heq & Hh).
  apply zip_name_inj in Heq. rewrite Heq. by apply list_elem_of_fmap_2.
Qed.

Lemma build_hosts_step (b : builder) (d : disk) (host : string) (rest : list string)
    (dist dist' : gmap string (list member)) :
  build_hosts b d (host :: rest) dist = (dist', None) →
  ∃ python_buf members,
    tar_xz d (prefix_path b host) = Ok python_buf
    ∧ zip_open d (zip_name b (arch_of host)) = None
    ∧ complete_archive b d (arch_of host) python_buf members
    ∧ build_hosts b d rest (<[zip_name b (arch_of host) := members]> dist)
      = (dist', None).
Proof.
  simpl. destruct (tar_xz d (prefix_path b host)) as [buf|e]; [|done].
  destruct (zip_open d (zip_name b (arch_of host))); [done |].
  destruct (zip_members b d (arch_of host) buf) as [members [e|]] eqn:Hmembers;
    simpl; [done |].
  intros Hrun. exists buf, members. split_and!; [done | done | | done].
  by apply zip_members_complete.
Qed.

Lemma build_hosts_frame (b : builder) (d : disk) (todo : list string)
    (dist dist' : gmap string (list member)) (name : string) :
  build_hosts b d todo dist = (dist', None) →
  name ∉ archive_names b todo → dist' !! name = dist !! name.
Proof.
  revert dist. induction todo as [|h todo IH]; intros dist Hrun Hname.
  - simpl in Hrun. by injection Hrun as ->.
  - apply build_hosts_step in Hrun as (buf & members & _ & _ & _ & Hrun).
    apply not_elem_of_cons in Hname as [Hne Hname].
    rewrite (IH _ Hrun Hname). by rewrite lookup_insert_ne.
Qed.

Lemma build_hosts_members (b : builder) (d : disk) (todo : list string)
    (dist dist' : gmap string (list member)) (host : string) :
  build_hosts b d todo dist = (dist', None) →
  NoDup (arch_of <$> todo) →
  host ∈ todo →
  ∃ python_buf members,
    tar_xz d (prefix_path b host) = Ok python_buf
    ∧ complete_archive b d (arch_of host) python_buf members
    ∧ dist' !! zip_name b (arch_of host) = Some members.
Proof.
  revert dist. induction todo as [|h rest IH]; intros dist Hrun Hnd Hin.
  - by apply elem_of_nil in Hin.
  - apply build_hosts_step in Hrun as (buf & members & Hbuf & _ & Hmembers & Hrun).
    rewrite fmap_cons in Hnd. apply NoDup_cons in Hnd as [Hfresh Hnd].
    apply elem_of_cons in Hin as [->|Hin]; [|by eapply IH].
    exists buf, members. split_and!; [done | done |].
    rewrite (build_hosts_frame _ _ _ _ _ _ Hrun (archive_name_fresh b h rest Hfresh)).
    by rewrite lookup_insert_eq.
Qed.

(** C2, as amended: when every configured host has an install prefix that
    can be archived, every module resource and every extra file can be
    read, the archives can be created, and the architecture codes of the
    configured hosts are pairwise distinct, packaging ends without an
    exception; afterwards the output directory holds what it held before
    and the archives named name-version-arch.zip with the code of each
    host, one archive per host: these names are as many as the hosts, each
    archive holds the members written for its host, and in an output
    directory that was empty there are exactly as many archives as
    hosts. *)
Theorem build_one_archive_per_arch (b : builder) (d : disk)
    (dist : gmap string (list member)) :
  (∀ host, host ∈ hosts b →
     ∃ python_buf, tar_xz d (prefix_path b host) = Ok python_buf) →
  packable b d →
  NoDup (arch_of <$> hosts b) →
  ∃ dist', build b d dist = (dist', None)
    ∧ dom dist' = dom dist ∪ list_to_set (archive_names b (hosts b))
    ∧ size (list_to_set (C:=gset string) (archive_names b (hosts b))) = length (hosts b)
    ∧ (∀ host, host ∈ hosts b →
         ∃ python_buf members,
           tar_xz d (prefix_path b host) = Ok python_buf
           ∧ complete_archive b d (arch_of host) python_buf members
           ∧ dist' !! (module_name b +:+ "-" +:+ module_ver b +:+ "-"
                         +:+ arch_of host +:+ ".zip")
             = Some members)
    ∧ (dist = ∅ → size dist' = length (hosts b)).
Proof.
  intros Hall (Hfiles & Hentries & Hopen) Hnd. unfold build.
  destruct (build_hosts_dom b d (hosts b) dist Hall Hfiles Hentries Hopen)
    as (dist' & Hrun & Hdom & _).
  assert (Hsize : size (list_to_set (C:=gset string) (archive_names b (hosts b)))
                  = length (hosts b)).
  { rewrite size_list_to_set.
    - unfold archive_names. by rewrite length_fmap.
    - unfold archive_names.
      rewrite (list_fmap_compose arch_of (zip_name b)).
      pose proof (zip_name_inj b) as Hinj.
      by apply (NoDup_fmap_2 (zip_name b)). }
  exists dist'. split_and!; [done | done | done | |].
  - intros host Hin. by eapply build_hosts_members.
  - intros ->. rewrite <- size_dom, Hdom, dom_empty_L, (left_id_L ∅ (∪)). done.
Qed.

(** C2, as stated, fails: with the hosts armv7a-linux-androideabi and
    arm-linux-androideabi, which both have the code arm, on a disk where
    every prefix and every file is there, packaging into an empty output
    directory ends without an exception and leaves one archive for two
    hosts. *)
Lemma build_two_arm_hosts_one_archive :
  tar_xz full_disk (prefix_path arm_builder "armv7a-linux-androideabi") = Ok []
  ∧ tar_xz full_disk (prefix_path arm_builder "arm-linux-androideabi") = Ok []
  ∧ hosts arm_builder = ["armv7a-linux-androideabi"; "arm-linux-androideabi"]
  ∧ (build arm_builder full_disk ∅).2 = None
  ∧ dom (build arm_builder full_disk ∅).1 = {["py2droid-1.0-arm.zip"]}
  ∧ size (build arm_builder full_disk ∅).1 = 1.
Proof.
  split_and!; [done | done | done | | |]; vm_compute; reflexivity.
Qed.

Lemma build_one_archive_per_arch_witness :
  ∃ dist', build arm64_builder full_disk ∅ = (dist', None)
    ∧ dom dist' = dom (∅ : gmap string (list member))
                  ∪ list_to_set (archive_names arm64_builder (hosts arm64_builder))
    ∧ size (list_to_set (C:=gset string)
              (archive_names arm64_builder (hosts arm64_builder)))
      = length (hosts arm64_builder)
    ∧ (∀ host, host ∈ hosts arm64_builder →
         ∃ python_buf members,
           tar_xz full_disk (prefix_path arm64_builder host) = Ok python_buf
           ∧ complete_archive arm64_builder full_disk (arch_of host) python_buf members
           ∧ dist' !! (module_name arm64_builder +:+ "-" +:+ module_ver arm64_builder
                         +:+ "-" +:+ arch_of host +:+ ".zip")
             = Some members)
    ∧ ((∅ : gmap string (list member)) = ∅ → size dist' = length (hosts arm64_builder)).
Proof.
  apply (build_one_archive_per_arch arm64_builder full_disk ∅).
  - intros host Hin. by eexists.
  - split_and!.
    + repeat constructor. by eexists.
    + by repeat constructor.
    + by repeat constructor.
  - apply (bool_decide_unpack _). vm_compute. exact I.
Defined.

End packaging.

(** ** The module descriptor *)

Section props.
Import PyStr Props.

Lemma elem_spec (x : string) (keys : list string) : elem x keys = true ↔ x ∈ keys.
Proof.
  unfold elem. rewrite existsb_exists. split.
  - intros (y & Hin & Heq). apply String.eqb_eq in Heq as ->. by apply list_elem_of_In.
  - intros Hin. exists x. split; [by apply list_elem_of_In | apply String.eqb_refl].
Qed.

Lemma getprops_fold (keys : list string) (sep : string) (lines acc : list string) :
  fold_left (getprops_line keys sep) lines acc
  = acc ++ (filter (λ kv, kv.1 ∈ keys) (omap (key_value sep) lines)).*2.
Proof.
  revert acc. induction lines as [|line lines IH]; intros acc; simpl.
  - by rewrite app_nil_r.
  - rewrite IH. unfold getprops_line, contains, split1, key_value.
    destruct (partition sep line) as [[k v]|]; simpl; [|done].
    destruct (elem (strip k) keys) eqn:Hk.
    + apply elem_spec in Hk. rewrite filter_cons_True by done.
      simpl. by rewrite <- app_assoc.
    + rewrite filter_cons_False; [done |].
      simpl. intros Hin. apply elem_spec in Hin. congruence.
Qed.

Lemma getprops_matching (text : string) (keys : list string) (sep : string) :
  getprops text keys sep = (matching_lines keys sep text).*2.
Proof. unfold getprops, matching_lines. by rewrite getprops_fold. Qed.

Lemma init_module_raise (text : string) (e : exn) :
  init_module text = Raise e
  ↔ length (getprops text ["name"; "version"] "=") ≠ 2
    ∧ e = UnpackError 2 (length (getprops text ["name"; "version"] "=")).
Proof.
  unfold init_module.
  destruct (getprops text ["name"; "version"] "=") as [|a [|b [|c l]]]; simpl.
  - split; [intros [= <-]; by split | by intros [_ ->]].
  - split; [intros [= <-]; by split | by intros [_ ->]].
  - split; [done | by intros [? _]].
  - split; [intros [= <-]; by split | by intros [_ ->]].
Qed.

(** C10: [getprops] returns one value per line whose key is requested, in
    the order of the lines of the file, whatever the order in which the keys
    are requested; the constructor takes the first of these values as the
    module name and the second as the module version when there are exactly
    two and raises the unpacking error otherwise, so that the name comes from
    a name line and the version from a version line exactly when the
    matching lines are one name line followed by one version line. *)
Theorem getprops_file_order (text : string) (keys : list string) (sep : string) :
  getprops text keys sep = (matching_lines keys sep text).*2
  ∧ length (getprops text keys sep) = length (matching_lines keys sep text)
  ∧ (∀ keys', (∀ k, k ∈ keys' ↔ k ∈ keys) →
       getprops text keys' sep = getprops text keys sep)
  ∧ (∀ name ver, init_module text = Ok (name, ver)
       ↔ ∃ k1 k2, matching_lines ["name"; "version"] "=" text = [(k1, name); (k2, ver)])
  ∧ (∀ name ver,
       matching_lines ["name"; "version"] "=" text = [("name", name); ("version", ver)]
       ↔ init_module text = Ok (name, ver)
         ∧ (matching_lines ["name"; "version"] "=" text).*1 = ["name"; "version"])
  ∧ (∀ e, init_module text = Raise e
       ↔ length (matching_lines ["name"; "version"] "=" text) ≠ 2
         ∧ e = UnpackError 2 (length (matching_lines ["name"; "version"] "=" text)))
  ∧ getprops ("version=1.0" +:+ nl +:+ "name=foo") ["name"; "version"] "="
    = ["1.0"; "foo"].
Proof.
  pose proof (λ ks, getprops_matching text ks sep) as Hget.
  assert (Hinit : ∀ name ver, init_module text = Ok (name, ver)
            ↔ ∃ k1 k2, matching_lines ["name"; "version"] "=" text
                       = [(k1, name); (k2, ver)]).
  { intros name ver. unfold init_module, getprops.
    rewrite getprops_fold. fold (matching_lines ["name"; "version"] "=" text).
    destruct (matching_lines ["name"; "version"] "=" text)
      as [|[k1 v1] [|[k2 v2] [|kv3 l]]]; simpl;
      (split; [intros H; try discriminate | intros (? & ? & H); try discriminate]).
    - injection H as -> ->. by eexists _, _.
    - by injection H as _ -> _ ->. }
  split_and!.
  - apply Hget.
  - by rewrite Hget, length_fmap.
  - intros keys' Hkeys. rewrite !Hget. unfold matching_lines. f_equal.
    apply list_filter_iff. intros [k v]. simpl. apply Hkeys.
  - apply Hinit.
  - intros name ver. rewrite Hinit. split.
    + intros H. rewrite H. split; [by eexists _, _ | done].
    + intros [(k1 & k2 & H) Hkeys]. rewrite H in Hkeys |- *.
      simpl in Hkeys. by injection Hkeys as -> ->.
  - intros e. rewrite <- (length_fmap snd), <- getprops_matching.
    apply init_module_raise.
  - vm_compute. reflexivity.
Qed.

Lemma lstrip_spec (s : string) :
  ∃ pre, s = pre +:+ lstrip s ∧ all_space pre = true
    ∧ starts_with_space (lstrip s) = false.
Proof.
  induction s as [|c s (pre & Heq & Hpre & Hstart)]; simpl.
  - by exists "".
  - destruct (is_space c) eqn:Hc.
    + exists (String c pre). rewrite str_app_cons, <- Heq. simpl. by rewrite Hc.
    + exists "". simpl. by rewrite Hc.
Qed.

Lemma rstrip_spec (s : string) :
  ∃ post, s = rstrip s +:+ post ∧ all_space post = true
    ∧ ends_with_space (rstrip s) = false.
Proof.
  induction s as [|c s (post & Heq & Hpost & Hend)]; simpl.
  - by exists "".
  - destruct (rstrip s) as [|d r] eqn:Hr.
    + rewrite str_app_empty_l in Heq. subst s.
      destruct (is_space c) eqn:Hc.
      * exists (String c post). rewrite str_app_empty_l. simpl. by rewrite Hc.
      * exists post. rewrite str_app_cons, str_app_empty_l. simpl. by rewrite Hc.
    + exists post. rewrite str_app_cons, <- Heq. done.
Qed.

Lemma rstrip_keeps_start (s : string) :
  starts_with_space s = false → starts_with_space (rstrip s) = false.
Proof.
  destruct s as [|c s]; simpl; [done |]. intros Hc.
  destruct (rstrip s); [by rewrite Hc | done].
Qed.

Lemma strip_spec (line : string) :
  ∃ pre post, line = pre +:+ strip line +:+ post
    ∧ all_space pre = true ∧ all_space post = true
    ∧ starts_with_space (strip line) = false
    ∧ ends_with_space (strip line) = false.
Proof.
  unfold strip.
  destruct (lstrip_spec line) as (pre & Heq & Hpre & Hstart).
  destruct (rstrip_spec (lstrip line)) as (post & Heq' & Hpost & Hend).
  exists pre, post. rewrite <- Heq', <- Heq.
  split_and!; [done | done | done | by apply rstrip_keeps_start | done].
Qed.

Lemma process_fold (python_ver arch : string) (lines acc : list string) :
  fold_left (process_line python_ver arch) lines acc
  = acc ++ (rewrite_line python_ver arch <$> lines).
Proof.
  revert acc. induction lines as [|line lines IH]; intros acc; simpl.
  - by rewrite app_nil_r.
  - rewrite IH. unfold process_line, rewrite_line.
    destruct (startswith "description" line); by rewrite <- app_assoc.
Qed.

(** C1, as amended: when the Module Builder rewrites the module descriptor
    for an architecture, every line that starts with description is replaced
    by exactly description=CPython version for ARCH, with the architecture
    in upper case; every other line is passed through with its leading and
    trailing whitespace removed, and so unchanged (its line end apart) when
    it has none; the lines are joined with a single newline and no newline
    is appended after the last one. *)
Theorem process_module_prop_lines (python_ver text arch : string) :
  process_module_prop python_ver text arch
  = join nl (rewrite_line python_ver arch <$> file_lines text)
  ∧ (∀ line, startswith "description" line = true →
       rewrite_line python_ver arch line
       = "description=CPython " +:+ python_ver +:+ " for " +:+ upper arch)
  ∧ (∀ line, startswith "description" line = false →
       ∃ pre post, line = pre +:+ rewrite_line python_ver arch line +:+ post
         ∧ all_space pre = true ∧ all_space post = true
         ∧ starts_with_space (rewrite_line python_ver arch line) = false
         ∧ ends_with_space (rewrite_line python_ver arch line) = false)
  ∧ ((∀ line, line ∈ file_lines text → startswith "description" line = false →
        strip line = chomp line) →
     process_module_prop python_ver text arch
     = join nl (verbatim_line python_ver arch <$> file_lines text)).
Proof.
  assert (Hrun : process_module_prop python_ver text arch
                 = join nl (rewrite_line python_ver arch <$> file_lines text)).
  { unfold process_module_prop. by rewrite process_fold. }
  split_and!.
  - exact Hrun.
  - intros line Hd. unfold rewrite_line. by rewrite Hd.
  - intros line Hd. unfold rewrite_line. rewrite Hd. apply strip_spec.
  - intros Hclean. rewrite Hrun. f_equal. apply Forall_fmap_ext_1, Forall_forall.
    intros line Hin. unfold rewrite_line, verbatim_line.
    destruct (startswith "description" line) eqn:Hd; [done |].
    by apply Hclean.
Qed.

Example process_module_prop_example :
  process_module_prop "3.12.1" example_descriptor "arm64"
  = "name=foo" +:+ nl +:+ "version=1.0" +:+ nl
    +:+ "description=CPython 3.12.1 for ARM64".
Proof. vm_compute. reflexivity. Qed.

(** C1, as stated, fails: the indented line of [indented_descriptor] is not
    passed through verbatim, its leading blanks are removed. *)
Lemma process_module_prop_strips :
  process_module_prop "3.12.1" indented_descriptor "arm64"
  = "name=foo" +:+ nl +:+ "description=CPython 3.12.1 for ARM64"
  ∧ join nl (verbatim_line "3.12.1" "arm64" <$> file_lines indented_descriptor)
    = "  name=foo" +:+ nl +:+ "description=CPython 3.12.1 for ARM64"
  ∧ process_module_prop "3.12.1" indented_descriptor "arm64"
    ≠ join nl (verbatim_line "3.12.1" "arm64" <$> file_lines indented_descriptor).
Proof. split_and!; [vm_compute; reflexivity | vm_compute; reflexivity | by vm_compute]. Qed.

End props.

(** ** Shebang rewriting *)

Section shebang.
Import Shebang.

Lemma textchars_spec (n : N) : n ∈ textchars ↔ text_byte n.
Proof.
  unfold textchars, text_byte, spec_text_byte.
  rewrite elem_of_union, elem_of_difference, !elem_of_list_to_set,
    elem_of_singleton, list_elem_of_fmap, !elem_of_cons.
  setoid_rewrite elem_of_seq. setoid_rewrite elem_of_nil.
  split.
  - intros [H|[(k & -> & Hk) Hne]]; [naive_solver | right; right; lia].
  - intros [H|[H|[Hr Hne]]]; [naive_solver | naive_solver |].
    right. split; [|done]. exists (N.to_nat n). lia.
Qed.

Lemma is_binary_spec (b : list byte) :
  is_binary b = true ↔ ∃ x, x ∈ b ∧ ¬ text_byte (Byte.to_N x).
Proof.
  unfold is_binary, translate_delete.
  destruct (filter (λ x, Byte.to_N x ∉ textchars) b) as [|y l] eqn:Hf.
  - split; [done |]. intros (x & Hx & Hn).
    assert (Hin : x ∈ filter (λ x, Byte.to_N x ∉ textchars) b).
    { apply list_elem_of_filter. split; [|done]. by rewrite textchars_spec. }
    rewrite Hf in Hin. by apply elem_of_nil in Hin.
  - split; [|done]. intros _. exists y.
    assert (Hin : y ∈ filter (λ x, Byte.to_N x ∉ textchars) b).
    { rewrite Hf. apply list_elem_of_here. }
    apply list_elem_of_filter in Hin as [Hn Hy]. split; [done |].
    by rewrite <- textchars_spec.
Qed.

Lemma rewrite_bytes_binary (pats : list (pattern * string)) (data : list byte) :
  is_binary (take 1024 data) = true → rewrite_bytes pats data = data.
Proof. intros Hb. destruct pats as [|[p r] rest]; simpl; [done | by rewrite Hb]. Qed.

Lemma rewrite_bytes_undecodable (pats : list (pattern * string)) (data : list byte) :
  utf8_decode data = None → rewrite_bytes pats data = data.
Proof.
  intros Hd. destruct pats as [|[p r] rest]; simpl; [done |].
  rewrite Hd. by destruct (is_binary (take 1024 data)).
Qed.

Lemma file_eta (f : file) :
  {| bytes := bytes f; readable := readable f; writable := writable f |} = f.
Proof. by destruct f. Qed.

Lemma visit_nil (f : file) : visit [] f = f.
Proof. unfold visit. simpl. rewrite file_eta. by destruct (readable f && writable f). Qed.

Lemma visit_binary (pats : list (pattern * string)) (f : file) :
  is_binary (take 1024 (bytes f)) = true → visit pats f = f.
Proof.
  intros Hb. unfold visit. rewrite rewrite_bytes_binary, file_eta by done.
  by destruct (readable f && writable f).
Qed.

Lemma visit_file_lookup (pats : list (pattern * string)) (i j : N) (st : gmap N file) :
  visit_file pats i st !! j
  = if decide (j = i) then visit pats <$> st !! j else st !! j.
Proof.
  unfold visit_file. destruct (decide (j = i)) as [->|Hne].
  - destruct (st !! i) as [f|] eqn:Hf; [by rewrite lookup_insert_eq | by rewrite Hf].
  - destruct (st !! i); [by rewrite lookup_insert_ne | done].
Qed.

Lemma rewrite_file_spec (pats : list (pattern * string)) (nm : gmap string N)
    (st : gmap N file) (path : string) :
  rewrite_file pats nm st path
  = match nm !! path with
    | Some i => visit_file pats i st
    | None => st
    end.
Proof.
  induction pats as [|[p r] rest IH]; simpl.
  - destruct (nm !! path) as [i|]; [|done]. unfold visit_file.
    destruct (st !! i) as [f|] eqn:Hf; [|done]. by rewrite visit_nil, insert_id.
  - unfold replace_shebang. destruct (nm !! path) as [i|]; [|done].
    unfold visit_file in *. destruct (st !! i) as [f|] eqn:Hf; [|done].
    unfold visit in *. simpl.
    destruct (readable f); simpl; [|done].
    destruct (is_binary (take 1024 (bytes f))) eqn:Hb; simpl.
    { rewrite IH. by rewrite rewrite_bytes_binary. }
    destruct (utf8_decode (bytes f)) as [content|] eqn:Hd; simpl.
    + destruct (re_match p content) as [e|]; [|done].
      destruct (writable f); simpl; [done |]. by rewrite IH.
    + rewrite IH. by rewrite rewrite_bytes_undecodable.
Qed.

Lemma rewrite_file_lookup (pats : list (pattern * string)) (nm : gmap string N)
    (st : gmap N file) (path : string) (j : N) :
  rewrite_file pats nm st path !! j
  = if decide (nm !! path = Some j) then visit pats <$> st !! j else st !! j.
Proof.
  rewrite rewrite_file_spec. destruct (nm !! path) as [i|].
  - rewrite visit_file_lookup.
    destruct (decide (j = i)) as [->|Hne].
    + by rewrite decide_True.
    + rewrite decide_False; [done |]. by intros [= ->].
  - by rewrite decide_False.
Qed.

Lemma rewrite_file_dom (pats : list (pattern * string)) (nm : gmap string N)
    (st : gmap N file) (path : string) :
  dom (rewrite_file pats nm st path) = dom st.
Proof.
  apply set_eq. intros j. rewrite !elem_of_dom, rewrite_file_lookup.
  destruct (decide (nm !! path = Some j)); [|done]. by rewrite fmap_is_Some.
Qed.

Lemma rewrite_files_dom (pats : list (pattern * string)) (nm : gmap string N)
    (l : list string) (st : gmap N file) :
  dom (foldl (rewrite_file pats nm) st l) = dom st.
Proof.
  revert st. induction l as [|q l IH]; intros st; simpl; [done |].
  by rewrite IH, rewrite_file_dom.
Qed.

Lemma rewrite_files_other (pats : list (pattern * string)) (nm : gmap string N)
    (l : list string) (st : gmap N file) (j : N) :
  (∀ path, path ∈ l → nm !! path ≠ Some j) →
  foldl (rewrite_file pats nm) st l !! j = st !! j.
Proof.
  revert st. induction l as [|q l IH]; intros st Hnot; simpl; [done |].
  rewrite IH.
  - rewrite rewrite_file_lookup, decide_False; [done |].
    apply Hnot, list_elem_of_here.
  - intros path Hpath. by apply Hnot, list_elem_of_further.
Qed.

Lemma rewrite_files_fixed (pats : list (pattern * string)) (nm : gmap string N)
    (l : list string) (st : gmap N file) (j : N) (f : file) :
  st !! j = Some f → visit pats f = f →
  foldl (rewrite_file pats nm) st l !! j = Some f.
Proof.
  revert st. induction l as [|q l IH]; intros st Hf Hfix; simpl; [done |].
  apply IH; [|done]. rewrite rewrite_file_lookup, Hf. simpl. rewrite Hfix.
  by destruct (decide (nm !! q = Some j)).
Qed.

Lemma filter_length_0 {A : Type} (P : A → Prop) `{!∀ x, Decision (P x)} (l : list A) :
  length (filter P l) = 0 → ∀ x, x ∈ l → ¬ P x.
Proof.
  intros Hlen x Hx HP.
  assert (Hin : x ∈ filter P l) by by apply list_elem_of_filter.
  destruct (filter P l); [by apply elem_of_nil in Hin | done].
Qed.

Lemma rewrite_files_once (pats : list (pattern * string)) (nm : gmap string N)
    (l : list string) (st : gmap N file) (j : N) (f : file) :
  st !! j = Some f →
  length (filter (λ path, nm !! path = Some j) l) = 1 →
  foldl (rewrite_file pats nm) st l !! j = Some (visit pats f).
Proof.
  revert st. induction l as [|q l IH]; intros st Hf Hone; [done |].
  simpl. rewrite filter_cons in Hone.
  destruct (decide (nm !! q = Some j)) as [Hq|Hq].
  - simpl in Hone. rewrite rewrite_files_other.
    + by rewrite rewrite_file_lookup, decide_True, Hf.
    + apply (filter_length_0 (λ path, nm !! path = Some j)). lia.
  - apply IH; [|done]. by rewrite rewrite_file_lookup, decide_False.
Qed.

Section pass.
Context (pats : list (pattern * string)) (nm : gmap string N)
  (ds : string → result (list string)) (sources : string).

Lemma hosts_fold (hosts : list string) (st : gmap N file) :
  (replace_shebangs_hosts pats nm ds sources hosts st).1
  = foldl (rewrite_file pats nm) st
      (all_bin_files nm ds sources (reached ds sources hosts)).
Proof.
  revert st. induction hosts as [|host rest IH]; intros st; simpl; [done |].
  unfold bindir at 1.
  destruct (ds (sources +:+ "/cross-build/" +:+ host +:+ "/prefix/bin"))
    as [entries|e] eqn:Hdir; [|done].
  unfold all_bin_files. rewrite bind_cons, Hdir, foldl_app. apply IH.
Qed.

Lemma reached_all (hosts : list string) :
  (∀ host, host ∈ hosts → ∃ entries, ds (bindir sources host) = Ok entries) →
  reached ds sources hosts = hosts.
Proof.
  unfold bindir. induction hosts as [|host rest IH]; intros Hdirs; simpl; [done |].
  destruct (Hdirs host) as [entries ->]; [apply list_elem_of_here |].
  rewrite IH; [done |]. intros h Hh. by apply Hdirs, list_elem_of_further.
Qed.


Lemma reached_bin_files (hosts : list string) (path : string) :
  path ∈ all_bin_files nm ds sources (reached ds sources hosts) →
  path ∈ all_bin_files nm ds sources hosts.
Proof.
  unfold all_bin_files. induction hosts as [|host rest IH]; simpl; [done |].
  destruct (ds (sources +:+ "/cross-build/" +:+ host +:+ "/prefix/bin"))
    as [entries|e] eqn:Hdir.
  - rewrite !bind_cons, Hdir, !elem_of_app. intros [Hin|Hin]; [by left | right; auto].
  - intros Hin. by apply elem_of_nil in Hin.
Qed.

Lemma hosts_dom (hosts : list string) (st : gmap N file) :
  dom (replace_shebangs_hosts pats nm ds sources hosts st).1 = dom st.
Proof. rewrite hosts_fold. apply rewrite_files_dom. Qed.

Lemma hosts_other (hosts : list string) (st : gmap N file) (j : N) :
  (∀ path, path ∈ all_bin_files nm ds sources hosts → nm !! path ≠ Some j) →
  (replace_shebangs_hosts pats nm ds sources hosts st).1 !! j = st !! j.
Proof.
  intros Hnot. rewrite hosts_fold. apply rewrite_files_other.
  intros path Hpath. by apply Hnot, reached_bin_files.
Qed.

Lemma hosts_fixed (hosts : list string) (st : gmap N file) (j : N) (f : file) :
  st !! j = Some f → visit pats f = f →
  (replace_shebangs_hosts pats nm ds sources hosts st).1 !! j = Some f.
Proof. intros Hf Hfix. rewrite hosts_fold. by apply rewrite_files_fixed. Qed.

Lemma hosts_once (hosts : list string) (st : gmap N file) (j : N) (f : file) :
  (∀ host, host ∈ hosts → ∃ entries, ds (bindir sources host) = Ok entries) →
  times_visited nm ds sources hosts j = 1 →
  st !! j = Some f →
  (replace_shebangs_hosts pats nm ds sources hosts st).1 !! j = Some (visit pats f).
Proof.
  intros Hdirs Hone Hf. rewrite hosts_fold, reached_all by done.
  by apply rewrite_files_once.
Qed.

End pass.

Lemma utf8_encode_app (s t : list N) :
  utf8_encode (s ++ t) = utf8_encode s ++ utf8_encode t.
Proof. unfold utf8_encode. by rewrite map_app, concat_app. Qed.




(** C3, as amended: the binary check is given the first 1024 bytes of the
    file and classifies it as binary exactly when these contain a byte
    outside the set of bell, backspace, tab, newline, form feed, carriage
    return, escape and 0x20 to 0xFF without 0x7F; a file classified as
    binary is left unchanged by [replace_shebang] and by the whole pass,
    under whatever names the pass comes to it and whether the pass ends
    with an exception or not. *)
Theorem is_binary_textchars (python shell p : pattern) (replacement sources : string)
    (hosts : list string) (d : disk) (path : string) (i : N) (f : file)
    (data : list byte) :
  (is_binary (take 1024 data) = true
   ↔ ∃ x, x ∈ take 1024 data ∧ ¬ text_byte (Byte.to_N x))
  ∧ (∀ n, text_byte n ↔ n = 7%N ∨ n = 8%N ∨ spec_text_byte n)
  ∧ (names d !! path = Some i → store d !! i = Some f →
     is_binary (take 1024 (bytes f)) = true →
       replace_shebang (names d) (store d) path p replacement = (store d, false)
       ∧ store (replace_shebangs python shell sources hosts d).1 !! i = Some f
       ∧ read (replace_shebangs python shell sources hosts d).1 path = Some (bytes f)).
Proof.
  split_and!.
  - apply is_binary_spec.
  - intros n. unfold text_byte. rewrite !elem_of_cons, elem_of_nil. naive_solver.
  - intros Hpath Hf Hb.
    assert (Hpass : store (replace_shebangs python shell sources hosts d).1 !! i
                    = Some f).
    { unfold replace_shebangs.
      pose proof (hosts_fixed (patterns python shell) (names d) (dirs d) sources hosts
                    (store d) i f Hf (visit_binary _ f Hb)) as Hfixed.
      by destruct (replace_shebangs_hosts _ _ _ _ _ _). }
    split_and!.
    + unfold replace_shebang. rewrite Hpath, Hf, Hb. by destruct (readable f).
    + done.
    + unfold read. replace (names (replace_shebangs python shell sources hosts d).1)
        with (names d).
      * rewrite Hpath. simpl. by rewrite Hpass.
      * unfold replace_shebangs. by destruct (replace_shebangs_hosts _ _ _ _ _ _).
Qed.

(** C3, as stated, fails: a file of a bell and a backspace holds bytes
    outside the set of the specification and is not classified as binary. *)
Lemma is_binary_bell_backspace :
  is_binary (take 1024 [x07; x08]) = false
  ∧ x07 ∈ take 1024 [x07; x08]
  ∧ ¬ spec_text_byte (Byte.to_N x07).
Proof.
  split_and!; [vm_compute; reflexivity | simpl; apply list_elem_of_here |].
  unfold spec_text_byte. simpl. rewrite !elem_of_cons, elem_of_nil. lia.
Qed.




End shebang.

(** ** Source acquisition *)

Section sources.
Import PyStr Sources.

Lemma slice_to_app (v r : string) :
  slice_to (String.length (v +:+ r) - String.length r) (v +:+ r) = v.
Proof.
  rewrite str_app_length.
  replace (String.length v + String.length r - String.length r)
    with (String.length v) by lia.
  induction v as [|c v IH]; simpl.
  - by destruct r.
  - by rewrite IH.
Qed.

Lemma app_same_length (p1 t1 p2 t2 : string) :
  p1 +:+ t1 = p2 +:+ t2 → String.length p1 = String.length p2 →
  p1 = p2 ∧ t1 = t2.
Proof.
  revert p2. induction p1 as [|c p1 IH]; intros [|c' p2] Heq Hlen;
    simpl in Hlen; try lia.
  - done.
  - rewrite !str_app_cons in Heq. injection Heq as -> Heq.
    destruct (IH p2 Heq) as [-> ->]; [lia | done].
Qed.

Lemma digits_then_no_digit (k : string → option string) (s : string) :
  starts_with_digit s = false → digits_then k s = None.
Proof. destruct s as [|c s]; simpl; [done | by intros ->]. Qed.

(** The matcher of a run of digits, when the rest of the pattern cannot
    stop a run of digits early. *)
Lemma digits_then_spec (k : string → option string) (s r : string) :
  (∀ t, starts_with_digit t = true → k t = None ∨ is_Some (digits_then k t)) →
  digits_then k s = Some r
  ↔ ∃ d t, s = d +:+ t ∧ digits d ∧ starts_with_digit t = false ∧ k t = Some r.
Proof.
  intros Hk. unfold digits. induction s as [|c s IH]; simpl.
  - split; [done |]. intros (d & t & Heq & [Hne _] & _).
    destruct d; [done | discriminate].
  - destruct (is_digit c) eqn:Hc.
    + destruct (digits_then k s) as [r'|] eqn:Hrun.
      * split.
        -- intros [= ->]. destruct (proj1 IH eq_refl) as (d & t & -> & [Hne Hd] & Ht & Hkt).
           exists (String c d), t. rewrite str_app_cons. simpl. rewrite Hc.
           by split_and!.
        -- intros (d & t & Heq & [Hne Hd] & Ht & Hkt).
           destruct d as [|c' d]; [done |]. rewrite str_app_cons in Heq.
           injection Heq as <- ->. simpl in Hd. rewrite Hc in Hd. simpl in Hd.
           destruct d as [|c'' d].
           ++ rewrite str_app_empty_l in Hrun.
              by rewrite digits_then_no_digit in Hrun.
           ++ apply IH. exists (String c'' d), t. by split_and!.
      * split.
        -- intros Hks. exists (String c ""), s.
           rewrite str_app_cons, str_app_empty_l. simpl. rewrite Hc.
           split_and!; try done.
           destruct (starts_with_digit s) eqn:Hs; [|done].
           destruct (Hk s Hs) as [Hnone|[x Hx]]; congruence.
        -- intros (d & t & Heq & [Hne Hd] & Ht & Hkt).
           destruct d as [|c' d]; [done |]. rewrite str_app_cons in Heq.
           injection Heq as <- ->. simpl in Hd. rewrite Hc in Hd. simpl in Hd.
           destruct d as [|c'' d]; [by rewrite str_app_empty_l |].
           assert (Hsome : @None string = Some r); [|done].
           apply IH. exists (String c'' d), t. by split_and!.
    + split; [done |]. intros (d & t & Heq & [Hne Hd] & _).
      destruct d as [|c' d]; [done |]. rewrite str_app_cons in Heq.
      injection Heq as <- ->. simpl in Hd. by rewrite Hc in Hd.
Qed.

Lemma dot_then_spec (k : string → option string) (s r : string) :
  dot_then k s = Some r ↔ ∃ t, s = "." +:+ t ∧ k t = Some r.
Proof.
  destruct s as [|c s]; simpl.
  - split; [done | by intros (t & ? & _)].
  - destruct (Ascii.eqb c ".") eqn:Hc.
    + apply Ascii.eqb_eq in Hc as ->. split; [by exists s |].
      by intros (t & [= ->] & Hk).
    + apply Ascii.eqb_neq in Hc. split; [done |].
      intros (t & [= -> _] & _). done.
Qed.

Lemma dot_then_rejects_digit (k : string → option string) (t : string) :
  starts_with_digit t = true → dot_then k t = None.
Proof.
  destruct t as [|c t]; simpl; [done |]. intros Hc.
  destruct (Ascii.eqb c ".") eqn:Heq; [|done].
  apply Ascii.eqb_eq in Heq as ->. done.
Qed.

Lemma digits_then_Some_accepts (t : string) :
  starts_with_digit t = true → is_Some (digits_then Some t).
Proof.
  destruct t as [|c t]; simpl; [done |]. intros ->.
  destruct (digits_then Some t); by eexists.
Qed.

Local Ltac side :=
  intros ? ?;
  first [ left; by apply dot_then_rejects_digit
        | right; by apply digits_then_Some_accepts ].

(** What the pattern matches at the start of a text: three runs of digits
    separated by dots, the last run as long as it can be. *)
Lemma match_version_spec (s rest : string) :
  match_version s = Some rest
  ↔ ∃ a b c, s = (a +:+ "." +:+ b +:+ "." +:+ c) +:+ rest
      ∧ digits a ∧ digits b ∧ digits c ∧ starts_with_digit rest = false.
Proof.
  unfold match_version.
  rewrite digits_then_spec by side.
  setoid_rewrite dot_then_spec.
  setoid_rewrite digits_then_spec; [| side ..].
  setoid_rewrite dot_then_spec.
  setoid_rewrite digits_then_spec; [| side ..].
  split.
  - intros (a & t1 & -> & Ha & _ & t2 & -> & b & t3 & -> & Hb & _
            & t4 & -> & c & t5 & -> & Hc & Ht5 & [= ->]).
    exists a, b, c. rewrite !str_app_assoc. done.
  - intros (a & b & c & -> & Ha & Hb & Hc & Hrest).
    exists a, ("." +:+ b +:+ "." +:+ c +:+ rest).
    rewrite !str_app_assoc. split_and!; [done | done | done |].
    exists (b +:+ "." +:+ c +:+ rest). split; [done |].
    exists b, ("." +:+ c +:+ rest). split_and!; [done | done | done |].
    exists (c +:+ rest). split; [done |].
    exists c, rest. by split_and!.
Qed.

(** The digits at the start of a text. *)
Lemma digit_span (s : string) :
  ∃ e rest, s = e +:+ rest ∧ all_digits e = true ∧ starts_with_digit rest = false.
Proof.
  induction s as [|c s (e & rest & -> & He & Hrest)].
  - by exists "", "".
  - destruct (is_digit c) eqn:Hc.
    + exists (String c e), rest. rewrite str_app_cons. simpl. by rewrite Hc, He.
    + exists "", (String c (e +:+ rest)). simpl. by rewrite Hc.
Qed.

Lemma all_digits_app (s t : string) :
  all_digits s = true → all_digits t = true → all_digits (s +:+ t) = true.
Proof.
  induction s as [|c s IH]; [done |]. rewrite str_app_cons. simpl.
  intros [Hc Hs]%andb_prop Ht. by rewrite Hc, IH.
Qed.

(** Where a text of the shape of a version stands, the pattern matches, and
    its match is at least as long. *)
Lemma match_version_complete (v post : string) :
  version_shaped v →
  ∃ rest, match_version (v +:+ post) = Some rest
    ∧ String.length rest ≤ String.length post.
Proof.
  intros (a & b & c & -> & Ha & Hb & [Hne Hc]).
  destruct (digit_span post) as (e & rest & -> & He & Hrest).
  exists rest. split.
  - apply match_version_spec. exists a, b, (c +:+ e).
    rewrite !str_app_assoc. split_and!; [done | done | done | | done].
    split; [by destruct c | by apply all_digits_app].
  - rewrite str_app_length. lia.
Qed.

Lemma first_match_eq (s : string) :
  first_match s
  = match match_version s with
    | Some rest => Some (slice_to (String.length s - String.length rest) s)
    | None =>
        match s with
        | EmptyString => None
        | String _ s' => first_match s'
        end
    end.
Proof. by destruct s. Qed.

Lemma first_match_some (s v : string) :
  first_match s = Some v →
  ∃ pre rest, s = pre +:+ v +:+ rest
    ∧ version_shaped v
    ∧ match_version (v +:+ rest) = Some rest
    ∧ ∀ pre' t', s = pre' +:+ t' → String.length pre' < String.length pre →
        match_version t' = None.
Proof.
  assert (Hhere : ∀ s rest, match_version s = Some rest →
    ∃ v, s = v +:+ rest ∧ version_shaped v
      ∧ slice_to (String.length s - String.length rest) s = v).
  { intros s0 rest Hm. pose proof Hm as Hm'.
    apply match_version_spec in Hm' as (a & b & c & -> & Ha & Hb & Hc & _).
    eexists. split_and!; [done | by exists a, b, c | apply slice_to_app]. }
  induction s as [|c s IH]; rewrite first_match_eq.
  - done.
  - destruct (match_version (String c s)) as [rest|] eqn:Hm.
    + intros Hslice. destruct (Hhere _ _ Hm) as (v' & Heq & Hv & Hv').
      rewrite Hv' in Hslice. injection Hslice as ->.
      exists "", rest. rewrite str_app_empty_l, <- Heq.
      split_and!; [done | done | done | simpl; lia].
    + intros Hfirst. destruct (IH Hfirst) as (pre & rest & -> & Hv & Hmv & Hearlier).
      exists (String c pre), rest. rewrite str_app_cons.
      split_and!; [done | done | done |].
      intros [|c' pre'] t' Heq Hlen.
      * rewrite str_app_empty_l in Heq. by rewrite <- Heq.
      * rewrite str_app_cons in Heq. injection Heq as <- Heq.
        apply (Hearlier pre' t' Heq). simpl in Hlen. lia.
Qed.

Lemma first_match_none (s : string) :
  first_match s = None → ∀ pre t, s = pre +:+ t → match_version t = None.
Proof.
  induction s as [|c s IH]; rewrite first_match_eq.
  - intros _ [|c' pre] t Heq; [|discriminate].
    rewrite str_app_empty_l in Heq. by rewrite <- Heq.
  - destruct (match_version (String c s)) eqn:Hm; [done |].
    intros Hfirst [|c' pre] t Heq.
    + rewrite str_app_empty_l in Heq. by rewrite <- Heq.
    + rewrite str_app_cons in Heq. injection Heq as <- Heq. by eapply IH.
Qed.

Lemma findall_from_head (fuel : nat) (s : string) :
  String.length s < fuel → head (findall_from fuel s) = first_match s.
Proof.
  revert s. induction fuel as [|fuel IH]; intros s Hlen; [lia |].
  rewrite first_match_eq. destruct s as [|c s]; simpl findall_from.
  - done.
  - destruct (match_version (String c s)); [done |].
    apply IH. simpl in Hlen. lia.
Qed.

Lemma resolve_version_first_match (filename : string) :
  resolve_version filename = default "unknown" (first_match filename).
Proof.
  unfold resolve_version, findall.
  pose proof (findall_from_head (S (String.length filename)) filename) as Hhead.
  destruct (findall_from _ filename) as [|v l];
    simpl in *; rewrite <- Hhead by lia; done.
Qed.

(** C4: the version that [get_cpython] resolves for a source-archive URL
    is the first text of the shape digits, dot, digits, dot, digits in the
    file name of the URL: no such text starts further left, and none that
    starts at the same place is longer; when the file name holds no such
    text the version is the string unknown. *)
Theorem resolve_version_spec (o : outside) (sources_url : string) :
  (∀ e version, (get_cpython o sources_url).2 = Ok (e, version) →
     version = resolve_version (path_name sources_url))
  ∧ ((∃ pre v post,
        path_name sources_url = pre +:+ v +:+ post
        ∧ version_shaped v
        ∧ resolve_version (path_name sources_url) = v
        ∧ ∀ pre' v' post',
            path_name sources_url = pre' +:+ v' +:+ post' → version_shaped v' →
            String.length pre ≤ String.length pre'
            ∧ (String.length pre' = String.length pre →
               String.length v' ≤ String.length v))
     ∨ ((∀ pre v post, path_name sources_url = pre +:+ v +:+ post →
           ¬ version_shaped v)
        ∧ resolve_version (path_name sources_url) = "unknown")).
Proof.
  split.
  - intros e version. unfold get_cpython.
    destruct (existing_sources _ _); simpl; [by intros [= _ ->] |].
    destruct (curl_ok o); simpl; [|done].
    destruct (after_extract o) as [[|e' l]|]; simpl; [done | | done].
    by intros [= _ ->].
  - generalize (path_name sources_url). intros filename.
    rewrite resolve_version_first_match.
    destruct (first_match filename) as [v|] eqn:Hfirst; simpl.
    + left. apply first_match_some in Hfirst
        as (pre & rest & Heq & Hv & Hmatch & Hearlier).
      exists pre, v, rest. split_and!; [done | done | done |].
      intros pre' v' post' Heq' Hv'.
      destruct (match_version_complete v' post' Hv') as (rest' & Hm' & Hlen').
      assert (Hle : String.length pre ≤ String.length pre').
      { destruct (decide (String.length pre' < String.length pre)) as [Hlt|]; [|lia].
        rewrite (Hearlier pre' (v' +:+ post') Heq' Hlt) in Hm'. done. }
      split; [done |]. intros Hsame.
      rewrite Heq in Heq'.
      apply app_same_length in Heq' as [_ Heq']; [|done].
      rewrite <- Heq', Hmatch in Hm'. injection Hm' as <-.
      apply (f_equal String.length) in Heq'. rewrite !str_app_length in Heq'. lia.
    + right. split; [|done]. intros pre v post Heq Hv.
      destruct (match_version_complete v post Hv) as (rest & Hm & _).
      by rewrite (first_match_none filename Hfirst pre (v +:+ post) Heq) in Hm.
Qed.

Example resolve_version_tarball :
  path_name "https://www.python.org/ftp/python/3.13.0/Python-3.13.0.tgz"
  = "Python-3.13.0.tgz"
  ∧ resolve_version "Python-3.13.0.tgz" = "3.13.0"
  ∧ resolve_version "v1.2.b3.4.56a7.8.9.tar.gz" = "3.4.56"
  ∧ resolve_version "cpython-main.tar.gz" = "unknown".
Proof. split_and!; vm_compute; reflexivity. Qed.

Lemma prefix_spec (p s : string) :
  String.prefix p s = true ↔ ∃ t, s = p +:+ t.
Proof.
  revert s. induction p as [|c p IH]; intros s.
  - split; [by exists s | by destruct s].
  - destruct s as [|c' s]; simpl; [split; [done | by intros (t & ?)] |].
    destruct (ascii_dec c c') as [->|Hne].
    + rewrite IH. split; intros (t & Ht); exists t.
      * by rewrite str_app_cons, Ht.
      * rewrite str_app_cons in Ht. by injection Ht.
    + split; [done |]. intros (t & Ht). rewrite str_app_cons in Ht.
      by injection Ht as -> _.
Qed.

Lemma partition_eq (sep s : string) :
  partition sep s
  = if String.prefix sep s then Some ("", slice_from (String.length sep) s)
    else match s with
         | EmptyString => None
         | String c s' =>
             match partition sep s' with
             | Some (a, b) => Some (String c a, b)
             | None => None
             end
         end.
Proof. by destruct s. Qed.

(** [sub in s] holds exactly when [sub] occurs in [s]. *)
Lemma contains_spec (sub s : string) :
  contains sub s = true ↔ ∃ pre post, s = pre +:+ sub +:+ post.
Proof.
  unfold contains. induction s as [|c s IH]; rewrite partition_eq.
  - destruct (String.prefix sub "") eqn:Hp.
    + split; [|done]. intros _. apply prefix_spec in Hp as (t & Ht).
      exists "", t. by rewrite str_app_empty_l.
    + split; [done |]. intros ([|c pre] & post & Heq); [|discriminate].
      rewrite str_app_empty_l in Heq.
      assert (String.prefix sub "" = true) by (apply prefix_spec; by exists post).
      congruence.
  - destruct (String.prefix sub (String c s)) eqn:Hp.
    + split; [|done]. intros _. apply prefix_spec in Hp as (t & Ht).
      exists "", t. by rewrite str_app_empty_l.
    + destruct (partition sub s) as [[a b]|].
      * split; [|done]. intros _. destruct (proj1 IH eq_refl) as (pre & post & ->).
        exists (String c pre), post. by rewrite str_app_cons.
      * split; [done |]. intros ([|c' pre] & post & Heq).
        -- rewrite str_app_empty_l in Heq.
           assert (String.prefix sub (String c s) = true)
             by (apply prefix_spec; by exists post).
           congruence.
        -- rewrite str_app_cons in Heq. injection Heq as _ Heq.
           assert (Hsome : false = true); [|done].
           apply IH. by exists pre, post.
Qed.

(** C5: when BUILD_DIR has an entry that is a directory and whose name
    contains the resolved version, [get_cpython] downloads nothing, extracts
    nothing, and returns the first such entry in iteration order with the
    version. *)
Theorem get_cpython_cache_hit (o : outside) (sources_url : string) :
  (∃ e pre post, e ∈ build_dir o ∧ is_dir e = true
     ∧ name e = pre +:+ resolve_version (path_name sources_url) +:+ post) →
  ∃ before e after,
    build_dir o = before ++ e :: after
    ∧ is_dir e = true
    ∧ contains (resolve_version (path_name sources_url)) (name e) = true
    ∧ (∀ e', e' ∈ before →
         is_dir e' = false
         ∨ contains (resolve_version (path_name sources_url)) (name e') = false)
    ∧ get_cpython o sources_url
      = ([], Ok (e, resolve_version (path_name sources_url))).
Proof.
  intros (e0 & pre & post & Hin & Hdir & Hname). unfold get_cpython.
  generalize dependent (resolve_version (path_name sources_url)). intros version Hname.
  assert (Hc : contains version (name e0) = true).
  { apply contains_spec. by exists pre, post. }
  clear Hname pre post.
  induction (build_dir o) as [|e l IH]; [by apply elem_of_nil in Hin |].
  simpl. destruct (is_dir e && contains version (name e)) eqn:Hhit.
  - apply andb_prop in Hhit as [He1 He2].
    exists [], e, l. split_and!; [done | done | done | | done].
    intros e' He'. by apply elem_of_nil in He'.
  - apply elem_of_cons in Hin as [->|Hin]; [by rewrite Hdir, Hc in Hhit |].
    destruct (IH Hin) as (before & e1 & after & -> & Hd1 & Hc1 & Hbefore & Hrun).
    exists (e :: before), e1, after. split_and!; [done | done | done | | ].
    + intros e' [->|He']%elem_of_cons; [|by apply Hbefore].
      by apply andb_false_iff in Hhit.
    + destruct (existing_sources version (before ++ e1 :: after)); [done |].
      simpl in Hrun. destruct (curl_ok o); simpl in Hrun; [|done].
      destruct (after_extract o); done.
Qed.

Lemma get_cpython_cache_hit_witness :
  ∃ before e after,
    build_dir cached_outside = before ++ e :: after
    ∧ is_dir e = true
    ∧ contains (resolve_version (path_name cached_url)) (name e) = true
    ∧ (∀ e', e' ∈ before →
         is_dir e' = false
         ∨ contains (resolve_version (path_name cached_url)) (name e') = false)
    ∧ get_cpython cached_outside cached_url
      = ([], Ok (e, resolve_version (path_name cached_url))).
Proof.
  apply (get_cpython_cache_hit cached_outside cached_url).
  exists {| name := "Python-3.12.1"; is_dir := true |}, "Python-", "".
  split_and!; [set_solver | done | vm_compute; reflexivity].
Defined.

Example get_cpython_cached :
  get_cpython cached_outside cached_url
  = ([], Ok ({| name := "Python-3.12.1"; is_dir := true |}, "3.12.1")).
Proof. vm_compute. reflexivity. Qed.

End sources.

(** ** Configuration *)

Section config.
Import Config.

Lemma PythonConfig_init_ok (v : toml) (pc : PythonConfig) :
  PythonConfig_init v = Ok pc →
  ∃ t, v = TTable t ∧ size t = 6
    ∧ t !! "sources_url" = Some (sources_url pc)
    ∧ t !! "apply_patches" = Some (apply_patches pc)
    ∧ t !! "hosts" = Some (hosts pc)
    ∧ t !! "configure_args" = Some (configure_args pc)
    ∧ t !! "configure_env" = Some (configure_env pc)
    ∧ t !! "package" = Some (package pc).
Proof.
  destruct v as [| | | |t]; try done. simpl.
  destruct (t !! "sources_url") eqn:?, (t !! "apply_patches") eqn:?,
    (t !! "hosts") eqn:?, (t !! "configure_args") eqn:?,
    (t !! "configure_env") eqn:?, (t !! "package") eqn:?; try done.
  case_bool_decide; [|done]. intros [= <-]. by exists t.
Qed.

Lemma ModuleConfig_init_ok (v : toml) (mc : ModuleConfig) :
  ModuleConfig_init v = Ok mc →
  ∃ t, v = TTable t ∧ size t = 7
    ∧ t !! "include_files" = Some (include_files mc)
    ∧ t !! "debloat" = Some (debloat mc)
    ∧ t !! "debloat_patterns" = Some (debloat_patterns mc)
    ∧ t !! "replace_shebangs" = Some (replace_shebangs mc)
    ∧ t !! "shebang_mapping" = Some (shebang_mapping mc)
    ∧ t !! "strip" = Some (strip mc)
    ∧ t !! "strip_args" = Some (strip_args mc).
Proof.
  destruct v as [| | | |t]; try done. simpl.
  destruct (t !! "include_files") eqn:?, (t !! "debloat") eqn:?,
    (t !! "debloat_patterns") eqn:?, (t !! "replace_shebangs") eqn:?,
    (t !! "shebang_mapping") eqn:?, (t !! "strip") eqn:?,
    (t !! "strip_args") eqn:?; try done.
  case_bool_decide; [|done]. intros [= <-]. by exists t.
Qed.

Lemma python_fields_dom (t : gmap string toml) :
  dom t = python_fields
  ↔ size t = 6
    ∧ is_Some (t !! "sources_url") ∧ is_Some (t !! "apply_patches")
    ∧ is_Some (t !! "hosts") ∧ is_Some (t !! "configure_args")
    ∧ is_Some (t !! "configure_env") ∧ is_Some (t !! "package").
Proof.
  assert (Hsize : size python_fields = 6).
  { unfold python_fields. rewrite size_list_to_set; [done |].
    apply (bool_decide_unpack _). vm_compute. exact I. }
  rewrite <- !elem_of_dom, <- size_dom. split.
  - intros ->. split; [done |]. unfold python_fields.
    split_and!; apply elem_of_list_to_set, (bool_decide_unpack _);
      vm_compute; exact I.
  - intros (Hs & ? & ? & ? & ? & ? & ?). symmetry.
    apply set_subseteq_size_eq; [|lia]. unfold python_fields.
    intros x Hx. apply elem_of_list_to_set in Hx.
    repeat (apply elem_of_cons in Hx as [->|Hx]; [done |]).
    apply elem_of_nil in Hx. destruct Hx.
Qed.

Lemma module_fields_dom (t : gmap string toml) :
  dom t = module_fields
  ↔ size t = 7
    ∧ is_Some (t !! "include_files") ∧ is_Some (t !! "debloat")
    ∧ is_Some (t !! "debloat_patterns") ∧ is_Some (t !! "replace_shebangs")
    ∧ is_Some (t !! "shebang_mapping") ∧ is_Some (t !! "strip")
    ∧ is_Some (t !! "strip_args").
Proof.
  assert (Hsize : size module_fields = 7).
  { unfold module_fields. rewrite size_list_to_set; [done |].
    apply (bool_decide_unpack _). vm_compute. exact I. }
  rewrite <- !elem_of_dom, <- size_dom. split.
  - intros ->. split; [done |]. unfold module_fields.
    split_and!; apply elem_of_list_to_set, (bool_decide_unpack _);
      vm_compute; exact I.
  - intros (Hs & ? & ? & ? & ? & ? & ? & ?). symmetry.
    apply set_subseteq_size_eq; [|lia]. unfold module_fields.
    intros x Hx. apply elem_of_list_to_set in Hx.
    repeat (apply elem_of_cons in Hx as [->|Hx]; [done |]).
    apply elem_of_nil in Hx. destruct Hx.
Qed.

Lemma PythonConfig_init_spec (v : toml) :
  (∃ pc, PythonConfig_init v = Ok pc) ∨ PythonConfig_init v = Raise TypeError.
Proof.
  destruct v as [| | | |t]; try by right. simpl.
  destruct (t !! "sources_url"), (t !! "apply_patches"), (t !! "hosts"),
    (t !! "configure_args"), (t !! "configure_env"), (t !! "package");
    try by right.
  case_bool_decide; [left; by eexists | by right].
Qed.

Lemma ModuleConfig_init_spec (v : toml) :
  (∃ mc, ModuleConfig_init v = Ok mc) ∨ ModuleConfig_init v = Raise TypeError.
Proof.
  destruct v as [| | | |t]; try by right. simpl.
  destruct (t !! "include_files"), (t !! "debloat"), (t !! "debloat_patterns"),
    (t !! "replace_shebangs"), (t !! "shebang_mapping"), (t !! "strip"),
    (t !! "strip_args"); try by right.
  case_bool_decide; [left; by eexists | by right].
Qed.

Lemma PythonConfig_init_ok_iff (v : toml) :
  (∃ pc, PythonConfig_init v = Ok pc) ↔ ∃ t, v = TTable t ∧ dom t = python_fields.
Proof.
  split.
  - intros [pc Hpc]. apply PythonConfig_init_ok in Hpc
      as (t & -> & Hs & H1 & H2 & H3 & H4 & H5 & H6).
    exists t. split; [done |]. apply python_fields_dom.
    rewrite H1, H2, H3, H4, H5, H6. by split_and!.
  - intros (t & -> & Hdom).
    apply python_fields_dom in Hdom
      as (Hs & [? H1] & [? H2] & [? H3] & [? H4] & [? H5] & [? H6]).
    simpl. rewrite H1, H2, H3, H4, H5, H6, bool_decide_eq_true_2 by done.
    by eexists.
Qed.

Lemma ModuleConfig_init_ok_iff (v : toml) :
  (∃ mc, ModuleConfig_init v = Ok mc) ↔ ∃ t, v = TTable t ∧ dom t = module_fields.
Proof.
  split.
  - intros [mc Hmc]. apply ModuleConfig_init_ok in Hmc
      as (t & -> & Hs & H1 & H2 & H3 & H4 & H5 & H6 & H7).
    exists t. split; [done |]. apply module_fields_dom.
    rewrite H1, H2, H3, H4, H5, H6, H7. by split_and!.
  - intros (t & -> & Hdom).
    apply module_fields_dom in Hdom
      as (Hs & [? H1] & [? H2] & [? H3] & [? H4] & [? H5] & [? H6] & [? H7]).
    simpl. rewrite H1, H2, H3, H4, H5, H6, H7, bool_decide_eq_true_2 by done.
    by eexists.
Qed.



End config.

(** ** The build driver *)

Section driver_facts.
Import Driver.
Context {W : Type} `{!Outside W}.
Context (dist_dir sources : string) (conf : python_conf) (environ : gmap string string).

Lemma and_then_ok {A B : Type} (m : M A) (k : A → M B)
    (st st' : W * list call) (a : A) :
  m st = (st', Ok a) → and_then m k st = k a st'.
Proof. intros Hm. unfold and_then. by rewrite Hm. Qed.

Lemma and_then_raise {A B : Type} (m : M A) (k : A → M B)
    (st st' : W * list call) (e : exn) :
  m st = (st', Raise e) → and_then m k st = (st', Raise e).
Proof. intros Hm. unfold and_then. by rewrite Hm. Qed.

Lemma run_cases (c : call) (w : W) (log : list call) :
  (∃ w', succeeds c w w'
     ∧ run (argv c) (env c) (w, log) = ((w', log ++ [c]), Ok tt))
  ∨ (∃ w' e, fails c w w' e
       ∧ run (argv c) (env c) (w, log) = ((w', log ++ [c]), Raise e)).
Proof.
  unfold run, succeeds, fails. destruct c as [cmd en]. simpl.
  destruct (exec {| argv := cmd; env := en |} w) as [w' [returncode|err]] eqn:Hexec;
    simpl.
  - destruct (Z.eqb_spec returncode 0) as [->|Hne].
    + left. by exists w'.
    + right. exists w', (CalledProcessError cmd). split; [left; by exists returncode | done].
  - right. exists w', err. split; [by right | done].
Qed.

Local Abbreviation body :=
  (build_host dist_dir sources conf environ (configure_env conf ∪ environ)).

Lemma build_host_eq (host : string) :
  body host
  = and_then (exists_ (host_build sources host)) (λ present,
      if present then ret tt
      else
        and_then (run (argv (configure_host_call sources conf environ host))
                    (env (configure_host_call sources conf environ host))) (λ _,
        and_then (run (argv (make_host_call sources environ host))
                    (env (make_host_call sources environ host))) (λ _,
          if package conf
          then and_then (run (argv (package_call sources environ host))
                           (env (package_call sources environ host))) (λ _,
                 collect_dist dist_dir (host_build sources host))
          else ret tt))).
Proof. reflexivity. Qed.

Lemma build_host_stage (host : string) (w : W) (log : list call) :
  ∃ calls w' r,
    body host (w, log) = ((w', log ++ calls), r)
    ∧ host_stage dist_dir sources conf environ host w calls w' r.
Proof.
  rewrite build_host_eq.
  rewrite (and_then_ok _ _ (w, log) (w, log) (path_exists (host_build sources host) w));
    [|done].
  destruct (path_exists (host_build sources host) w) eqn:Hpresent.
  { exists [], w, (Ok tt). rewrite app_nil_r. split; [done | by constructor]. }
  destruct (run_cases (configure_host_call sources conf environ host) w log)
    as [(w1 & H1 & Hr1) | (w1 & e & H1 & Hr1)].
  2: { rewrite (and_then_raise _ _ _ _ _ Hr1). eexists _, w1, (Raise e).
       split; [done | by constructor]. }
  rewrite (and_then_ok _ _ _ _ tt Hr1).
  destruct (run_cases (make_host_call sources environ host) w1
              (log ++ [configure_host_call sources conf environ host]))
    as [(w2 & H2 & Hr2) | (w2 & e & H2 & Hr2)].
  2: { rewrite (and_then_raise _ _ _ _ _ Hr2). rewrite <- app_assoc.
       eexists _, w2, (Raise e). split; [done | by econstructor]. }
  rewrite (and_then_ok _ _ _ _ tt Hr2).
  destruct (package conf) eqn:Hpkg.
  2: { rewrite <- app_assoc. eexists _, w2, (Ok tt). split; [done | by econstructor]. }
  destruct (run_cases (package_call sources environ host) w2
              ((log ++ [configure_host_call sources conf environ host])
                 ++ [make_host_call sources environ host]))
    as [(w3 & H3 & Hr3) | (w3 & e & H3 & Hr3)].
  2: { rewrite (and_then_raise _ _ _ _ _ Hr3). rewrite <- !app_assoc.
       eexists _, w3, (Raise e). split; [done | by econstructor]. }
  rewrite (and_then_ok _ _ _ _ tt Hr3). unfold collect_dist.
  destruct (move_dist dist_dir (host_build sources host) w3) as [w4 [e|]] eqn:Hmove;
    rewrite <- !app_assoc.
  - eexists _, w4, (Raise e). split; [done | by econstructor].
  - eexists _, w4, (Ok tt). split; [done | by econstructor].
Qed.

Lemma for_each_per_host (todo : list string) (w : W) (log : list call) :
  ∃ calls w' r,
    for_each todo body (w, log) = ((w', log ++ calls), r)
    ∧ per_host dist_dir sources conf environ todo w calls w' r.
Proof.
  revert w log. induction todo as [|host rest IH]; intros w log.
  - exists [], w, (Ok tt). rewrite app_nil_r. split; [done | constructor].
  - change (for_each (host :: rest) body)
      with (and_then (body host) (λ _, for_each rest body)).
    destruct (build_host_stage host w log) as (calls1 & w1 & [[]|e] & Hrun & Hstage).
    + rewrite (and_then_ok _ _ _ _ tt Hrun).
      destruct (IH w1 (log ++ calls1)) as (calls & w' & r & Hrest & Hper).
      exists (calls1 ++ calls), w', r.
      split; [by rewrite Hrest, app_assoc | by econstructor].
    + rewrite (and_then_raise _ _ _ _ _ Hrun). exists calls1, w1, (Raise e).
      split; [done | by constructor].
Qed.

Lemma build_cpython_stages (w : W) (log : list call) :
  ∃ shared w0 r0,
    shared_stage sources conf environ w shared w0 r0
    ∧ (∀ e, r0 = Raise e →
         build_cpython dist_dir sources conf environ (w, log)
         = ((w0, log ++ shared), Raise e))
    ∧ (r0 = Ok tt →
       ∃ calls w' r,
         build_cpython dist_dir sources conf environ (w, log)
         = ((w', log ++ shared ++ calls), r)
         ∧ per_host dist_dir sources conf environ (hosts conf) w0 calls w' r).
Proof.
  unfold build_cpython.
  rewrite (and_then_ok _ _ (w, log) (w, log)
             (path_exists (sources +:+ "/cross-build/build") w)); [|done].
  destruct (path_exists (sources +:+ "/cross-build/build") w) eqn:Hbuild.
  { exists [], w, (Ok tt). split_and!; [by constructor | done |]. intros _.
    rewrite (and_then_ok _ _ (w, log) (w, log) tt); [|done].
    destruct (for_each_per_host (hosts conf) w log) as (calls & w' & r & Hrun & Hper).
    by exists calls, w', r. }
  change (run ([sources +:+ "/Android/android.py"; "configure-build"; "--"]
                 ++ configure_args conf) (configure_env conf ∪ environ))
    with (run (argv (configure_build_call sources conf environ))
            (env (configure_build_call sources conf environ))).
  change (run [sources +:+ "/Android/android.py"; "make-build"] environ)
    with (run (argv (make_build_call sources environ))
            (env (make_build_call sources environ))).
  destruct (run_cases (configure_build_call sources conf environ) w log)
    as [(w1 & H1 & Hr1) | (w1 & e & H1 & Hr1)].
  2: { exists [configure_build_call sources conf environ], w1, (Raise e).
       split_and!; [by constructor | | done]. intros e' [= <-].
       apply and_then_raise. by apply and_then_raise. }
  destruct (run_cases (make_build_call sources environ) w1
              (log ++ [configure_build_call sources conf environ]))
    as [(w2 & H2 & Hr2) | (w2 & e & H2 & Hr2)].
  2: { exists [configure_build_call sources conf environ; make_build_call sources environ],
         w2, (Raise e).
       split_and!; [by econstructor | | done]. intros e' [= <-].
       apply and_then_raise. rewrite (and_then_ok _ _ _ _ tt Hr1).
       by rewrite Hr2, <- app_assoc. }
  exists [configure_build_call sources conf environ; make_build_call sources environ],
    w2, (Ok tt).
  split_and!; [by econstructor | done |]. intros _.
  rewrite (and_then_ok _ _ (w, log)
             (w2, log ++ [configure_build_call sources conf environ;
                          make_build_call sources environ]) tt).
  - destruct (for_each_per_host (hosts conf) w2
                (log ++ [configure_build_call sources conf environ;
                         make_build_call sources environ]))
      as (calls & w' & r & Hrun & Hper).
    exists calls, w', r. split; [|done]. by rewrite Hrun, <- app_assoc.
  - rewrite (and_then_ok _ _ _ _ tt Hr1). by rewrite Hr2, <- app_assoc.
Qed.


End driver_facts.


Example build_cpython_skips_built_host :
  (Driver.build_cpython (Outside0 := sample_outside) "dist" "src" sample_conf ∅
     (sample_disk, [])).1.2
  = [ configure_host_call "src" sample_conf ∅ "x86_64-linux-android";
      make_host_call "src" ∅ "x86_64-linux-android";
      package_call "src" ∅ "x86_64-linux-android" ].
Proof. vm_compute. reflexivity. Qed.

(** * Further properties *)

(** ** The module descriptor, further *)

Section props_more.
Import PyStr Props.

(** X1: the values that [getprops] returns have no whitespace at either
    end. *)
Theorem getprops_values_stripped (text : string) (keys : list string) (sep : string) :
  Forall (λ v, starts_with_space v = false ∧ ends_with_space v = false)
    (getprops text keys sep).
Proof.
  rewrite getprops_matching. unfold matching_lines.
  apply Forall_fmap, Forall_forall. intros [k v] Hin. simpl.
  apply list_elem_of_filter in Hin as [_ Hin].
  apply list_elem_of_omap in Hin as (line & _ & Hkv).
  unfold key_value in Hkv. destruct (partition sep line) as [[k' v']|]; [|done].
  injection Hkv as _ <-.
  destruct (strip_spec v') as (_ & _ & _ & _ & _ & Hs & He). done.
Qed.

End props_more.

(** ** Shebang rewriting, further *)

Section shebang_more.
Import Shebang.



(** X4: the pass leaves the paths and the directories as they are, adds
    and removes no file, and changes no file other than those that the
    entries of the [bin] directories of the configured hosts lead to, links
    followed, whether it ends with an exception or not. *)
Theorem replace_shebangs_only_bin_files (python shell : pattern) (sources : string)
    (hosts : list string) (d : disk) :
  names (replace_shebangs python shell sources hosts d).1 = names d
  ∧ dirs (replace_shebangs python shell sources hosts d).1 = dirs d
  ∧ dom (store (replace_shebangs python shell sources hosts d).1) = dom (store d)
  ∧ ∀ j, (∀ path, path ∈ all_bin_files (names d) (dirs d) sources hosts →
            names d !! path ≠ Some j) →
      store (replace_shebangs python shell sources hosts d).1 !! j = store d !! j.
Proof.
  unfold replace_shebangs.
  pose proof (hosts_dom (patterns python shell) (names d) (dirs d) sources hosts
                (store d)) as Hdom.
  pose proof (hosts_other (patterns python shell) (names d) (dirs d) sources hosts
                (store d)) as Hother.
  destruct (replace_shebangs_hosts _ _ _ _ _ _) as [st' exc]. simpl in *.
  by split_and!.
Qed.

(** The pass comes to [pip3] twice, under its name and through the link
    [pip]; with the Python pattern [#!/] it rewrites the file both times.
    It rewrites [tool.sh] of the [lib] directory through the link
    [tool]. *)
Example replace_shebangs_through_links :
  all_bin_files (names links_disk) (dirs links_disk) example_sources
    ["aarch64-linux-android"] = [pip_link; pip_path; tool_link]
  ∧ times_visited (names links_disk) (dirs links_disk) example_sources
      ["aarch64-linux-android"] 1%N = 2
  ∧ first_line <$>
      read (replace_shebangs (literal "#!/") (literal_line "#!/bin/sh")
              example_sources ["aarch64-linux-android"] links_disk).1 pip_path
    = Some (String.list_byte_of_string
              "#!/system/bin/python3system/bin/python3usr/bin/python3.13")
  ∧ first_line <$>
      read (replace_shebangs (literal "#!/usr") (literal_line "#!/bin/sh")
              example_sources ["aarch64-linux-android"] links_disk).1 tool_path
    = Some (String.list_byte_of_string "#!/system/bin/sh").
Proof. split_and!; vm_compute; reflexivity. Qed.

End shebang_more.

(** ** The UTF-8 codec of the shebang pass *)

Section utf8.
Import Shebang.

Lemma byte_of_to_N (b : byte) : byte_of (Byte.to_N b) = b.
Proof. unfold byte_of. by rewrite Byte.of_to_N. Qed.

Lemma utf8_encode_cons (c : N) (s : list N) :
  utf8_encode (c :: s) = utf8_encode_char c ++ utf8_encode s.
Proof. reflexivity. Qed.

Local Ltac arith := zify; Z.to_euclidean_division_equations; lia.

Lemma utf8_decode_cons (b0 : byte) (r0 : list byte) :
  utf8_decode (b0 :: r0)
  = let n0 := Byte.to_N b0 in
    if (n0 <? 128)%N then cons n0 <$> utf8_decode r0
    else if between 194 223 n0 then
      match r0 with
      | b1 :: r1 =>
          let n1 := Byte.to_N b1 in
          if continuation n1
          then cons ((n0 - 192) * 64 + (n1 - 128))%N <$> utf8_decode r1
          else None
      | _ => None
      end
    else if between 224 239 n0 then
      match r0 with
      | b1 :: b2 :: r2 =>
          let n1 := Byte.to_N b1 in
          let n2 := Byte.to_N b2 in
          let lo := if (n0 =? 224)%N then 160%N else 128%N in
          let hi := if (n0 =? 237)%N then 159%N else 191%N in
          if between lo hi n1 && continuation n2
          then cons ((n0 - 224) * 4096 + (n1 - 128) * 64 + (n2 - 128))%N
                 <$> utf8_decode r2
          else None
      | _ => None
      end
    else if between 240 244 n0 then
      match r0 with
      | b1 :: b2 :: b3 :: r3 =>
          let n1 := Byte.to_N b1 in
          let n2 := Byte.to_N b2 in
          let n3 := Byte.to_N b3 in
          let lo := if (n0 =? 240)%N then 144%N else 128%N in
          let hi := if (n0 =? 244)%N then 143%N else 191%N in
          if between lo hi n1 && continuation n2 && continuation n3
          then cons ((n0 - 240) * 262144 + (n1 - 128) * 4096
                     + (n2 - 128) * 64 + (n3 - 128))%N
                 <$> utf8_decode r3
          else None
      | _ => None
      end
    else None.
Proof. reflexivity. Qed.

Lemma between_spec (lo hi n : N) : between lo hi n = true ↔ (lo ≤ n ≤ hi)%N.
Proof. unfold between. rewrite andb_true_iff, !N.leb_le. done. Qed.

Lemma utf8_decode_encode (bs : list byte) (s : list N) :
  utf8_decode bs = Some s → utf8_encode s = bs.
Proof.
  remember (length bs) as n eqn:Hn. revert bs s Hn.
  induction n as [n IH] using lt_wf_ind. intros bs s Hn Hd.
  destruct bs as [|b0 r0]; [by injection Hd as <- |].
  rewrite utf8_decode_cons in Hd. cbv zeta in Hd.
  pose proof (byte_of_to_N b0) as Hb0. pose proof (Byte.to_N_bounded b0) as Hle0.
  remember (Byte.to_N b0) as n0 eqn:Heqn0; clear Heqn0.
  destruct (N.ltb_spec n0 128).
  { destruct (utf8_decode r0) as [s'|] eqn:Hr; [|done]. injection Hd as <-.
    rewrite utf8_encode_cons. unfold utf8_encode_char.
    destruct (N.ltb_spec n0 128); [|lia]. simpl.
    rewrite Hb0. f_equal. apply (IH (length r0)); [simpl in Hn; lia | done | done]. }
  destruct (between 194 223 n0) eqn:H2.
  { apply between_spec in H2. destruct r0 as [|b1 r1]; [done |].
    pose proof (byte_of_to_N b1) as Hb1. remember (Byte.to_N b1) as n1 eqn:Heqn1; clear Heqn1.
    destruct (continuation n1) eqn:Hc1; [|done]. apply between_spec in Hc1.
    destruct (utf8_decode r1) as [s'|] eqn:Hr; [|done]. injection Hd as <-.
    rewrite utf8_encode_cons. unfold utf8_encode_char.
    destruct (N.ltb_spec ((n0 - 192) * 64 + (n1 - 128)) 128); [lia |].
    destruct (N.ltb_spec ((n0 - 192) * 64 + (n1 - 128)) 2048); [|lia].
    replace (192 + ((n0 - 192) * 64 + (n1 - 128)) / 64)%N with n0 by arith.
    replace (128 + ((n0 - 192) * 64 + (n1 - 128)) mod 64)%N with n1 by arith.
    rewrite Hb0, Hb1. simpl. do 2 f_equal.
    apply (IH (length r1)); [simpl in Hn; lia | done | done]. }
  destruct (between 224 239 n0) eqn:H3.
  { apply between_spec in H3. destruct r0 as [|b1 [|b2 r2]]; [done | done |].
    pose proof (byte_of_to_N b1) as Hb1. remember (Byte.to_N b1) as n1 eqn:Heqn1; clear Heqn1.
    pose proof (byte_of_to_N b2) as Hb2. remember (Byte.to_N b2) as n2 eqn:Heqn2; clear Heqn2.
    destruct (between _ _ n1) eqn:Hc1; [|done]. apply between_spec in Hc1.
    destruct (continuation n2) eqn:Hc2; [|done]. apply between_spec in Hc2.
    simpl in Hd.
    destruct (utf8_decode r2) as [s'|] eqn:Hr; [|done]. injection Hd as <-.
    assert (Hlo : (n0 = 224 → 160 ≤ n1)%N).
    { intros ->. by destruct Hc1. }
    assert (Hr1 : (128 ≤ n1 ≤ 191)%N).
    { destruct (N.eqb_spec n0 224), (N.eqb_spec n0 237); lia. }
    rewrite utf8_encode_cons. unfold utf8_encode_char.
    set (c := ((n0 - 224) * 4096 + (n1 - 128) * 64 + (n2 - 128))%N).
    assert (2048 ≤ c < 65536)%N by (unfold c; destruct (N.eq_dec n0 224%N) as [Heq|]; [specialize (Hlo Heq)|]; lia).
    destruct (N.ltb_spec c 128); [lia |].
    destruct (N.ltb_spec c 2048); [lia |].
    destruct (N.ltb_spec c 65536); [|lia].
    replace (224 + c / 4096)%N with n0 by (unfold c; arith).
    replace (128 + (c / 64) mod 64)%N with n1 by (unfold c; arith).
    replace (128 + c mod 64)%N with n2 by (unfold c; arith).
    rewrite Hb0, Hb1, Hb2. simpl. do 3 f_equal.
    apply (IH (length r2)); [simpl in Hn; lia | done | done]. }
  destruct (between 240 244 n0) eqn:H4; [|done].
  apply between_spec in H4. destruct r0 as [|b1 [|b2 [|b3 r3]]]; [done | done | done |].
  pose proof (byte_of_to_N b1) as Hb1. remember (Byte.to_N b1) as n1 eqn:Heqn1; clear Heqn1.
  pose proof (byte_of_to_N b2) as Hb2. remember (Byte.to_N b2) as n2 eqn:Heqn2; clear Heqn2.
  pose proof (byte_of_to_N b3) as Hb3. remember (Byte.to_N b3) as n3 eqn:Heqn3; clear Heqn3.
  destruct (between _ _ n1) eqn:Hc1; [|done]. apply between_spec in Hc1.
  destruct (continuation n2) eqn:Hc2; [|done]. apply between_spec in Hc2.
  destruct (continuation n3) eqn:Hc3; [|done]. apply between_spec in Hc3.
  simpl in Hd.
  destruct (utf8_decode r3) as [s'|] eqn:Hr; [|done]. injection Hd as <-.
  assert (Hlo : (n0 = 240 → 144 ≤ n1)%N).
  { intros ->. by destruct Hc1. }
  assert (Hr1 : (128 ≤ n1 ≤ 191)%N).
  { destruct (N.eqb_spec n0 240), (N.eqb_spec n0 244); lia. }
  rewrite utf8_encode_cons. unfold utf8_encode_char.
  set (c := ((n0 - 240) * 262144 + (n1 - 128) * 4096 + (n2 - 128) * 64 + (n3 - 128))%N).
  assert (65536 ≤ c)%N by (unfold c; destruct (N.eq_dec n0 240%N) as [Heq|]; [specialize (Hlo Heq)|]; lia).
  destruct (N.ltb_spec c 128); [lia |].
  destruct (N.ltb_spec c 2048); [lia |].
  destruct (N.ltb_spec c 65536); [lia |].
  replace (240 + c / 262144)%N with n0 by (unfold c; arith).
  replace (128 + (c / 4096) mod 64)%N with n1 by (unfold c; arith).
  replace (128 + (c / 64) mod 64)%N with n2 by (unfold c; arith).
  replace (128 + c mod 64)%N with n3 by (unfold c; arith).
  rewrite Hb0, Hb1, Hb2, Hb3. simpl. do 4 f_equal.
  apply (IH (length r3)); [simpl in Hn; lia | done | done].
Qed.

Lemma to_N_byte_of (n : N) : (n ≤ 255)%N → Byte.to_N (byte_of n) = n.
Proof.
  intros Hn. unfold byte_of. destruct (Byte.of_N n) as [b|] eqn:Hb; simpl.
  - by apply Byte.to_of_N.
  - apply Byte.of_N_None_iff in Hb. lia.
Qed.

Lemma between_true (lo hi n : N) : (lo ≤ n ≤ hi)%N → between lo hi n = true.
Proof. apply between_spec. Qed.

Lemma between_false (lo hi n : N) : (n < lo ∨ hi < n)%N → between lo hi n = false.
Proof.
  intros Hn. destruct (between lo hi n) eqn:Hb; [|done].
  apply between_spec in Hb. lia.
Qed.

Lemma utf8_decode_encode_char (c : N) (rest : list byte) :
  scalar c →
  utf8_decode (utf8_encode_char c ++ rest) = cons c <$> utf8_decode rest.
Proof.
  intros Hc. unfold utf8_encode_char, scalar in *.
  destruct (N.ltb_spec c 128) as [H1|H1].
  { simpl app. rewrite utf8_decode_cons. cbv zeta.
    rewrite to_N_byte_of by lia. by destruct (N.ltb_spec c 128); [|lia]. }
  destruct (N.ltb_spec c 2048) as [H2|H2].
  { simpl app. rewrite utf8_decode_cons. cbv zeta.
    rewrite !to_N_byte_of by arith.
    destruct (N.ltb_spec (192 + c / 64) 128); [arith |].
    rewrite (between_true 194 223) by arith.
    unfold continuation. rewrite between_true by arith.
    do 2 f_equal. arith. }
  destruct (N.ltb_spec c 65536) as [H3|H3].
  { simpl app. rewrite utf8_decode_cons. cbv zeta.
    rewrite !to_N_byte_of by arith.
    destruct (N.ltb_spec (224 + c / 4096) 128); [arith |].
    rewrite (between_false 194 223) by arith.
    rewrite (between_true 224 239) by arith.
    unfold continuation. rewrite (between_true 128 191 (128 + c mod 64)) by arith.
    rewrite between_true.
    - simpl. do 2 f_equal. arith.
    - destruct (N.eqb_spec (224 + c / 4096) 224), (N.eqb_spec (224 + c / 4096) 237);
        arith. }
  simpl app. rewrite utf8_decode_cons. cbv zeta.
  rewrite !to_N_byte_of by arith.
  destruct (N.ltb_spec (240 + c / 262144) 128); [arith |].
  rewrite (between_false 194 223) by arith.
  rewrite (between_false 224 239) by arith.
  rewrite (between_true 240 244) by arith.
  unfold continuation. rewrite (between_true 128 191 (128 + c mod 64)) by arith.
  rewrite (between_true 128 191 (128 + (c / 64) mod 64)) by arith.
  rewrite between_true.
  - simpl. do 2 f_equal. arith.
  - destruct (N.eqb_spec (240 + c / 262144) 240), (N.eqb_spec (240 + c / 262144) 244);
      arith.
Qed.

Lemma utf8_encode_decode (s : list N) :
  Forall scalar s → utf8_decode (utf8_encode s) = Some s.
Proof.
  induction 1 as [|c s Hc Hs IH]; [done |].
  rewrite utf8_encode_cons, utf8_decode_encode_char by done. by rewrite IH.
Qed.

Lemma utf8_decode_scalar (bs : list byte) (s : list N) :
  utf8_decode bs = Some s → Forall scalar s.
Proof.
  remember (length bs) as n eqn:Hn. revert bs s Hn.
  induction n as [n IH] using lt_wf_ind. intros bs s Hn Hd.
  destruct bs as [|b0 r0]; [injection Hd as <-; constructor |].
  rewrite utf8_decode_cons in Hd. cbv zeta in Hd.
  pose proof (Byte.to_N_bounded b0) as Hle0.
  remember (Byte.to_N b0) as n0 eqn:Heqn0; clear Heqn0.
  destruct (N.ltb_spec n0 128).
  { destruct (utf8_decode r0) as [s'|] eqn:Hr; [|done]. injection Hd as <-.
    constructor; [unfold scalar; lia |].
    apply (IH (length r0)) with r0; [simpl in Hn; lia | done | done]. }
  destruct (between 194 223 n0) eqn:H2.
  { apply between_spec in H2. destruct r0 as [|b1 r1]; [done |].
    remember (Byte.to_N b1) as n1 eqn:Heqn1; clear Heqn1.
    destruct (continuation n1) eqn:Hc1; [|done]. apply between_spec in Hc1.
    destruct (utf8_decode r1) as [s'|] eqn:Hr; [|done]. injection Hd as <-.
    constructor; [unfold scalar; lia |].
    apply (IH (length r1)) with r1; [simpl in Hn; lia | done | done]. }
  destruct (between 224 239 n0) eqn:H3.
  { apply between_spec in H3. destruct r0 as [|b1 [|b2 r2]]; [done | done |].
    remember (Byte.to_N b1) as n1 eqn:Heqn1; clear Heqn1.
    remember (Byte.to_N b2) as n2 eqn:Heqn2; clear Heqn2.
    destruct (between _ _ n1) eqn:Hc1; [|done]. apply between_spec in Hc1.
    destruct (continuation n2) eqn:Hc2; [|done]. apply between_spec in Hc2.
    simpl in Hd.
    destruct (utf8_decode r2) as [s'|] eqn:Hr; [|done]. injection Hd as <-.
    constructor.
    - unfold scalar.
      destruct (N.eqb_spec n0 224), (N.eqb_spec n0 237); lia.
    - apply (IH (length r2)) with r2; [simpl in Hn; lia | done | done]. }
  destruct (between 240 244 n0) eqn:H4; [|done].
  apply between_spec in H4. destruct r0 as [|b1 [|b2 [|b3 r3]]]; [done | done | done |].
  remember (Byte.to_N b1) as n1 eqn:Heqn1; clear Heqn1.
  remember (Byte.to_N b2) as n2 eqn:Heqn2; clear Heqn2.
  remember (Byte.to_N b3) as n3 eqn:Heqn3; clear Heqn3.
  destruct (between _ _ n1) eqn:Hc1; [|done]. apply between_spec in Hc1.
  destruct (continuation n2) eqn:Hc2; [|done]. apply between_spec in Hc2.
  destruct (continuation n3) eqn:Hc3; [|done]. apply between_spec in Hc3.
  simpl in Hd.
  destruct (utf8_decode r3) as [s'|] eqn:Hr; [|done]. injection Hd as <-.
  constructor.
  - unfold scalar.
    destruct (N.eqb_spec n0 240), (N.eqb_spec n0 244); lia.
  - apply (IH (length r3)) with r3; [simpl in Hn; lia | done | done].
Qed.

(** X5: bytes that decode as UTF-8 decode to scalar values whose encoding
    is the same bytes, and a text of scalar values, once encoded, decodes
    to itself: reading a file and writing its text back changes nothing. *)
Theorem utf8_round_trip (bs : list byte) (s : list N) :
  (utf8_decode bs = Some s → utf8_encode s = bs ∧ Forall scalar s)
  ∧ (Forall scalar s → utf8_decode (utf8_encode s) = Some s).
Proof.
  split.
  - intros Hd. split; [by apply utf8_decode_encode | by eapply utf8_decode_scalar].
  - apply utf8_encode_decode.
Qed.

Lemma codepoints_scalar (lit : string) : Forall scalar (codepoints lit).
Proof.
  unfold codepoints. apply Forall_fmap, Forall_forall. intros a _. simpl.
  pose proof (N_ascii_bounded a). unfold scalar. lia.
Qed.

(** X6: when [replace_shebang] rewrites a file, the file held the encoded
    match followed by some bytes, and now holds the encoded replacement
    followed by the same bytes; the new content is valid UTF-8 and decodes
    to the replacement followed by the text after the match. *)
Theorem replace_shebang_keeps_rest (nm : gmap string N) (st : gmap N file)
    (path : string) (p : pattern) (replacement : string) :
  (replace_shebang nm st path p replacement).2 = true →
  ∃ i content e rest,
    nm !! path = Some i
    ∧ utf8_decode <$> (bytes <$> st !! i) = Some (Some content)
    ∧ re_match p content = Some e
    ∧ bytes <$> st !! i = Some (utf8_encode (take e content) ++ rest)
    ∧ bytes <$> (replace_shebang nm st path p replacement).1 !! i
      = Some (utf8_encode (codepoints replacement) ++ rest)
    ∧ utf8_decode (utf8_encode (codepoints replacement) ++ rest)
      = Some (codepoints replacement ++ drop e content).
Proof.
  unfold replace_shebang.
  destruct (nm !! path) as [i|] eqn:Hpath; [|done].
  destruct (st !! i) as [f|] eqn:Hf; [|done].
  destruct (readable f); simpl; [|done].
  destruct (is_binary (take 1024 (bytes f))) eqn:Hb; [done |].
  destruct (utf8_decode (bytes f)) as [content|] eqn:Hd; [|done].
  destruct (re_match p content) as [e|] eqn:He; [|done].
  destruct (writable f); simpl; [|done].
  intros _. exists i, content, e, (utf8_encode (drop e content)).
  pose proof (utf8_decode_encode _ _ Hd) as Henc.
  pose proof (utf8_decode_scalar _ _ Hd) as Hsc.
  split_and!; [done | rewrite Hf; simpl; by rewrite Hd | done | | |].
  - rewrite Hf. simpl. by rewrite <- utf8_encode_app, take_drop, Henc.
  - by rewrite lookup_insert_eq, utf8_encode_app.
  - rewrite <- utf8_encode_app. apply utf8_encode_decode.
    apply Forall_app. split; [apply codepoints_scalar | by apply Forall_drop].
Qed.

Lemma replace_shebang_keeps_rest_witness :
  ∃ i content e rest,
    names example_disk !! pip_path = Some i
    ∧ utf8_decode <$> (bytes <$> store example_disk !! i) = Some (Some content)
    ∧ re_match (literal "#!/usr/bin/python") content = Some e
    ∧ bytes <$> store example_disk !! i = Some (utf8_encode (take e content) ++ rest)
    ∧ bytes <$> (replace_shebang (names example_disk) (store example_disk) pip_path
                   (literal "#!/usr/bin/python") "#!/system/bin/python3").1 !! i
      = Some (utf8_encode (codepoints "#!/system/bin/python3") ++ rest)
    ∧ utf8_decode (utf8_encode (codepoints "#!/system/bin/python3") ++ rest)
      = Some (codepoints "#!/system/bin/python3" ++ drop e content).
Proof.
  apply (replace_shebang_keeps_rest (names example_disk) (store example_disk) pip_path
           (literal "#!/usr/bin/python") "#!/system/bin/python3").
  vm_compute. reflexivity.
Defined.

(** X7: when the [bin] directory of every configured host can be listed, a
    file that the pass comes to exactly once, that the process may read and
    write, that is text and decodes, and whose text does not match the
    Python pattern, gets the replacement [#!/system/bin/sh] in place of a
    match of the shell pattern at its start, and keeps its bytes when the
    shell pattern does not match either. *)
Theorem replace_shebangs_shell (python shell : pattern) (sources : string)
    (hosts : list string) (d : disk) (i : N) (f : file) (content : list N) :
  (∀ host, host ∈ hosts →
     ∃ entries, dirs d (sources +:+ "/cross-build/" +:+ host +:+ "/prefix/bin")
                = Ok entries) →
  times_visited (names d) (dirs d) sources hosts i = 1 →
  store d !! i = Some f →
  readable f = true → writable f = true →
  is_binary (take 1024 (bytes f)) = false →
  utf8_decode (bytes f) = Some content →
  re_match python content = None →
  (∀ e, re_match shell content = Some e →
     bytes <$> store (replace_shebangs python shell sources hosts d).1 !! i
     = Some (utf8_encode (codepoints "#!/system/bin/sh" ++ drop e content)))
  ∧ (re_match shell content = None →
     store (replace_shebangs python shell sources hosts d).1 !! i = Some f).
Proof.
  intros Hdirs Hone Hf Hr Hw Hb Hd Hpy. unfold replace_shebangs.
  pose proof (hosts_once (patterns python shell) (names d) (dirs d) sources hosts
                (store d) i f Hdirs Hone Hf) as Honce.
  destruct (replace_shebangs_hosts _ _ _ _ _ _) as [st' exc]. simpl in *.
  unfold visit in Honce. rewrite Hr, Hw in Honce. simpl in Honce.
  rewrite Hb, Hd, Hpy in Honce. split.
  - intros e He. rewrite He in Honce. by rewrite Honce.
  - intros He. rewrite He in Honce. rewrite Honce. f_equal.
    destruct f. simpl in *. by subst.
Qed.

Lemma replace_shebangs_shell_witness :
  (∀ e, re_match (literal_line "#!/bin/sh") (codepoints
          ("#!/bin/sh" +:+ PyStr.nl +:+ "exit 0" +:+ PyStr.nl)) = Some e →
     bytes <$> store (replace_shebangs (literal_line "#!/usr/bin/python")
                        (literal_line "#!/bin/sh")
                        example_sources ["aarch64-linux-android"] scripts_disk).1 !! 2%N
     = Some (utf8_encode (codepoints "#!/system/bin/sh" ++ drop e (codepoints
          ("#!/bin/sh" +:+ PyStr.nl +:+ "exit 0" +:+ PyStr.nl)))))
  ∧ (re_match (literal_line "#!/bin/sh") (codepoints
          ("#!/bin/sh" +:+ PyStr.nl +:+ "exit 0" +:+ PyStr.nl)) = None →
     store (replace_shebangs (literal_line "#!/usr/bin/python") (literal_line "#!/bin/sh")
              example_sources ["aarch64-linux-android"] scripts_disk).1 !! 2%N
     = Some (script config_script)).
Proof.
  apply (replace_shebangs_shell (literal_line "#!/usr/bin/python")
           (literal_line "#!/bin/sh") example_sources ["aarch64-linux-android"]
           scripts_disk 2%N (script config_script)).
  - intros host Hin. apply list_elem_of_singleton in Hin as ->. by eexists.
  - vm_compute. reflexivity.
  - vm_compute. reflexivity.
  - reflexivity.
  - reflexivity.
  - vm_compute. reflexivity.
  - vm_compute. reflexivity.
  - vm_compute. reflexivity.
Defined.

End utf8.

(** ** Packaging, further *)

Section packaging_more.
Import Arch Packaging.

Lemma build_hosts_app (b : builder) (d : disk) (l1 l2 : list string)
    (dist : gmap string (list member)) :
  build_hosts b d (l1 ++ l2) dist
  = match build_hosts b d l1 dist with
    | (dist1, None) => build_hosts b d l2 dist1
    | r => r
    end.
Proof.
  revert dist. induction l1 as [|h l1 IH]; intros dist; simpl; [done |].
  destruct (tar_xz d (prefix_path b h)) as [buf|e]; [|done].
  destruct (zip_open d (zip_name b (arch_of h))); [done |].
  destruct (zip_members b d (arch_of h) buf).2; [done | apply IH].
Qed.

(** X8: when the prefix of a configured host cannot be archived, as when
    it is missing, while the prefixes of the hosts before it can, the
    module resources and the extra files can be read and the archives of
    the hosts before it can be created, packaging raises the exception of
    archiving that prefix; the output directory then holds what it held
    and the archives of the hosts before it, and no archive is written for
    that host or the hosts after it. *)
Theorem build_stops_at_missing_prefix (b : builder) (d : disk)
    (dist : gmap string (list member)) (before after : list string) (host : string)
    (e : exn) :
  hosts b = before ++ host :: after →
  (∀ h, h ∈ before → ∃ python_buf, tar_xz d (prefix_path b h) = Ok python_buf) →
  Forall (module_file_ok d) (module_files b) →
  Forall (λ entry, zip_write d entry = None) (include_files b) →
  Forall (λ h, zip_open d (zip_name b (arch_of h)) = None) before →
  tar_xz d (prefix_path b host) = Raise e →
  ∃ dist', build b d dist = (dist', Some e)
    ∧ dom dist' = dom dist ∪ list_to_set (archive_names b before)
    ∧ (∀ name, name ∉ archive_names b before → dist' !! name = dist !! name)
    ∧ (NoDup (arch_of <$> before) →
       ∀ h, h ∈ before →
         ∃ python_buf members,
           tar_xz d (prefix_path b h) = Ok python_buf
           ∧ complete_archive b d (arch_of h) python_buf members
           ∧ dist' !! zip_name b (arch_of h) = Some members).
Proof.
  intros Hhosts Hbefore Hfiles Hentries Hopen Hmissing.
  unfold build. rewrite Hhosts, build_hosts_app.
  destruct (build_hosts_dom b d before dist Hbefore Hfiles Hentries Hopen)
    as (dist' & Hrun & Hdom & Hframe).
  exists dist'. rewrite Hrun. simpl. rewrite Hmissing.
  split_and!; [done | done | done |].
  intros Hnd h Hh. by eapply build_hosts_members.
Qed.

Lemma build_stops_at_missing_prefix_witness :
  ∃ dist', build arm64_builder partial_disk ∅
           = (dist', Some (FileNotFoundError
                             (prefix_path arm64_builder "x86_64-linux-android")))
    ∧ dom dist' = dom (∅ : gmap string (list member))
                  ∪ list_to_set (archive_names arm64_builder ["aarch64-linux-android"])
    ∧ (∀ name, name ∉ archive_names arm64_builder ["aarch64-linux-android"] →
         dist' !! name = (∅ : gmap string (list member)) !! name)
    ∧ (NoDup (arch_of <$> ["aarch64-linux-android"]) →
       ∀ h, h ∈ ["aarch64-linux-android"] →
         ∃ python_buf members,
           tar_xz partial_disk (prefix_path arm64_builder h) = Ok python_buf
           ∧ complete_archive arm64_builder partial_disk (arch_of h) python_buf members
           ∧ dist' !! zip_name arm64_builder (arch_of h) = Some members).
Proof.
  apply (build_stops_at_missing_prefix arm64_builder partial_disk ∅
           ["aarch64-linux-android"] [] "x86_64-linux-android").
  - done.
  - intros h Hh. apply list_elem_of_singleton in Hh as ->. by eexists.
  - repeat constructor. by eexists.
  - by repeat constructor.
  - by repeat constructor.
  - vm_compute. reflexivity.
Defined.

(** X9: after packaging without exception, the archive named by the code of
    a host holds the members written for the last configured host with that
    code: its own prefix archive, the module files and the extra files. *)
Theorem build_last_host_wins (b : builder) (d : disk)
    (dist dist' : gmap string (list member)) (before after : list string)
    (host : string) :
  build b d dist = (dist', None) →
  hosts b = before ++ host :: after →
  arch_of host ∉ arch_of <$> after →
  ∃ python_buf module_members,
    tar_xz d (prefix_path b host) = Ok python_buf
    ∧ Forall2 (module_member b d (arch_of host)) (module_files b) module_members
    ∧ dist' !! zip_name b (arch_of host)
      = Some (WriteBytes ("python-" +:+ python_ver b +:+ "-" +:+ arch_of host
                            +:+ ".tar.xz") python_buf
                :: module_members
                ++ map (λ entry, WriteFile entry entry) (include_files b)).
Proof.
  unfold build. intros Hrun Hhosts Hlast. rewrite Hhosts, build_hosts_app in Hrun.
  destruct (build_hosts b d before dist) as [dist1 [e|]]; [done |].
  apply build_hosts_step in Hrun as (buf & members & Hbuf & _ & (mm & Hmm & ->) & Hrun).
  exists buf, mm. split_and!; [done | done |].
  rewrite (build_hosts_frame _ _ _ _ _ _ Hrun (archive_name_fresh b host after Hlast)).
  by rewrite lookup_insert_eq.
Qed.

Lemma build_last_host_wins_witness :
  ∃ python_buf module_members,
    tar_xz labelled_disk (prefix_path arm_builder "arm-linux-androideabi")
    = Ok python_buf
    ∧ Forall2 (module_member arm_builder labelled_disk (arch_of "arm-linux-androideabi"))
        (module_files arm_builder) module_members
    ∧ (build arm_builder labelled_disk ∅).1
        !! zip_name arm_builder (arch_of "arm-linux-androideabi")
      = Some (WriteBytes ("python-" +:+ python_ver arm_builder +:+ "-"
                            +:+ arch_of "arm-linux-androideabi" +:+ ".tar.xz")
                python_buf
                :: module_members
                ++ map (λ entry, WriteFile entry entry) (include_files arm_builder)).
Proof.
  apply (build_last_host_wins arm_builder labelled_disk ∅
           (build arm_builder labelled_disk ∅).1
           ["armv7a-linux-androideabi"] [] "arm-linux-androideabi").
  - vm_compute. reflexivity.
  - done.
  - simpl. apply not_elem_of_nil.
Defined.

(** X20: when an extra file cannot be read while the prefix of the first
    configured host, the module resources and the extra files before it
    can, packaging raises the exception of reading that file at the first
    host: the archive of that host is left with the members written until
    then, and no archive is written for any later host. *)
Theorem build_stops_at_unreadable_file (b : builder) (d : disk)
    (dist : gmap string (list member)) (host : string) (rest : list string)
    (python_buf : list byte) (written later : list string) (entry : string) (e : exn) :
  hosts b = host :: rest →
  tar_xz d (prefix_path b host) = Ok python_buf →
  zip_open d (zip_name b (arch_of host)) = None →
  Forall (module_file_ok d) (module_files b) →
  include_files b = written ++ entry :: later →
  Forall (λ entry, zip_write d entry = None) written →
  zip_write d entry = Some e →
  ∃ module_members,
    Forall2 (module_member b d (arch_of host)) (module_files b) module_members
    ∧ build b d dist
      = (<[module_name b +:+ "-" +:+ module_ver b +:+ "-" +:+ arch_of host +:+ ".zip" :=
             WriteBytes ("python-" +:+ python_ver b +:+ "-" +:+ arch_of host +:+ ".tar.xz")
               python_buf
               :: module_members ++ map (λ entry, WriteFile entry entry) written]> dist,
         Some e).
Proof.
  intros Hhosts Hbuf Hopen Hfiles Hincl Hwritten Hentry.
  destruct (module_files_written b d (arch_of host) _ Hfiles) as (mm & Hmm & Heq).
  exists mm. split; [done |].
  unfold build. rewrite Hhosts. simpl. rewrite Hbuf, Hopen.
  assert (Hmembers : zip_members b d (arch_of host) python_buf
            = (WriteBytes (tar_name b (arch_of host)) python_buf
                 :: mm ++ map (λ entry, WriteFile entry entry) written, Some e)).
  { unfold zip_members. rewrite Heq, Hincl, map_app, (entries_written d _ Hwritten).
    simpl. unfold write_entry at 1. rewrite Hentry.
    rewrite app_assoc, <- map_app, write_all_Ok. simpl. by rewrite app_nil_r. }
  by rewrite Hmembers.
Qed.

Lemma build_stops_at_unreadable_file_witness :
  ∃ module_members,
    Forall2 (module_member arm64_builder unlicensed_disk (arch_of "aarch64-linux-android"))
      (module_files arm64_builder) module_members
    ∧ build arm64_builder unlicensed_disk ∅
      = (<[module_name arm64_builder +:+ "-" +:+ module_ver arm64_builder +:+ "-"
             +:+ arch_of "aarch64-linux-android" +:+ ".zip" :=
             WriteBytes ("python-" +:+ python_ver arm64_builder +:+ "-"
                           +:+ arch_of "aarch64-linux-android" +:+ ".tar.xz") []
               :: module_members ++ map (λ entry, WriteFile entry entry) []]> ∅,
         Some (FileNotFoundError "LICENSE")).
Proof.
  apply (build_stops_at_unreadable_file arm64_builder unlicensed_disk ∅
           "aarch64-linux-android" ["x86_64-linux-android"] [] [] [] "LICENSE").
  - done.
  - done.
  - done.
  - repeat constructor. by eexists.
  - done.
  - constructor.
  - done.
Defined.

End packaging_more.

(** ** Source acquisition, further *)

Section sources_more.
Import PyStr Sources.

Lemma components_nonempty (p : string) : components p ≠ [].
Proof.
  destruct p as [|c p]; simpl; [done |].
  destruct (Ascii.eqb c "/"); [done |]. by destruct (components p).
Qed.

Lemma components_app (dir file : string) :
  components (dir +:+ "/" +:+ file) = components dir ++ components file.
Proof.
  induction dir as [|c dir IH]; [done |].
  rewrite str_app_cons. simpl. rewrite IH.
  destruct (Ascii.eqb c "/"); [done |].
  pose proof (components_nonempty dir). by destruct (components dir).
Qed.

Lemma contains_slash_cons (c : ascii) (s : string) :
  contains "/" (String c s) = false → c ≠ "/"%char ∧ contains "/" s = false.
Proof.
  intros Hno. split.
  - intros ->. assert (contains "/" (String "/" s) = true); [|congruence].
    apply contains_spec. by exists "", s.
  - destruct (contains "/" s) eqn:Hs; [|done].
    apply contains_spec in Hs as (pre & post & ->).
    assert (contains "/" (String c (pre +:+ "/" +:+ post)) = true); [|congruence].
    apply contains_spec. by exists (String c pre), post.
Qed.

Lemma components_no_slash (file : string) :
  contains "/" file = false → components file = [file].
Proof.
  induction file as [|c file IH]; [done |]. intros Hno.
  apply contains_slash_cons in Hno as [Hc Hno]. simpl.
  apply Ascii.eqb_neq in Hc. rewrite Hc, IH; done.
Qed.

(** X10: the file name that [get_cpython] takes from a URL is the text after
    its last slash, when that text is neither empty nor a single dot. *)
Theorem path_name_after_last_slash (dir file : string) :
  contains "/" file = false → file ≠ "" → file ≠ "." →
  path_name (dir +:+ "/" +:+ file) = file.
Proof.
  intros Hno Hne Hdot. unfold path_name.
  rewrite components_app, (components_no_slash file), filter_app by done.
  rewrite filter_cons_True by (by split). rewrite filter_nil.
  apply last_last.
Qed.

Lemma path_name_after_last_slash_witness :
  path_name ("https://www.python.org/ftp/python/3.12.1" +:+ "/" +:+ "Python-3.12.1.tgz")
  = "Python-3.12.1.tgz".
Proof.
  apply (path_name_after_last_slash "https://www.python.org/ftp/python/3.12.1"
           "Python-3.12.1.tgz").
  - vm_compute. reflexivity.
  - done.
  - done.
Defined.

End sources_more.

(** ** Configuration, further *)

Section config_more.
Import Config.

(** X11: for a parsed document, [load_config] returns the two records
    exactly when the document has a python entry and a module entry that
    are tables whose keys are exactly the fields of [PythonConfig] and of
    [ModuleConfig]; when both entries are there and one of them is no such
    table (it is no table, lacks a field, or has an unknown key),
    [load_config] raises TypeError, not the configuration error. *)
Theorem load_config_exact_fields (file : string) (config : gmap string toml) :
  ((∃ pc mc, load_config file (Document config) = Ok (pc, mc))
   ↔ ∃ py md, config !! "python" = Some (TTable py)
       ∧ config !! "module" = Some (TTable md)
       ∧ dom py = python_fields ∧ dom md = module_fields)
  ∧ (is_Some (config !! "python") → is_Some (config !! "module") →
     (∃ pc mc, load_config file (Document config) = Ok (pc, mc))
     ∨ load_config file (Document config) = Raise TypeError).
Proof.
  simpl. split.
  - split.
    + intros (pc & mc & Hload).
      destruct (config !! "python") as [v1|]; [|done].
      destruct (config !! "module") as [v2|]; [|done].
      destruct (PythonConfig_init v1) as [pc'|] eqn:H1; simpl in Hload; [|done].
      destruct (ModuleConfig_init v2) as [mc'|] eqn:H2; simpl in Hload; [|done].
      destruct (proj1 (PythonConfig_init_ok_iff v1)) as (py & -> & Hpy); [by eexists |].
      destruct (proj1 (ModuleConfig_init_ok_iff v2)) as (md & -> & Hmd); [by eexists |].
      by exists py, md.
    + intros (py & md & -> & -> & Hpy & Hmd).
      destruct (proj2 (PythonConfig_init_ok_iff (TTable py))) as [pc ->]; [by eexists |].
      destruct (proj2 (ModuleConfig_init_ok_iff (TTable md))) as [mc ->]; [by eexists |].
      by exists pc, mc.
  - intros [v1 ->] [v2 ->].
    destruct (PythonConfig_init_spec v1) as [[pc ->] | ->]; simpl; [|by right].
    destruct (ModuleConfig_init_spec v2) as [[mc ->] | ->]; simpl; [|by right].
    left. by exists pc, mc.
Qed.

End config_more.

(** ** The build driver, further *)

Section driver_more.
Import Driver.
Context {W : Type} `{!Outside W}.
Context (dist_dir sources : string) (conf : python_conf) (environ : gmap string string).

Local Abbreviation body :=
  (build_host dist_dir sources conf environ (configure_env conf ∪ environ)).

Lemma for_each_present (todo : list string) (w : W) (log : list call) :
  (∀ host, host ∈ todo → path_exists (host_build sources host) w = true) →
  for_each todo body (w, log) = ((w, log), Ok tt).
Proof.
  induction todo as [|host rest IH]; intros Hall; [done |].
  change (for_each (host :: rest) body)
    with (and_then (body host) (λ _, for_each rest body)).
  rewrite (and_then_ok _ _ (w, log) (w, log) tt).
  - apply IH. intros h Hh. apply Hall. by apply list_elem_of_further.
  - rewrite build_host_eq.
    rewrite (and_then_ok _ _ (w, log) (w, log) true); [done |].
    unfold exists_. by rewrite (Hall host (list_elem_of_here _ _)).
Qed.

(** X12: when cross-build/build and the directory of every configured host
    exist, the driver runs no command and leaves the disk as it is. *)
Theorem build_cpython_resume (w : W) (log : list call) :
  path_exists (sources +:+ "/cross-build/build") w = true →
  (∀ host, host ∈ hosts conf → path_exists (host_build sources host) w = true) →
  build_cpython dist_dir sources conf environ (w, log) = ((w, log), Ok tt).
Proof.
  intros Hbuild Hall. unfold build_cpython.
  rewrite (and_then_ok _ _ _ (w, log) true); [|unfold exists_; by rewrite Hbuild].
  rewrite (and_then_ok _ _ _ (w, log) tt); [|done].
  by apply for_each_present.
Qed.

Lemma host_stage_calls (host : string) (w w' : W) (calls : list call) (r : result unit) :
  host ∈ hosts conf →
  host_stage dist_dir sources conf environ host w calls w' r →
  Forall (driver_call sources conf environ) calls.
Proof.
  intros Hhost Hstage.
  assert (Hc : driver_call sources conf environ
                 (configure_host_call sources conf environ host)).
  { right. right. exists host. split; [done | by left]. }
  assert (Hm : driver_call sources conf environ (make_host_call sources environ host)).
  { right. right. exists host. split; [done | right; by left]. }
  assert (Hp : package conf = true →
               driver_call sources conf environ (package_call sources environ host)).
  { intros Hpkg. right. right. exists host. split; [done | right; right; by split]. }
  inversion Hstage; subst; repeat (apply Forall_cons; split); auto.
Qed.

Lemma per_host_calls (todo : list string) (w w' : W) (calls : list call)
    (r : result unit) :
  (∀ host, host ∈ todo → host ∈ hosts conf) →
  per_host dist_dir sources conf environ todo w calls w' r →
  Forall (driver_call sources conf environ) calls.
Proof.
  intros Htodo Hper. induction Hper as [w|host rest w calls1 w1 calls w' r Hstage _ IH
                                        |host rest w calls1 w1 e Hstage].
  - constructor.
  - apply Forall_app. split.
    + eapply host_stage_calls; [|done]. apply Htodo, list_elem_of_here.
    + apply IH. intros h Hh. by apply Htodo, list_elem_of_further.
  - eapply host_stage_calls; [|done]. apply Htodo, list_elem_of_here.
Qed.

Lemma shared_stage_calls (w w' : W) (calls : list call) (r : result unit) :
  shared_stage sources conf environ w calls w' r →
  Forall (driver_call sources conf environ) calls.
Proof.
  assert (Hc : driver_call sources conf environ (configure_build_call sources conf environ))
    by by left.
  assert (Hm : driver_call sources conf environ (make_build_call sources environ))
    by (right; by left).
  intros Hstage. inversion Hstage; subst; repeat (apply Forall_cons; split); auto.
Qed.

Lemma host_stage_raise (host : string) (w w' : W) (calls : list call) (e : exn) :
  host ∈ hosts conf →
  host_stage dist_dir sources conf environ host w calls w' (Raise e) →
  ∃ cs c, calls = cs ++ [c] ∧ ended_by dist_dir sources conf environ c w' e.
Proof.
  intros Hhost Hstage. inversion Hstage; subst.
  - exists [], (configure_host_call sources conf environ host).
    split; [done |]. left. by eexists.
  - exists [configure_host_call sources conf environ host],
      (make_host_call sources environ host).
    split; [done |]. left. by eexists.
  - exists [configure_host_call sources conf environ host;
            make_host_call sources environ host],
      (package_call sources environ host).
    split; [done |]. left. by eexists.
  - exists [configure_host_call sources conf environ host;
            make_host_call sources environ host],
      (package_call sources environ host).
    split; [done |]. right. by eexists host, _, _.
Qed.

Lemma per_host_raise (todo : list string) (w w' : W) (calls : list call) (e : exn) :
  (∀ host, host ∈ todo → host ∈ hosts conf) →
  per_host dist_dir sources conf environ todo w calls w' (Raise e) →
  ∃ cs c, calls = cs ++ [c] ∧ ended_by dist_dir sources conf environ c w' e.
Proof.
  intros Htodo Hper. remember (Raise e) as r eqn:Hr.
  induction Hper as [w|host rest w calls1 w1 calls w' r Hstage _ IH
                     |host rest w calls1 w1 e' Hstage].
  - done.
  - destruct IH as (cs & c & -> & Hend); [|done |].
    + intros h Hh. by apply Htodo, list_elem_of_further.
    + exists (calls1 ++ cs), c. by rewrite app_assoc.
  - injection Hr as ->. eapply host_stage_raise; [|done].
    apply Htodo, list_elem_of_here.
Qed.

Lemma shared_stage_raise (w w' : W) (calls : list call) (e : exn) :
  shared_stage sources conf environ w calls w' (Raise e) →
  ∃ cs c, calls = cs ++ [c] ∧ ended_by dist_dir sources conf environ c w' e.
Proof.
  intros Hstage. inversion Hstage; subst.
  - exists [], (configure_build_call sources conf environ).
    split; [done |]. left. by eexists.
  - exists [configure_build_call sources conf environ],
      (make_build_call sources environ).
    split; [done |]. left. by eexists.
Qed.

(** X13: when the driver raises, it ran at least one command and nothing
    after the last one, and the exception comes from that command: it is
    CalledProcessError for it when it exited with a status that is not
    zero, the exception of starting it when it could not be started, or,
    when it was the package command of a host and exited with status zero,
    the exception that moving the packages of that host raised. *)
Theorem build_cpython_first_failure (w : W) (e : exn) :
  (build_cpython dist_dir sources conf environ (w, [])).2 = Raise e →
  ∃ cs c,
    (build_cpython dist_dir sources conf environ (w, [])).1.2 = cs ++ [c]
    ∧ ended_by dist_dir sources conf environ c
        (build_cpython dist_dir sources conf environ (w, [])).1.1 e.
Proof.
  destruct (build_cpython_stages dist_dir sources conf environ w [])
    as (shared & w0 & [[]|e0] & Hshared & Hraise & Hok).
  - destruct (Hok eq_refl) as (calls & w' & r & -> & Hper). simpl. intros ->.
    destruct (per_host_raise _ _ _ _ _ (λ h Hh, Hh) Hper) as (cs & c & -> & Hend).
    exists (shared ++ cs), c. by rewrite app_assoc.
  - rewrite (Hraise e0 eq_refl). simpl. intros [= <-].
    by apply shared_stage_raise in Hshared.
Qed.

(** X14: whatever the commands do, the driver only runs configure-build and
    make-build, and configure-host, make-host and package for configured
    hosts; it runs package only when packaging is enabled. *)
Theorem build_cpython_calls (w : W) :
  Forall (driver_call sources conf environ)
    (build_cpython dist_dir sources conf environ (w, [])).1.2
  ∧ (package conf = false →
     Forall (λ c, ∀ host, c ≠ package_call sources environ host)
       (build_cpython dist_dir sources conf environ (w, [])).1.2).
Proof.
  assert (HP : Forall (driver_call sources conf environ)
                 (build_cpython dist_dir sources conf environ (w, [])).1.2).
  { destruct (build_cpython_stages dist_dir sources conf environ w [])
      as (shared & w0 & [[]|e0] & Hshared & Hraise & Hok).
    - destruct (Hok eq_refl) as (calls & w' & r & -> & Hper). simpl.
      apply Forall_app. split; [by eapply shared_stage_calls |].
      by eapply per_host_calls.
    - rewrite (Hraise e0 eq_refl). simpl. by eapply shared_stage_calls. }
  split; [done |].
  intros Hpkg. eapply Forall_impl; [exact HP |].
  intros c Hc host ->. unfold driver_call in Hc.
  destruct Hc as [Hc | [Hc | (h & _ & [Hc | [Hc | [Hp _]]])]];
    [discriminate Hc .. | congruence].
Qed.

End driver_more.

Lemma build_cpython_resume_witness :
  Driver.build_cpython (Outside0 := sample_outside) "dist" "src" sample_conf ∅
    (built_disk, [])
  = ((built_disk, []), Ok tt).
Proof.
  apply (build_cpython_resume (Outside0 := sample_outside) "dist" "src" sample_conf ∅).
  - vm_compute. reflexivity.
  - intros host Hin. simpl in Hin.
    apply elem_of_cons in Hin as [->|Hin]; [vm_compute; reflexivity |].
    apply list_elem_of_singleton in Hin as ->. vm_compute. reflexivity.
Defined.

Lemma build_cpython_first_failure_witness :
  ∃ cs c,
    (Driver.build_cpython (Outside0 := unpackaged_outside) "dist" "src" sample_conf ∅
       (sample_disk, [])).1.2 = cs ++ [c]
    ∧ ended_by (Outside0 := unpackaged_outside) "dist" "src" sample_conf ∅ c
        (Driver.build_cpython (Outside0 := unpackaged_outside) "dist" "src" sample_conf ∅
           (sample_disk, [])).1.1
        (FileNotFoundError "src/cross-build/x86_64-linux-android/dist").
Proof.
  apply (build_cpython_first_failure (Outside0 := unpackaged_outside)
           "dist" "src" sample_conf ∅ sample_disk).
  vm_compute. reflexivity.
Defined.

Example build_cpython_failures :
  (Driver.build_cpython (Outside0 := failing_outside) "dist" "src" sample_conf ∅
     (sample_disk, [])).2
  = Raise (CalledProcessError ["src/Android/android.py"; "make-host";
                               "x86_64-linux-android"])
  ∧ (Driver.build_cpython (Outside0 := unpackaged_outside) "dist" "src" sample_conf ∅
       (sample_disk, [])).2
    = Raise (FileNotFoundError "src/cross-build/x86_64-linux-android/dist").
Proof. split; vm_compute; reflexivity. Qed.

(** ** Patches *)

Section patches_facts.
Import Patches.
Context {W : Type} `{!Outside W}.
Context (environ : gmap string string).

Lemma run_patch (entry : string) (st : state W) :
  run environ (patch entry) st
  = ({| world := (exec (patch_call environ (dir st) entry) (world st)).1;
        log := log st ++ [patch_call environ (dir st) entry];
        dir := dir st |},
     match (exec (patch_call environ (dir st) entry) (world st)).2 with
     | Returned returncode =>
         if (returncode =? 0)%Z then Ok tt
         else Raise (CalledProcessError ["patch"; "-p1"; "-i"; entry])
     | NotStarted e => Raise e
     end).
Proof.
  unfold run, patch_call, patch.
  destruct (exec _ (world st)) as [w' [returncode|e]]; simpl; [|done].
  by destruct (returncode =? 0)%Z.
Qed.

Lemma apply_entries_all (entries : list string) (st : state W) (w' : W) :
  after_all (map (patch_call environ (dir st)) entries) (world st) = Some w' →
  apply_entries environ entries st
  = ({| world := w';
        log := log st ++ map (patch_call environ (dir st)) entries;
        dir := dir st |}, Ok tt).
Proof.
  revert st. induction entries as [|entry rest IH]; intros st; simpl.
  - intros [= <-]. rewrite app_nil_r. by destruct st.
  - rewrite run_patch.
    destruct (exec (patch_call environ (dir st) entry) (world st))
      as [w1 [returncode|e]] eqn:Hexec; simpl; [|done].
    destruct returncode as [| |]; [|done..]. simpl. intros Hrest.
    rewrite (IH {| world := w1;
                   log := log st ++ [patch_call environ (dir st) entry];
                   dir := dir st |} Hrest).
    simpl. by rewrite <- app_assoc.
Qed.

Lemma apply_entries_app (applied rest : list string) (st : state W) (w1 : W) :
  after_all (map (patch_call environ (dir st)) applied) (world st) = Some w1 →
  apply_entries environ (applied ++ rest) st
  = apply_entries environ rest
      {| world := w1;
         log := log st ++ map (patch_call environ (dir st)) applied;
         dir := dir st |}.
Proof.
  revert st. induction applied as [|entry applied IH]; intros st; simpl.
  - intros [= <-]. rewrite app_nil_r. by destruct st.
  - rewrite run_patch.
    destruct (exec (patch_call environ (dir st) entry) (world st))
      as [w2 [returncode|e]] eqn:Hexec; simpl; [|done].
    destruct returncode as [| |]; [|done..]. simpl. intros Hrest.
    rewrite (IH {| world := w2;
                   log := log st ++ [patch_call environ (dir st) entry];
                   dir := dir st |} Hrest).
    simpl. by rewrite <- app_assoc.
Qed.

(** X15: without a patches directory [apply_patches] does nothing.  With
    one, it changes to the source directory and runs patch -p1 -i on the
    entries in iteration order, each on the disk the one before left.  When
    all exit with status zero it returns after changing back to the working
    directory it started in.  At the first one that exits with another
    status it raises CalledProcessError for it, and at the first one that
    cannot be started the exception of starting it; the entries after it
    are not applied and the working directory stays the source directory.
    An exception of changing directory or of listing the patches is raised
    as it is, before any patch is run. *)
Theorem apply_patches_in_order (sources : string) (st : state W) :
  (patches_exist (world st) = false → apply_patches environ sources st = (st, Ok tt))
  ∧ (patches_exist (world st) = true →
     (∀ e, change_dir sources (world st) = Some e →
        apply_patches environ sources st = (st, Raise e))
     ∧ (change_dir sources (world st) = None →
        (∀ e, patches_iterdir (world st) = Raise e →
           apply_patches environ sources st
           = ({| world := world st; log := log st; dir := sources |}, Raise e))
        ∧ ∀ entries, patches_iterdir (world st) = Ok entries →
            (∀ w', after_all (map (patch_call environ sources) entries) (world st)
                   = Some w' →
               (change_dir (dir st) w' = None →
                apply_patches environ sources st
                = ({| world := w';
                      log := log st ++ map (patch_call environ sources) entries;
                      dir := dir st |}, Ok tt))
               ∧ (∀ e, change_dir (dir st) w' = Some e →
                    apply_patches environ sources st
                    = ({| world := w';
                          log := log st ++ map (patch_call environ sources) entries;
                          dir := sources |}, Raise e)))
            ∧ (∀ applied entry rest w1,
                 entries = applied ++ entry :: rest →
                 after_all (map (patch_call environ sources) applied) (world st)
                 = Some w1 →
                 (∀ returncode,
                    (exec (patch_call environ sources entry) w1).2 = Returned returncode →
                    returncode ≠ 0%Z →
                    apply_patches environ sources st
                    = ({| world := (exec (patch_call environ sources entry) w1).1;
                          log := log st ++ map (patch_call environ sources) applied
                                   ++ [patch_call environ sources entry];
                          dir := sources |},
                       Raise (CalledProcessError ["patch"; "-p1"; "-i"; entry])))
                 ∧ (∀ e,
                      (exec (patch_call environ sources entry) w1).2 = NotStarted e →
                      apply_patches environ sources st
                      = ({| world := (exec (patch_call environ sources entry) w1).1;
                            log := log st ++ map (patch_call environ sources) applied
                                     ++ [patch_call environ sources entry];
                            dir := sources |},
                         Raise e))))).
Proof.
  unfold apply_patches, chdir. split; [by intros -> |].
  intros ->. simpl. split; [by intros e -> |].
  intros ->. simpl. split; [by intros e -> |].
  intros entries ->. split.
  - intros w' Hall.
    rewrite (apply_entries_all entries
               {| world := world st; log := log st; dir := sources |} w' Hall).
    simpl. split; [by intros -> | by intros e ->].
  - intros applied entry rest w1 -> Hall.
    rewrite (apply_entries_app applied (entry :: rest)
               {| world := world st; log := log st; dir := sources |} w1 Hall).
    simpl. rewrite run_patch. simpl. split.
    + intros returncode -> Hne.
      destruct (Z.eqb_spec returncode 0) as [->|_]; [done |].
      by rewrite <- app_assoc.
    + intros e ->. by rewrite <- app_assoc.
Qed.

End patches_facts.

Example apply_patches_sample :
  @Patches.apply_patches _ sample_patches ∅ "/repo/build/Python-3.13.1"
    {| Patches.world := []; Patches.log := []; Patches.dir := "/repo" |}
  = ({| Patches.world := ["/repo/patches/0001-add.patch"];
        Patches.log :=
          [ patch_call ∅ "/repo/build/Python-3.13.1" "/repo/patches/0001-add.patch";
            patch_call ∅ "/repo/build/Python-3.13.1" "/repo/patches/0002-fix.patch" ];
        Patches.dir := "/repo/build/Python-3.13.1" |},
     Raise (CalledProcessError ["patch"; "-p1"; "-i"; "/repo/patches/0002-fix.patch"])).
Proof. reflexivity. Qed.

(** ** Stripping *)

Section strip_facts.
Import Strip.

Lemma last_of_sorted (l : list string) (x : string) :
  StronglySorted String.le l → last l = Some x →
  ∀ y, y ∈ l → String.le y x.
Proof.
  induction 1 as [|z l Hl IH Hz]; [done |]. intros Hlast y Hy.
  destruct l as [|z' l'].
  - injection Hlast as <-. apply list_elem_of_singleton in Hy as ->. done.
  - change (last (z :: z' :: l')) with (last (z' :: l')) in Hlast.
    apply elem_of_cons in Hy as [->|Hy]; [|by apply IH].
    rewrite Forall_forall in Hz. apply Hz.
    apply last_Some in Hlast as [l'' ->].
    apply elem_of_app. right. apply list_elem_of_here.
Qed.

Lemma latest_ndk_empty (installed_ndks : list string) :
  latest_ndk installed_ndks = Raise IndexError ↔ installed_ndks = [].
Proof.
  unfold latest_ndk.
  destruct (last (merge_sort String.le installed_ndks)) as [x|] eqn:Hlast.
  - split; [done |]. intros ->. done.
  - split; [|done]. intros _. apply last_None in Hlast.
    pose proof (merge_sort_Permutation String.le installed_ndks) as Hp.
    rewrite Hlast in Hp. by apply Permutation_nil.
Qed.

Lemma latest_ndk_Ok (installed_ndks : list string) (ndk : string) :
  latest_ndk installed_ndks = Ok ndk →
  ndk ∈ installed_ndks ∧ ∀ other, other ∈ installed_ndks → String.le other ndk.
Proof.
  unfold latest_ndk.
  destruct (last (merge_sort String.le installed_ndks)) as [x|] eqn:Hlast; [|done].
  intros [= ->]. split.
  - apply last_Some in Hlast as [l' Hl'].
    pose proof (merge_sort_Permutation String.le installed_ndks) as Hp.
    rewrite <- Hp, Hl'. apply elem_of_app. right. apply list_elem_of_here.
  - intros other Hother.
    apply (last_of_sorted (merge_sort String.le installed_ndks)); [| done |].
    + apply (StronglySorted_merge_sort String.le).
    + pose proof (merge_sort_Permutation String.le installed_ndks) as Hp.
      by rewrite Hp.
Qed.

(** X16: [strip] raises KeyError when ANDROID_HOME is not set, and the
    exception of listing [$ANDROID_HOME/ndk] when that raises, as
    FileNotFoundError does when the directory is missing; it raises
    IndexError when the directory is empty.  Otherwise it takes the NDK
    whose directory name is the greatest in the order of strings, which
    compares texts and not version numbers, and goes on with its
    [llvm-strip] exactly when that is a regular file. *)
Theorem latest_ndk_greatest (o : outside) :
  (android_home o = None → strip_tool o = Raise (KeyError "ANDROID_HOME"))
  ∧ ∀ home, android_home o = Some home →
      (∀ e, iterdir o (home +:+ "/ndk") = Raise e → strip_tool o = Raise e)
      ∧ (iterdir o (home +:+ "/ndk") = Ok [] → strip_tool o = Raise IndexError)
      ∧ ∀ installed_ndks, iterdir o (home +:+ "/ndk") = Ok installed_ndks →
          installed_ndks ≠ [] →
          ∃ ndk,
            ndk ∈ installed_ndks
            ∧ (∀ other, other ∈ installed_ndks → String.le other ndk)
            ∧ strip_tool o
              = Ok (if is_file o (home +:+ "/ndk/" +:+ ndk
                                    +:+ "/toolchains/llvm/prebuilt/linux-x86_64/bin/llvm-strip")
                    then Some (home +:+ "/ndk/" +:+ ndk
                                 +:+ "/toolchains/llvm/prebuilt/linux-x86_64/bin/llvm-strip")
                    else None).
Proof.
  unfold strip_tool. split; [by intros -> |].
  intros home ->. fold (ndk_dir home). split_and!.
  - by intros e ->.
  - by intros ->.
  - intros installed_ndks -> Hne. simpl.
    destruct (latest_ndk installed_ndks) as [ndk|e] eqn:Hlatest.
    + destruct (latest_ndk_Ok _ _ Hlatest) as [Hin Hmax].
      exists ndk. split_and!; [done | done |]. simpl.
      replace (home +:+ "/ndk/" +:+ ndk
                 +:+ "/toolchains/llvm/prebuilt/linux-x86_64/bin/llvm-strip")
        with (strip_bin home ndk).
      * by destruct (is_file o (strip_bin home ndk)).
      * unfold strip_bin, ndk_dir. by rewrite !str_app_assoc.
    + exfalso. apply Hne. apply latest_ndk_empty.
      unfold latest_ndk in *.
      by destruct (last (merge_sort String.le installed_ndks)).
Qed.

(** No NDK directory, an empty one, and three NDKs. *)
Example strip_tool_sample :
  strip_tool {| android_home := Some "/opt/sdk";
                iterdir := λ dir, Raise (FileNotFoundError dir);
                is_file := λ _, true |}
  = Raise (FileNotFoundError "/opt/sdk/ndk")
  ∧ strip_tool {| android_home := Some "/opt/sdk";
                  iterdir := λ _, Ok [];
                  is_file := λ _, true |}
    = Raise IndexError
  ∧ strip_tool {| android_home := Some "/opt/sdk";
                  iterdir := λ _, Ok ["27.0.12077973"; "100.0.1"; "26.1.10909125"];
                  is_file := λ _, true |}
    = Ok (Some "/opt/sdk/ndk/27.0.12077973/toolchains/llvm/prebuilt/linux-x86_64/bin/llvm-strip").
Proof. split_and!; vm_compute; reflexivity. Qed.

Example latest_ndk_by_text :
  latest_ndk ["27.0.12077973"; "100.0.1"; "26.1.10909125"] = Ok "27.0.12077973".
Proof. vm_compute. reflexivity. Qed.

End strip_facts.

(** ** The module resources *)

Section module_files_facts.
Import PyStr ModuleFiles.

Lemma tree_induction (P : tree → Prop) :
  (∀ filenames subdirs, Forall (λ ns, P ns.2) subdirs → P (Dir filenames subdirs)) →
  ∀ t, P t.
Proof.
  intros Hdir. fix IH 1. intros [filenames subdirs]. apply Hdir.
  induction subdirs as [|[name sub] rest IHrest]; constructor; [apply IH | exact IHrest].
Qed.

Lemma walk_below (t : tree) (top : string) :
  Forall (λ d, below top d.1.1) (walk top t).
Proof.
  revert top. induction t as [filenames subdirs IH] using tree_induction.
  intros top. simpl. constructor; [by left |].
  induction subdirs as [|[name sub] rest IHrest]; [constructor |].
  apply Forall_cons in IH as [Hsub Hrest]. apply Forall_app. split; [|by apply IHrest].
  eapply Forall_impl; [apply (Hsub (top +:+ "/" +:+ name)) |].
  intros [[path dirnames] fns] [-> | [s ->]]; simpl; right.
  - by exists name.
  - exists (name +:+ "/" +:+ s). by rewrite !str_app_assoc.
Qed.

Lemma slice_from_app (p t : string) : slice_from (String.length p) (p +:+ t) = t.
Proof. induction p as [|c p IH]; [by destruct t | done]. Qed.

Lemma relative_to_below (base path file : string) :
  below base path →
  ∃ rel, relative_to base (path +:+ "/" +:+ file) = Ok rel
    ∧ path +:+ "/" +:+ file = base +:+ "/" +:+ rel.
Proof.
  intros Hbelow.
  assert (Hrel : ∃ rel, path +:+ "/" +:+ file = (base +:+ "/") +:+ rel).
  { destruct Hbelow as [-> | [s ->]].
    - exists file. by rewrite str_app_assoc.
    - exists (s +:+ "/" +:+ file). by rewrite !str_app_assoc. }
  destruct Hrel as [rel Hrel]. exists rel. unfold relative_to. rewrite Hrel.
  destruct (String.eqb_spec ((base +:+ "/") +:+ rel) base) as [Heq|_].
  - apply (f_equal String.length) in Heq. rewrite !str_app_length in Heq.
    simpl in Heq. lia.
  - unfold startswith.
    rewrite (proj2 (prefix_spec (base +:+ "/") ((base +:+ "/") +:+ rel)))
      by (by exists rel).
    by rewrite slice_from_app, str_app_assoc.
Qed.

Lemma dict_set_elem (d : list (string * string)) (k v : string) (item : string * string) :
  item ∈ dict_set d k v → item = (k, v) ∨ item ∈ d.
Proof.
  induction d as [|[k' v'] d IH]; simpl.
  - intros Hin. apply list_elem_of_singleton in Hin. by left.
  - destruct (String.eqb_spec k' k) as [->|Hne].
    + intros [->|Hin]%elem_of_cons; [by left | right; by apply list_elem_of_further].
    + intros [->|Hin]%elem_of_cons; [right; apply list_elem_of_here |].
      destruct (IH Hin) as [->|Hd]; [by left | right; by apply list_elem_of_further].
Qed.

Lemma dict_set_has (d : list (string * string)) (k v : string) :
  (k, v) ∈ dict_set d k v.
Proof.
  induction d as [|[k' v'] d IH]; simpl; [apply list_elem_of_here |].
  destruct (String.eqb_spec k' k) as [->|Hne];
    [apply list_elem_of_here | by apply list_elem_of_further].
Qed.

Lemma dict_set_keeps (d : list (string * string)) (k v k0 v0 : string) :
  (k0, v0) ∈ d → ∃ v1, (k0, v1) ∈ dict_set d k v.
Proof.
  induction d as [|[k' v'] d IH]; simpl; [by intros ?%elem_of_nil |].
  intros [[= -> ->]|Hin]%elem_of_cons.
  - destruct (String.eqb_spec k' k) as [->|Hne]; eexists; apply list_elem_of_here.
  - destruct (IH Hin) as [v1 Hv1].
    destruct (String.eqb_spec k' k) as [->|Hne].
    + exists v0. by apply list_elem_of_further.
    + exists v1. by apply list_elem_of_further.
Qed.

Lemma collect_dir_spec (base path : string) (filenames : list string)
    (files : list (string * string)) :
  below base path → relative_items base files →
  ∃ files', collect_dir base path filenames files = Ok files'
    ∧ relative_items base files'
    ∧ (∀ k v, (k, v) ∈ files → ∃ v', (k, v') ∈ files')
    ∧ (∀ file, file ∈ filenames → ∃ rel, (path +:+ "/" +:+ file, rel) ∈ files').
Proof.
  intros Hbelow. revert files.
  induction filenames as [|file rest IH]; intros files Hitems; simpl.
  - exists files. split_and!; [done | done | by eauto |].
    intros file Hin. by apply elem_of_nil in Hin.
  - destruct (relative_to_below base path file Hbelow) as (rel & -> & Hpath). simpl.
    destruct (IH (dict_set files (path +:+ "/" +:+ file) rel))
      as (files' & -> & Hitems' & Hkeeps & Hall).
    { intros p r Hin. apply dict_set_elem in Hin as [[= -> ->]|Hin]; [done |].
      by apply Hitems. }
    exists files'. split_and!; [done | done | |].
    + intros k v Hin.
      destruct (dict_set_keeps files (path +:+ "/" +:+ file) rel k v Hin) as [v1 Hv1].
      by eapply Hkeeps.
    + intros f [->|Hin]%elem_of_cons; [|by apply Hall].
      eapply Hkeeps. apply dict_set_has.
Qed.

Lemma collect_walk_spec (base : string)
    (dirs : list (string * list string * list string)) (files : list (string * string)) :
  Forall (λ d, below base d.1.1) dirs → relative_items base files →
  ∃ files', collect_walk base dirs files = Ok files'
    ∧ relative_items base files'
    ∧ (∀ k v, (k, v) ∈ files → ∃ v', (k, v') ∈ files')
    ∧ (∀ path dirnames filenames file,
         (path, dirnames, filenames) ∈ dirs → file ∈ filenames →
         ∃ rel, (path +:+ "/" +:+ file, rel) ∈ files').
Proof.
  intros Hdirs. revert files.
  induction Hdirs as [|[[path dirnames] filenames] dirs Hbelow Hdirs IH];
    intros files Hitems; simpl.
  - exists files. split_and!; [done | done | by eauto |].
    intros ???? Hin. by apply elem_of_nil in Hin.
  - destruct (collect_dir_spec base path filenames files Hbelow Hitems)
      as (files1 & -> & Hitems1 & Hkeeps1 & Hall1). simpl.
    destruct (IH files1 Hitems1) as (files' & -> & Hitems' & Hkeeps' & Hall').
    exists files'. split_and!; [done | done | |].
    + intros k v Hin. destruct (Hkeeps1 k v Hin) as [v1 Hv1]. by eapply Hkeeps'.
    + intros p dn fns file [[= -> -> ->]|Hin]%elem_of_cons Hfile.
      * destruct (Hall1 file Hfile) as [rel Hrel]. by eapply Hkeeps'.
      * by eapply Hall'.
Qed.

(** X17: collecting the module files never raises; every file that the
    walk of the module directory yields is collected, and every collected
    path is the module directory, a slash, and the relative path it is
    stored under. *)
Theorem collect_module_files_relative (module_dir : string) (t : tree) :
  ∃ files, collect_module_files module_dir t = Ok files
    ∧ (∀ path rel, (path, rel) ∈ files → path = module_dir +:+ "/" +:+ rel)
    ∧ (∀ path dirnames filenames file,
         (path, dirnames, filenames) ∈ walk module_dir t → file ∈ filenames →
         ∃ rel, (path +:+ "/" +:+ file, rel) ∈ files).
Proof.
  unfold collect_module_files.
  destruct (collect_walk_spec module_dir (walk module_dir t) [])
    as (files & Hrun & Hitems & _ & Hall).
  - apply walk_below.
  - intros p r Hin. by apply elem_of_nil in Hin.
  - exists files. by split_and!.
Qed.

Example collect_module_files_sample :
  collect_module_files "/repo/module" sample_tree
  = Ok [ ("/repo/module/module.prop", "module.prop");
         ("/repo/module/customize.sh", "customize.sh");
         ("/repo/module/META-INF/com/update-binary", "META-INF/com/update-binary");
         ("/repo/module/system/placeholder", "system/placeholder") ].
Proof. vm_compute. reflexivity. Qed.

End module_files_facts.

(** ** The build environment *)

Section init_facts.
Import Init.

Lemma entry_Some (name : string) (d : directory) (k : kind) :
  NoDup (names d) → (entry name d = Some k ↔ (name, k) ∈ d).
Proof.
  unfold names. induction d as [|[name' k'] d IH]; simpl.
  - intros _. split; [done | by intros ?%elem_of_nil].
  - intros [Hnotin Hnodup]%NoDup_cons.
    destruct (String.eqb_spec name' name) as [->|Hne].
    + split.
      * intros [= ->]. apply list_elem_of_here.
      * intros [[= ->]|Hin]%elem_of_cons; [done |].
        exfalso. apply Hnotin. apply list_elem_of_fmap. by exists (name, k).
    + rewrite (IH Hnodup). split.
      * intros Hin. by apply list_elem_of_further.
      * intros [[= -> ->]|Hin]%elem_of_cons; done.
Qed.

Lemma remove_entry_sublist (name : string) (d : directory) :
  sublist (remove_entry name d) d.
Proof.
  unfold remove_entry, unlink, rmtree.
  destruct (entry name d) as [k|]; [|done].
  destruct (negb (exists_ d k)); [done |].
  destruct (is_symlink k || is_file d k); apply sublist_filter.
Qed.

Lemma names_sublist (d d' : directory) : sublist d' d → sublist (names d') (names d).
Proof. intros Hsub. unfold names. by apply fmap_sublist. Qed.

Lemma sublist_names_NoDup (d d' : directory) :
  sublist d' d → NoDup (names d) → NoDup (names d').
Proof. intros Hsub Hnodup. eapply sublist_NoDup; [done | by apply names_sublist]. Qed.

Lemma clear_names_sublist (l : list string) (d : directory) :
  sublist (foldl (λ acc name, remove_entry name acc) d l) d.
Proof.
  revert d. induction l as [|name l IH]; intros d; simpl; [done |].
  etrans; [apply IH | apply remove_entry_sublist].
Qed.

(** After its visit, an entry is gone unless it is a link that resolved
    to nothing then. *)
Lemma remove_entry_visited (name : string) (d : directory) (k : kind) :
  NoDup (names d) → (name, k) ∈ remove_entry name d →
  ∃ resolve, k = Symlink resolve ∧ resolve (names d) = None.
Proof.
  intros Hnodup Hin.
  assert (Hd : (name, k) ∈ d).
  { eapply elem_of_sublist; [done | apply remove_entry_sublist]. }
  apply (entry_Some name d k Hnodup) in Hd.
  revert Hin. unfold remove_entry, unlink, rmtree. rewrite Hd.
  destruct (exists_ d k) eqn:Hexists; simpl.
  - destruct (is_symlink k || is_file d k);
      intros [Hne _]%list_elem_of_filter; by simpl in Hne.
  - intros _. destruct k as [n|resolve]; [done |]. exists resolve. split; [done |].
    simpl in Hexists. apply bool_decide_eq_false in Hexists.
    destruct (resolve (names d)); [|done]. exfalso. apply Hexists. by eexists.
Qed.

Lemma remove_entry_other (name : string) (d : directory) (e : string * kind) :
  e ∈ d → e.1 ≠ name → e ∈ remove_entry name d.
Proof.
  intros Hin Hne. unfold remove_entry, unlink, rmtree.
  destruct (entry name d) as [k|]; [|done].
  destruct (negb (exists_ d k)); [done |].
  destruct (is_symlink k || is_file d k); by apply list_elem_of_filter.
Qed.

Lemma clear_names_visited (l : list string) (d : directory) (name : string) (k : kind) :
  NoDup (names d) → name ∈ l →
  (name, k) ∈ foldl (λ acc name, remove_entry name acc) d l →
  is_symlink k = true.
Proof.
  revert d. induction l as [|name' l IH]; intros d Hnodup Hname Hin; simpl in *.
  - by apply elem_of_nil in Hname.
  - destruct (decide (name ∈ l)) as [Hl|Hl].
    + apply (IH (remove_entry name' d)); [| done | done].
      eapply sublist_names_NoDup; [apply remove_entry_sublist | done].
    + apply elem_of_cons in Hname as [->|Hname]; [|done].
      assert (Hd : (name', k) ∈ remove_entry name' d).
      { eapply elem_of_sublist; [done | apply clear_names_sublist]. }
      by destruct (remove_entry_visited name' d k Hnodup Hd) as (resolve & -> & _).
Qed.

Lemma clear_names_dangling (l : list string) (d : directory) (name : string)
    (resolve : list string → option node) :
  NoDup (names d) → (∀ present, resolve present = None) →
  (name, Symlink resolve) ∈ d →
  (name, Symlink resolve) ∈ foldl (λ acc name, remove_entry name acc) d l.
Proof.
  intros Hnodup Hnone. revert d Hnodup.
  induction l as [|name' l IH]; intros d Hnodup Hin; simpl; [done |].
  apply IH.
  - eapply sublist_names_NoDup; [apply remove_entry_sublist | done].
  - destruct (decide (name = name')) as [<-|Hne]; [|by apply remove_entry_other].
    unfold remove_entry.
    rewrite (proj2 (entry_Some name d (Symlink resolve) Hnodup) Hin). simpl.
    rewrite Hnone. by rewrite bool_decide_eq_false_2 by (by intros [? ?]).
Qed.

Lemma clear_names_resolving (l : list string) (d : directory) (name : string)
    (resolve : list string → option node) :
  NoDup (names d) → name ∈ l → (∀ present, is_Some (resolve present)) →
  (name, Symlink resolve) ∉ foldl (λ acc name, remove_entry name acc) d l.
Proof.
  intros Hnodup Hname Hsome Hleft. revert d Hnodup Hleft.
  induction l as [|name' l IH]; intros d Hnodup Hleft; simpl in *.
  - by apply elem_of_nil in Hname.
  - destruct (decide (name ∈ l)) as [Hl|Hl].
    + apply (IH Hl (remove_entry name' d)); [|done].
      eapply sublist_names_NoDup; [apply remove_entry_sublist | done].
    + apply elem_of_cons in Hname as [->|Hname]; [|done].
      assert (Hd : (name', Symlink resolve) ∈ remove_entry name' d).
      { eapply elem_of_sublist; [done | apply clear_names_sublist]. }
      destruct (remove_entry_visited name' d _ Hnodup Hd) as (r & [= <-] & Hr).
      destruct (Hsome (names d)) as [n Hn]. congruence.
Qed.

Lemma init_entry_spec (clear : bool) (path : string) (p : place) :
  init_entry clear path p
  = if refused clear p
    then inr (match p with
              | DanglingLink => FileExistsError path
              | _ => NotADirectoryError path
              end)
    else inl (prepared clear p).
Proof. by destruct p as [| | |d], clear. Qed.

(** X18: [init] tests the environment in a fixed order and reports the
    first thing that is missing: ANDROID_HOME (OSError), then the module
    directory, then the build configuration (FileNotFoundError), and changes
    nothing in these cases.  Past the tests it looks at the build directory
    and then at the dist directory: where the path is a link whose target is
    missing it raises FileExistsError for that path; where the path names
    something that is no directory it raises NotADirectoryError for it with
    [clear] and accepts it as it is without.  An exception for the build
    directory changes nothing; one for the dist directory comes after the
    build directory was prepared.  Otherwise [init] returns with both
    prepared: a missing directory created empty, a directory kept, or
    cleared with [clear]. *)
Theorem init_first_missing (project_root : string) (clear : bool) (w : world) :
  (android_home w = None →
   init project_root clear w
   = (w, Some (OSError "The ANDROID_HOME environment variable is required.")))
  ∧ (is_Some (android_home w) → module_dir w = false →
     init project_root clear w
     = (w, Some (FileNotFoundError
                   ("Module directory does not exist: " +:+ project_root +:+ "/module"))))
  ∧ (is_Some (android_home w) → module_dir w = true → build_config_file w = false →
     init project_root clear w
     = (w, Some (FileNotFoundError
                   ("Build configuration file does not exist: "
                      +:+ project_root +:+ "/build.toml"))))
  ∧ (is_Some (android_home w) → module_dir w = true → build_config_file w = true →
     (build_dir w = DanglingLink →
      init project_root clear w
      = (w, Some (FileExistsError (project_root +:+ "/build"))))
     ∧ (build_dir w = NotDirectory → clear = true →
        init project_root clear w
        = (w, Some (NotADirectoryError (project_root +:+ "/build"))))
     ∧ (refused clear (build_dir w) = false →
        (dist_dir w = DanglingLink →
         init project_root clear w
         = (set_build_dir (prepared clear (build_dir w)) w,
            Some (FileExistsError (project_root +:+ "/dist"))))
        ∧ (dist_dir w = NotDirectory → clear = true →
           init project_root clear w
           = (set_build_dir (prepared clear (build_dir w)) w,
              Some (NotADirectoryError (project_root +:+ "/dist"))))
        ∧ (refused clear (dist_dir w) = false →
           init project_root clear w
           = (set_dist_dir (prepared clear (dist_dir w))
                (set_build_dir (prepared clear (build_dir w)) w), None)
           ∧ place_exists (prepared clear (build_dir w)) = true
           ∧ place_exists (prepared clear (dist_dir w)) = true)))
  ∧ (∀ p, refused clear p = true ↔ p = DanglingLink ∨ (p = NotDirectory ∧ clear = true))
  ∧ (∀ d, prepared clear Missing = Dir []
          ∧ prepared false (Dir d) = Dir d
          ∧ prepared true (Dir d) = Dir (clear_dir d)
          ∧ prepared false NotDirectory = NotDirectory).
Proof.
  unfold init. split_and!.
  - by intros ->.
  - intros [home ->] ->. done.
  - intros [home ->] -> ->. done.
  - intros [home ->] -> ->. simpl. rewrite !init_entry_spec. split_and!.
    + by intros ->.
    + by intros -> ->.
    + intros Hb. rewrite Hb. split_and!.
      * by intros ->.
      * by intros -> ->.
      * intros Hd. rewrite Hd. split_and!; [done | |].
        -- by destruct (build_dir w), clear.
        -- by destruct (dist_dir w), clear.
  - intros p. destruct p, clear; simpl; split; try done; try tauto.
    all: try (intros [? | [? ?]]; done).
    all: auto.
  - intros d. by destruct clear.
Qed.

Example init_first_missing_sample :
  init "/repo" true {| android_home := Some "/opt/sdk"; module_dir := true;
                       build_config_file := true;
                       build_dir := NotDirectory; dist_dir := Missing |}
  = ({| android_home := Some "/opt/sdk"; module_dir := true;
        build_config_file := true;
        build_dir := NotDirectory; dist_dir := Missing |},
     Some (NotADirectoryError "/repo/build"))
  ∧ init "/repo" false {| android_home := Some "/opt/sdk"; module_dir := true;
                          build_config_file := true;
                          build_dir := NotDirectory; dist_dir := DanglingLink |}
    = ({| android_home := Some "/opt/sdk"; module_dir := true;
          build_config_file := true;
          build_dir := NotDirectory; dist_dir := DanglingLink |},
       Some (FileExistsError "/repo/dist")).
Proof. split; reflexivity. Qed.

(** X19: when [init] with [clear] returns, of the entries that the build
    directory had, every regular file and every directory is gone, and so
    is every link that resolves whatever is removed; what is left are
    entries it had, in their order, all of them links: the links that
    resolve to nothing stay, since [remove_entry] takes them for entries
    that do not exist. *)
Theorem init_clear_leaves_links (project_root : string) (w w' : world) (d : directory) :
  init project_root true w = (w', None) →
  build_dir w = Dir d → NoDup (names d) →
  ∃ b, build_dir w' = Dir b
    ∧ sublist b d
    ∧ Forall (λ e, is_symlink e.2 = true) b
    ∧ (∀ name resolve, (name, Symlink resolve) ∈ d →
         (∀ present, resolve present = None) → (name, Symlink resolve) ∈ b)
    ∧ (∀ name resolve, (name, Symlink resolve) ∈ d →
         (∀ present, is_Some (resolve present)) → (name, Symlink resolve) ∉ b).
Proof.
  unfold init. destruct (android_home w) as [home|] eqn:Hhome; [|done].
  destruct (module_dir w); [|done]. destruct (build_config_file w); [|done]. simpl.
  rewrite !init_entry_spec. intros Hinit Hbuild Hnodup.
  rewrite Hbuild in Hinit. simpl in Hinit.
  destruct (refused true (dist_dir w)); [done |].
  injection Hinit as <-. simpl. exists (clear_dir d).
  assert (Hsub : sublist (clear_dir d) d) by apply clear_names_sublist.
  split_and!; [done | done | | |].
  - apply Forall_forall. intros [name k] Hin.
    apply (clear_names_visited (iterdir d) d name k Hnodup); [| done].
    unfold iterdir, names. apply list_elem_of_fmap. exists (name, k). split; [done |].
    eapply elem_of_sublist; done.
  - intros name resolve Hin Hnone. by apply clear_names_dangling.
  - intros name resolve Hin Hsome.
    apply clear_names_resolving; [done | | done].
    unfold iterdir, names. apply list_elem_of_fmap. by exists (name, Symlink resolve).
Qed.

Lemma init_clear_leaves_links_witness :
  ∃ b, build_dir (init "/repo" true sample_world).1 = Dir b
    ∧ sublist b sample_build_dir
    ∧ Forall (λ e, is_symlink e.2 = true) b
    ∧ (∀ name resolve, (name, Symlink resolve) ∈ sample_build_dir →
         (∀ present, resolve present = None) → (name, Symlink resolve) ∈ b)
    ∧ (∀ name resolve, (name, Symlink resolve) ∈ sample_build_dir →
         (∀ present, is_Some (resolve present)) → (name, Symlink resolve) ∉ b).
Proof.
  apply (init_clear_leaves_links "/repo" sample_world).
  - reflexivity.
  - reflexivity.
  - apply (bool_decide_unpack _). vm_compute. exact I.
Defined.

(** The link to the tarball is visited before the tarball and is removed;
    the link to the sources is visited after them and stays. *)
Example init_clear_sample :
  build_dir (init "/repo" true sample_world).1
  = Dir [ ("current", sibling_link "Python-3.13.1" Directory);
          ("old", outside_link None) ]
  ∧ dist_dir (init "/repo" true sample_world).1 = Dir [].
Proof. split; reflexivity. Qed.

End init_facts.
